(** * Isca / GFDL experiment driver: run lifecycle and configuration state

    A shallow embedding of [src/extra/python/gfdl/experiment.py]:
    the [DiagTable] builder, the namelist store (Python mapping objects
    living in an object store, so that sharing between experiments is
    visible), a file-system model for the shell utilities the driver calls,
    and the [Experiment] methods [run], [derive], [update_namelist],
    [rebuild_namelist], [write_diag_table], [run_parameter_sweep],
    [clear_rundir], [clear_workdir], [check_path_names] and
    [disable_rrtm]. *)

From stdpp Require Import gmap strings list fin_maps pretty.

Set Warnings "-clear-no-such-hyp".

Local Open Scope Z_scope.
Local Open Scope string_scope.
Local Open Scope list_scope.

(** ** Python values, exceptions and the state-and-exception monad *)

(** The scalar and list values that appear as namelist parameters and as
    the frequency of an output file. *)
#[warnings="-register-all"]
Inductive value : Type :=
  | VNone
  | VBool (b : bool)
  | VInt (z : Z)
  | VStr (s : string)
  | VList (l : list value).

(** A path is kept as its list of components; [P] is [os.path.join] with
    one more component. *)
Abbreviation path := (list string).

Definition P (d : path) (s : string) : path := d ++ [s].

(** The exceptions the driver raises or lets through.  [ErrorReturnCode n]
    is [sh]'s exception for a command that exits with status [n]. *)
Inductive exn : Type :=
  | SystemExit (code : Z)
  | ValueError
  | KeyError (k : string)
  | NameError (n : string)
  | AttributeError
  | IndexError
  | OSError (p : path)
  | TemplateNotFound (template : string)
  | ErrorReturnCode (code : Z)
  | KeyboardInterrupt.

Inductive res (A : Type) : Type :=
  | Ret (a : A)
  | Raise (e : exn).
Arguments Ret {A} a.
Arguments Raise {A} e.

Definition M (S A : Type) : Type := S -> res A * S.

Definition ret {S A} (a : A) : M S A := fun s => (Ret a, s).

Definition raise {S A} (e : exn) : M S A := fun s => (Raise e, s).

Definition bind {S A B} (m : M S A) (k : A -> M S B) : M S B :=
  fun s => match m s with
           | (Ret a, s') => k a s'
           | (Raise e, s') => (Raise e, s')
           end.

(** The value of a computation that returned, [d] for one that raised. *)
Definition value_of {A} (d : A) (r : res A) : A :=
  match r with
  | Ret a => a
  | Raise _ => d
  end.

Definition get {S} : M S S := fun s => (Ret s, s).

Definition gets {S A} (f : S -> A) : M S A := fun s => (Ret (f s), s).

Definition modify {S} (f : S -> S) : M S unit := fun s => (Ret tt, f s).

(** [try m except h]: the handler [h] picks the exceptions it catches. *)
Definition try_except {S A} (m : M S A) (h : exn -> option (M S A)) : M S A :=
  fun s => match m s with
           | (Ret a, s') => (Ret a, s')
           | (Raise e, s') =>
               match h e with
               | Some k => k s'
               | None => (Raise e, s')
               end
           end.

Declare Scope py_scope.
Delimit Scope py_scope with py.
Notation "'let*' x ':=' m 'in' k" := (bind m (fun x => k))
  (at level 10, x name, m at level 100, k at level 200) : py_scope.
Notation "m '>>' k" := (bind m (fun _ => k))
  (at level 100, k at level 200, right associativity) : py_scope.
Local Open Scope py_scope.

(** [for x in xs: body x] *)
Fixpoint for_each {S A} (xs : list A) (body : A -> M S unit) : M S unit :=
  match xs with
  | [] => ret tt
  | x :: xs' => body x >> for_each xs' body
  end.

(** ** Insertion-ordered dictionaries with string keys *)

Module Dict.
Section Dict.
Context {V : Type}.

Definition t : Type := list (string * V).

Fixpoint get (k : string) (d : t) : option V :=
  match d with
  | [] => None
  | (k', v) :: d' => if String.eqb k k' then Some v else get k d'
  end.

(** [d[k] = v]: an existing key keeps its position. *)
Fixpoint set (k : string) (v : V) (d : t) : t :=
  match d with
  | [] => [(k, v)]
  | (k', v') :: d' =>
      if String.eqb k k' then (k', v) :: d' else (k', v') :: set k v d'
  end.

Definition keys (d : t) : list string := map fst d.

Definition values (d : t) : list V := map snd d.

Definition len (d : t) : nat := length d.
End Dict.
Arguments t V : clear implicits.
End Dict.

(** ** DiagTable *)

Record field : Type := mk_field {
  fld_module : string;
  fld_name : string;
  fld_time_avg : bool
}.

Record outfile : Type := mk_outfile {
  of_name : string;
  of_freq : value;
  of_units : string;
  of_time_units : string;
  of_fields : list field
}.

Definition append_field (f : field) (r : outfile) : outfile :=
  mk_outfile (of_name r) (of_freq r) (of_units r) (of_time_units r)
             (of_fields r ++ [f]).

Module DiagTable.

(** [DiagTable.__init__]: [self.files = {}] *)
Record t : Type := mk { files : Dict.t outfile }.

Definition init : t := mk [].

(** [add_file(self, name, freq, units="hours", time_units=None)] *)
Definition add_file (name : string) (freq : value) (units : string)
    (time_units : option string) (self : t) : t :=
  let time_units := match time_units with
                    | None => units
                    | Some u => u
                    end in
  mk (Dict.set name (mk_outfile name freq units time_units []) (files self)).

(** One round of the loop of [add_field]:
    [self.files[fname]['fields'].append({...})] *)
Definition attach (f : field) (fname : string) : M t unit :=
  fun self =>
    match Dict.get fname (files self) with
    | None => (Raise (KeyError fname), self)
    | Some r => (Ret tt, mk (Dict.set fname (append_field f r) (files self)))
    end.

(** [add_field(self, module, name, time_avg=False, files=None)] *)
Definition add_field (module name : string) (time_avg : bool)
    (files_arg : option (list string)) : M t unit :=
  let* fs := match files_arg with
             | None => gets (fun self => Dict.keys (files self))
             | Some l => ret l
             end in
  for_each fs (attach (mk_field module name time_avg)).

(** [copy]: [copy.deepcopy] of a tree of immutable leaves is the value. *)
Definition copy (self : t) : t := mk (files self).

End DiagTable.

(** ** The object store and the namelist

    [f90nml.read] returns a [Namelist], a mapping from group (section) name
    to a group object, itself a mapping from variable name to value.  Both
    levels are mutable Python objects, reached through references: an
    [Experiment] holds a reference to its namelist, and the namelist holds
    references to its groups.  Group values that are themselves mappings
    (Fortran derived types) are outside this model. *)

Abbreviation loc := positive.

Inductive obj : Type :=
  | Group (vars : gmap string value)
  | Nml (groups : gmap string loc).

Abbreviation heap := (gmap loc obj).

Module Heap.

Definition alloc (o : obj) : M heap loc :=
  fun h => let l := fresh (dom h) in (Ret l, <[l := o]> h).

Definition store (l : loc) (o : obj) : M heap unit :=
  fun h => (Ret tt, <[l := o]> h).

(** The top level of the namelist behind [l]. *)
Definition top (l : loc) (h : heap) : gmap string loc :=
  match h !! l with
  | Some (Nml g) => g
  | _ => ∅
  end.

(** The variables of the group object behind [l]. *)
Definition group (l : loc) (h : heap) : option (gmap string value) :=
  match h !! l with
  | Some (Group v) => Some v
  | _ => None
  end.

(** What the group references [groups] denote in [h]. *)
Definition gview (groups : gmap string loc) (h : heap)
    : gmap string (gmap string value) :=
  omap (fun g => group g h) groups.

(** What a namelist denotes: group name to variable name to value. *)
Definition view (l : loc) (h : heap) : gmap string (gmap string value) :=
  gview (top l h) h.

(** Every reference in [groups] leads to a group object. *)
Definition grouped (groups : gmap string loc) (h : heap) : Prop :=
  forall sec g, groups !! sec = Some g -> is_Some (group g h).

(** [l] is a namelist object whose references all lead to group objects:
    a Python reference never dangles. *)
Definition closed (l : loc) (h : heap) : Prop :=
  (exists groups, h !! l = Some (Nml groups)) /\ grouped (top l h) h.

(** No group object is reached under two names. *)
Definition unshared (l : loc) (h : heap) : Prop :=
  forall s1 s2 g,
    top l h !! s1 = Some g -> top l h !! s2 = Some g -> s1 = s2.

(** The two conditions, as tests. *)
Definition closedb (l : loc) (h : heap) : bool :=
  match h !! l with
  | Some (Nml groups) =>
      forallb (fun sg => bool_decide (is_Some (group sg.2 h)))
              (map_to_list groups)
  | _ => false
  end.

Definition unsharedb (l : loc) (h : heap) : bool :=
  bool_decide (NoDup (map_to_list (top l h)).*2).

End Heap.

Module Namelist.

(** [self[sec]] *)
Definition getitem (self : loc) (sec : string) : M heap loc :=
  let* groups := gets (Heap.top self) in
  match groups !! sec with
  | Some g => ret g
  | None => raise (KeyError sec)
  end.

(** [self[sec] = g] *)
Definition setitem (self : loc) (sec : string) (g : loc) : M heap unit :=
  let* groups := gets (Heap.top self) in
  Heap.store self (Nml (<[sec := g]> groups)).

(** [self.copy()], inherited from [OrderedDict].  For a subclass the
    interpreter (CPython 3.5 and later) calls [type(self)()] and stores
    every item of [self] in the new mapping with [od_copy[key] = value]:
    the copy is a new namelist object that holds the group objects of
    [self], not copies of them. *)
Definition copy (self : loc) : M heap loc :=
  let* items := gets (Heap.top self) in
  let* od_copy := Heap.alloc (Nml ∅) in
  for_each (map_to_list items) (fun kv => setitem od_copy kv.1 kv.2) >>
  ret od_copy.

(** [self.update(other)], inherited from the mapping: one [self[k] = v]
    for each item of [other]; the group references of [other] replace
    those of [self] under the same name. *)
Definition update (self other : loc) : M heap unit :=
  let* mine := gets (Heap.top self) in
  let* theirs := gets (Heap.top other) in
  Heap.store self (Nml (theirs ∪ mine)).


(** [grp[name] = val] on the group object behind [g] *)
Definition group_setitem (g : loc) (name : string) (val : value)
    : M heap unit :=
  let* vars := gets (Heap.group g) in
  match vars with
  | Some v => Heap.store g (Group (<[name := val]> v))
  | None => raise AttributeError
  end.


(** What [f90nml.read] builds from the parsed text of a namelist file:
    one new group object for each group, under a new [Namelist]. *)
Definition alloc_group (sv : string * gmap string value)
    (acc : gmap string loc) : M heap (gmap string loc) :=
  let* g := Heap.alloc (Group sv.2) in
  ret (<[sv.1 := g]> acc).

Fixpoint alloc_groups (l : list (string * gmap string value))
    (acc : gmap string loc) : M heap (gmap string loc) :=
  match l with
  | [] => ret acc
  | sv :: l' => let* acc' := alloc_group sv acc in alloc_groups l' acc'
  end.

Definition of_data (n : gmap string (gmap string value)) : M heap loc :=
  let* groups := alloc_groups (map_to_list n) ∅ in
  Heap.alloc (Nml groups).

(** [nml[sec][name] = val] *)
Definition setitem2 (self : loc) (sec name : string) (val : value)
    : M heap unit :=
  let* g := getitem self sec in
  group_setitem g name val.


End Namelist.

(** ** Strings: the formats and glob patterns the driver uses *)

(** ['%d' % z] *)
Definition fmt_d (z : Z) : string := pretty z.

Fixpoint zeros (n : nat) : string :=
  match n with
  | O => ""
  | S n' => String (Ascii.ascii_of_nat 48) (zeros n')
  end.

(** ['%03d' % z]: zero padding to width three, after the sign. *)
Definition fmt_03d (z : Z) : string :=
  if Z.ltb z 0
  then let digits := pretty (Z.abs z) in
       "-" +:+ zeros (2 - String.length digits) +:+ digits
  else let digits := pretty z in
       zeros (3 - String.length digits) +:+ digits.

Definition lower_char (c : Ascii.ascii) : Ascii.ascii :=
  let n := Ascii.nat_of_ascii c in
  if (Nat.leb 65 n && Nat.leb n 90)%bool then Ascii.ascii_of_nat (n + 32)
  else c.

(** [s.lower()] *)
Fixpoint lower (s : string) : string :=
  match s with
  | EmptyString => EmptyString
  | String c s' => String (lower_char c) (lower s')
  end.

(** [pat in s] *)
Fixpoint has_sub (pat s : string) : bool :=
  String.prefix pat s ||
  match s with
  | EmptyString => false
  | String _ s' => has_sub pat s'
  end.

Fixpoint has_suffix (pat s : string) : bool :=
  String.eqb pat s ||
  match s with
  | EmptyString => false
  | String _ s' => has_suffix pat s'
  end.

Definition hidden (s : string) : bool := String.prefix "." s.

(** The shell pattern [*.nc] and the pattern [*.res*] of [sh.glob]: a
    leading dot is never matched by [*]. *)
Definition glob_nc (s : string) : bool := negb (hidden s) && has_suffix ".nc" s.

Definition glob_res (s : string) : bool := negb (hidden s) && has_sub ".res" s.


(** ** The file system and the shell utilities

    A file system is a finite map from paths to nodes.  The contents of a
    file record what was written, not its text: rendering templates and
    serialising namelists are left to the libraries that do them. *)

(** The variables handed to the [runmonth.sh] template. *)
Record run_vars : Type := mk_run_vars {
  rv_month : Z;
  rv_datadir : path;
  rv_rundir : path;
  rv_execdir : path;
  rv_srcdir : path;
  rv_env_source : path;
  rv_mpirun_opts : string;
  rv_restart_file : option path;
  rv_num_cores : Z;
  rv_run_idb : bool;
  rv_experiment_restart : option path
}.

Inductive data : Type :=
  | Opaque (tag : string)
  | Lines (l : list string)
  | NmlText (n : gmap string (gmap string value))
  | DiagText (calendar : bool) (outputfiles : list outfile)
  | Script (vars : run_vars)
  | Cpio (members : list string).

Inductive node : Type :=
  | Dir
  | File (d : data).

Module FS.

Abbreviation t := (gmap path node).

Definition isdir (p : path) (fs : t) : bool :=
  match fs !! p with
  | Some Dir => true
  | _ => false
  end.

Definition isfile (p : path) (fs : t) : bool :=
  match fs !! p with
  | Some (File _) => true
  | _ => false
  end.

(** [strip d p] is what is left of [p] below [d], when [p] is [d] or lies
    below it. *)
Fixpoint strip (d p : path) : option path :=
  match d, p with
  | [], _ => Some p
  | x :: d', y :: p' => if String.eqb x y then strip d' p' else None
  | _ :: _, [] => None
  end.

Definition basename (p : path) : string := List.last p "".

Definition parent (p : path) : path := removelast p.

(** [mkdir -p p]: every missing component becomes a directory; a
    component that is a file makes the command fail. *)
Fixpoint mkdir_from (base : path) (rest : list string) (fs : t)
    : option t :=
  match rest with
  | [] => Some fs
  | s :: rest' =>
      let q := base ++ [s] in
      match fs !! q with
      | Some (File _) => None
      | _ => mkdir_from q rest' (<[q := Dir]> fs)
      end
  end.

Definition mkdir_p (p : path) : M t unit :=
  fun fs => match mkdir_from [] p fs with
            | Some fs' => (Ret tt, fs')
            | None => (Raise (ErrorReturnCode 1), fs)
            end.

(** [mkdir -p p1 p2 ...]: all operands are tried, the exit status is 1
    when one of them failed. *)
Fixpoint mkdir_all (ps : list path) (failed : bool) : M t unit :=
  match ps with
  | [] => if failed then raise (ErrorReturnCode 1) else ret tt
  | p :: ps' =>
      fun fs => match mkdir_from [] p fs with
                | Some fs' => mkdir_all ps' failed fs'
                | None => mkdir_all ps' true fs
                end
  end.

(** The file system without [p] and all that lies below it. *)
Definition prune (p : path) (fs : t) : t :=
  filter (fun e => strip p e.1 = None) fs.

(** [rm -r p]: [p] and all that lies below it; status 1 when [p] does not
    exist.  A file system has entries only below directories that exist,
    so nothing lies below a missing [p]; the map may hold such entries,
    and they are swept as well. *)
Definition rm_r (p : path) : M t unit :=
  fun fs => (match fs !! p with
             | None => Raise (ErrorReturnCode 1)
             | Some _ => Ret tt
             end, prune p fs).

(** [rm p]: a file is removed; status 1 when [p] is missing or is a
    directory. *)
Definition rm (p : path) : M t unit :=
  fun fs => match fs !! p with
            | Some (File _) => (Ret tt, delete p fs)
            | _ => (Raise (ErrorReturnCode 1), fs)
            end.

(** Opening [p] for writing: the parent must be a directory and [p] must
    not be one. *)
Definition write (p : path) (d : data) : M t unit :=
  fun fs => if isdir (parent p) fs && negb (isdir p fs)
            then (Ret tt, <[p := File d]> fs)
            else (Raise (OSError p), fs).

Definition read (p : path) : M t data :=
  fun fs => match fs !! p with
            | Some (File d) => (Ret d, fs)
            | _ => (Raise (OSError p), fs)
            end.

(** The entries at and below [src], by their path relative to [src]. *)
Definition subtree (src : path) (fs : t) : list (path * node) :=
  omap (fun e => (fun r => (r, e.2)) <$> strip src e.1) (map_to_list fs).

(** The entries written below [dst]. *)
Definition graft (dst : path) (entries : list (path * node)) (fs : t) : t :=
  foldr (fun e acc => <[dst ++ e.1 := e.2]> acc) fs entries.

(** [cp src dst] and [cp -a src dst] for a file [src]: into [dst] when it
    is a directory, onto [dst] otherwise. *)
Definition cp (src dst : path) : M t unit :=
  fun fs => match fs !! src with
            | Some (File d) =>
                let target := if isdir dst fs then P dst (basename src)
                              else dst in
                match write target d fs with
                | (Ret _, fs') => (Ret tt, fs')
                | (Raise _, fs') => (Raise (ErrorReturnCode 1), fs')
                end
            | _ => (Raise (ErrorReturnCode 1), fs)
            end.

(** [cp -a src/. dst]: the contents of the directory [src] into the
    directory [dst]. *)
Definition cp_a_contents (src dst : path) : M t unit :=
  fun fs => if isdir src fs && isdir dst fs
            then (Ret tt, graft dst (subtree src fs) fs)
            else (Raise (ErrorReturnCode 1), fs).

(** The entries of [src] whose name in [src] matches [pat], with all that
    lies below them, relative to [src]. *)
Definition matching (pat : string -> bool) (src : path) (fs : t)
    : list (path * node) :=
  List.filter (fun e => match e.1 with
                        | c :: _ => pat c
                        | [] => false
                        end) (subtree src fs).

(** The names in the directory [d] that match [pat]. *)
Definition glob (pat : string -> bool) (d : path) (fs : t) : list string :=
  omap (fun e => match e.1 with
                 | [c] => if pat c then Some c else None
                 | _ => None
                 end) (subtree d fs).

End FS.

(** ** The world of one driver process *)

(** What the child process started from [runmonth.sh] does: the entries it
    leaves in the run directory (paths relative to it), and how waiting for
    it ends. *)
Inductive ending : Type :=
  | Exited
  | Died (e : exn).

Record proc_run : Type := mk_proc_run {
  pr_writes : list (path * node);
  pr_ending : ending
}.

Inductive event : Type :=
  | Launch (script : data)
  | Kill.

(** The module-level names of [experiment.py] that the methods use: the
    environment variables read at import, the directory of the module, and
    the shell that runs the rendered script. *)
Record Env : Type := mk_Env {
  GFDL_BASE : path;
  GFDL_WORK : path;
  GFDL_DATA : path;
  GFDL_ENV : string;
  module_directory : path;
  bash : data -> gmap path node -> proc_run
}.

Record World : Type := mk_World {
  w_fs : gmap path node;
  w_heap : heap;
  w_cwd : path;
  w_trace : list event
}.

Definition with_fs (f : gmap path node) (w : World) : World :=
  mk_World f (w_heap w) (w_cwd w) (w_trace w).

Definition with_heap (h : heap) (w : World) : World :=
  mk_World (w_fs w) h (w_cwd w) (w_trace w).

Definition with_cwd (c : path) (w : World) : World :=
  mk_World (w_fs w) (w_heap w) c (w_trace w).

Definition emit (e : event) : M World unit :=
  modify (fun w => mk_World (w_fs w) (w_heap w) (w_cwd w) (w_trace w ++ [e])).

Definition on_fs {A} (m : M (gmap path node) A) : M World A :=
  fun w => let (r, f) := m (w_fs w) in (r, with_fs f w).

Definition on_heap {A} (m : M heap A) : M World A :=
  fun w => let (r, h) := m (w_heap w) in (r, with_heap h w).

(** [sh.cd(p)] *)
Definition cd (p : path) : M World unit :=
  fun w => if FS.isdir p (w_fs w) then (Ret tt, with_cwd p w)
           else (Raise (OSError p), w).

(** [mkdir = sh.mkdir.bake('-p')] *)
Definition mkdir (ps : list path) : M World unit :=
  on_fs (FS.mkdir_all ps false).

(** The names bound at module level by the imports and assignments of
    [experiment.py]. *)
Definition module_globals : list string :=
  ["contextmanager"; "copy"; "logging"; "os"; "re"; "sys"; "f90nml";
   "Environment"; "FileSystemLoader"; "sh"; "pdb"; "getpass"; "P";
   "_module_directory"; "mkdir"; "log"; "ch"; "clean_log_info";
   "clean_log_error"; "clean_log_debug"; "GFDL_BASE"; "GFDL_WORK";
   "GFDL_DATA"; "GFDL_ENV"; "_screen_window"; "_using_screen";
   "set_screen_title"; "CompilationError"; "Experiment"; "DiagTable"].

(** Looking up a global name that no import or assignment has bound. *)
Definition lookup_global {S} (n : string) : M S unit :=
  if bool_decide (n ∈ module_globals) then ret tt else raise (NameError n).

(** ** The pieces of Python that the parameter sweep relies on *)

(** [repr(v)], for strings without quotes or escapes in them. *)
Fixpoint repr (v : value) : string :=
  match v with
  | VNone => "None"
  | VBool true => "True"
  | VBool false => "False"
  | VInt z => pretty z
  | VStr s => "'" +:+ s +:+ "'"
  | VList l => "[" +:+ String.concat ", " (map repr l) +:+ "]"
  end.

(** One entry [(a, b, val)] of an axis of the sweep, and its [str]. *)
Abbreviation entry := (string * string * value)%type.

Abbreviation axis := (list entry).

Definition str_entry (e : entry) : string :=
  "(" +:+ repr (VStr e.1.1) +:+ ", " +:+ repr (VStr e.1.2) +:+ ", " +:+
  repr e.2 +:+ ")".

(** The two list comprehensions at the head of [run_parameter_sweep]: one
    list of [(sec, name, val)] for each parameter of each section. *)
Definition sweep_params (parameter_values : Dict.t (Dict.t (list value)))
    : list axis :=
  let params :=
    flat_map (fun sp => map (fun nv => (sp.1, nv.1, nv.2)) sp.2)
             parameter_values in
  map (fun abv => map (fun val => (abv.1.1, abv.1.2, val)) abv.2) params.

(** [itertools.product] of the iterables it is given as arguments *)
Fixpoint product {A} (iterables : list (list A)) : list (list A) :=
  match iterables with
  | [] => [[]]
  | xs :: rest => flat_map (fun x => map (cons x) (product rest)) xs
  end.

(** [for sec, name, val in ...]: the target list of three names takes a
    sequence of exactly three members. *)
Definition unpack3 {S A} (xs : list A) : M S (A * A * A) :=
  match xs with
  | [a; b; c] => ret (a, b, c)
  | _ => raise ValueError
  end.

Fixpoint unpack_all {S A} (combo : list (list A)) : M S (list (A * A * A)) :=
  match combo with
  | [] => ret []
  | xs :: combo' =>
      let* x := unpack3 xs in
      let* rest := unpack_all combo' in
      ret (x :: rest)
  end.

(** ** Experiment *)

Record Experiment : Type := mk_Experiment {
  name : string;
  workdir : path;
  execdir : path;
  restartdir : path;
  rundir : path;
  datadir : path;
  env_source : path;
  srcdir : path;
  template_dir : path;
  diag_table : DiagTable.t;
  field_table_file : path;
  path_names : list string;
  namelist_files : list path;
  namelist : loc;
  inputfiles : list path;
  overwrite_data : bool;
  cur_month : option Z
}.

Definition set_namelist (n : loc) (e : Experiment) : Experiment :=
  mk_Experiment (name e) (workdir e) (execdir e) (restartdir e) (rundir e)
    (datadir e) (env_source e) (srcdir e) (template_dir e) (diag_table e)
    (field_table_file e) (path_names e) (namelist_files e) n (inputfiles e)
    (overwrite_data e) (cur_month e).

Definition set_execdir (d : path) (e : Experiment) : Experiment :=
  mk_Experiment (name e) (workdir e) d (restartdir e) (rundir e)
    (datadir e) (env_source e) (srcdir e) (template_dir e) (diag_table e)
    (field_table_file e) (path_names e) (namelist_files e) (namelist e)
    (inputfiles e) (overwrite_data e) (cur_month e).

Definition set_cur_month (m : Z) (e : Experiment) : Experiment :=
  mk_Experiment (name e) (workdir e) (execdir e) (restartdir e) (rundir e)
    (datadir e) (env_source e) (srcdir e) (template_dir e) (diag_table e)
    (field_table_file e) (path_names e) (namelist_files e) (namelist e)
    (inputfiles e) (overwrite_data e) (Some m).

(** [use_diag_table(self, diag_table)] *)
Definition use_diag_table (d : DiagTable.t) (e : Experiment) : Experiment :=
  mk_Experiment (name e) (workdir e) (execdir e) (restartdir e) (rundir e)
    (datadir e) (env_source e) (srcdir e) (template_dir e) (DiagTable.copy d)
    (field_table_file e) (path_names e) (namelist_files e) (namelist e)
    (inputfiles e) (overwrite_data e) (cur_month e).

(** [f90nml.read(p)] *)
Definition f90nml_read (p : path) : M World loc :=
  let* d := on_fs (FS.read p) in
  match d with
  | NmlText n => on_heap (Namelist.of_data n)
  | _ => raise ValueError
  end.

(** [rebuild_namelist(self)], on the list [self.namelist_files] *)
Definition rebuild_namelist (files : list path) : M World loc :=
  match files with
  | [] => raise IndexError
  | f0 :: rest =>
      let* namelist := f90nml_read f0 in
      for_each rest (fun nl =>
        let* other := f90nml_read nl in
        on_heap (Namelist.update namelist other)) >>
      ret namelist
  end.

(** [_read_pathnames(self, path_names_file)] *)
Definition read_pathnames (p : path) : M World (list string) :=
  let* d := on_fs (FS.read p) in
  match d with
  | Lines l => ret l
  | _ => ret []
  end.

(** [get_restart_file(self, month)] *)
Definition get_restart_file (self : Experiment) (month : Z) : path :=
  P (restartdir self) ("res_" +:+ fmt_d month +:+ ".cpio").


(** The arguments of [run] that the method reads. *)
Record run_args : Type := mk_run_args {
  month : Z;
  restart_file : option path;
  use_restart : bool;
  multi_node : bool;
  num_cores : Z;
  arg_overwrite_data : bool;
  light : bool;
  run_idb : bool;
  experiment_restart : option path
}.

(** [run(month)] with every other argument at its default. *)
Definition default_args (month : Z) : run_args :=
  mk_run_args month None true false 8 false false false None.

Definition on_world {A} (m : M World A) : M (Experiment * World) A :=
  fun s => let (r, w) := m s.2 in (r, (s.1, w)).

(** A method of [exp] called from a method of another object. *)
Definition call_on {A} (exp : Experiment) (m : M (Experiment * World) A)
    : M World (A * Experiment) :=
  fun w => match m (exp, w) with
           | (Ret a, s) => (Ret (a, s.1), s.2)
           | (Raise e, s) => (Raise e, s.2)
           end.

(** *** Construction and the files a run is prepared with *)

Section Driver.

Variable E : Env.

(** [jinja2]'s [get_template]: the template must be a file of the
    template directory. *)
Definition get_template (self : Experiment) (t : string) : M World unit :=
  let* found := gets (fun w => FS.isfile (P (template_dir self) t) (w_fs w)) in
  if found then ret tt else raise (TemplateNotFound t).

(** [Experiment.__init__(self, name, overwrite_data=False, run_idb=False)]
    without a repository to check out. *)
Definition Experiment_init (name : string) (overwrite_data run_idb : bool)
    : M World Experiment :=
  let workdir := P (GFDL_WORK E) name in
  let execdir := if run_idb then P workdir "exec_debug"
                 else P workdir "exec" in
  let restartdir := P workdir "restarts" in
  let rundir := P workdir "run" in
  let datadir := P (GFDL_DATA E) name in
  let env_source := GFDL_BASE E ++ ["src"; "extra"; "env"; GFDL_ENV E] in
  let* present := gets (fun w => FS.isdir workdir (w_fs w)) in
  (if present then ret tt else mkdir [workdir]) >>
  let srcdir := GFDL_BASE E in
  let template_dir := P (module_directory E) "templates" in
  let diag_table := DiagTable.init in
  let field_table_file := P template_dir "field_table" in
  let* path_names := read_pathnames (P template_dir "path_names") in
  let namelist_files := [P template_dir "core.nml";
                         P template_dir "phys.nml"] in
  let* namelist := rebuild_namelist namelist_files in
  ret (mk_Experiment name workdir execdir restartdir rundir datadir
         env_source srcdir template_dir diag_table field_table_file
         path_names namelist_files namelist [] overwrite_data None).

(** [clear_rundir(self)] *)
Definition clear_rundir (self : Experiment) : M World unit :=
  cd (workdir self) >>
  try_except (on_fs (FS.rm_r (rundir self)))
             (fun e => match e with
                       | ErrorReturnCode 1 => Some (ret tt)
                       | _ => None
                       end) >>
  mkdir [rundir self].

(** [write_namelist(self, outdir)]: [Namelist.write] refuses to replace an
    existing file. *)
Definition write_namelist (self : Experiment) (outdir : path)
    : M World unit :=
  let target := P outdir "input.nml" in
  let* present := gets (fun w => FS.isfile target (w_fs w)) in
  if present then raise (OSError target)
  else
    let* n := gets (fun w => Heap.view (namelist self) (w_heap w)) in
    on_fs (FS.write target (NmlText n)).

(** [write_field_table(self, outdir)] *)
Definition write_field_table (self : Experiment) (outdir : path)
    : M World unit :=
  on_fs (FS.cp (field_table_file self) (P outdir "field_table")).

(** [not self.namelist['main_nml']['calendar'].lower()
          .startswith('no_calendar')] *)
Definition calendar_enabled (self : Experiment) : M World bool :=
  let* g := on_heap (Namelist.getitem (namelist self) "main_nml") in
  let* vars := gets (fun w => Heap.group g (w_heap w)) in
  match vars with
  | None => raise AttributeError
  | Some v =>
      match v !! "calendar" with
      | None => raise (KeyError "calendar")
      | Some (VStr s) => ret (negb (String.prefix "no_calendar" (lower s)))
      | Some _ => raise AttributeError
      end
  end.

(** [write_diag_table(self, outdir)] *)
Definition write_diag_table (self : Experiment) (outdir : path)
    : M World unit :=
  let outfile := P outdir "diag_table" in
  if negb (Nat.eqb (Dict.len (DiagTable.files (diag_table self))) 0) then
    get_template self "diag_table" >>
    let* calendar := calendar_enabled self in
    let outputfiles := Dict.values (DiagTable.files (diag_table self)) in
    on_fs (FS.write outfile (DiagText calendar outputfiles))
  else
    raise ValueError.

(** *** One run *)

Definition outdir_of (self : Experiment) (month : Z) : path :=
  P (datadir self) ("run" +:+ fmt_03d month).

(** Lines 359-371: the scratch directories and the input files. *)
Definition prepare (self : Experiment) : M World unit :=
  let indir := P (rundir self) "INPUT" in
  mkdir [indir; P (rundir self) "RESTART"; restartdir self] >>
  write_namelist self (rundir self) >>
  write_field_table self (rundir self) >>
  write_diag_table self (rundir self) >>
  for_each (inputfiles self)
           (fun filename => on_fs (FS.cp filename
                                     (P indir (FS.basename filename)))).

(** Lines 373-384: which restart file the run starts from.  An empty
    path is as good as none for [if not restart_file]. *)
Definition resolve_restart (self : Experiment) (a : run_args)
    : M World (option path) :=
  if use_restart a then
    let restart_file := match restart_file a with
                        | None | Some [] =>
                            get_restart_file self (month a - 1)
                        | Some p => p
                        end in
    let* found := gets (fun w => FS.isfile restart_file (w_fs w)) in
    if found then ret (Some restart_file)
    else raise (SystemExit 2)
  else
    ret None.

(** [sh.bash(script, _bg=True)] followed by [proc.wait()]: the child
    leaves its files in the run directory, and waiting for it returns or
    raises. *)
Definition launch (self : Experiment) (script : path) : M World unit :=
  let* text := on_fs (FS.read script) in
  fun w =>
    let pr := bash E text (w_fs w) in
    let w' := mk_World (FS.graft (rundir self) (pr_writes pr) (w_fs w))
                       (w_heap w) (w_cwd w)
                       (w_trace w ++ [Launch text]) in
    match pr_ending pr with
    | Exited => (Ret tt, w')
    | Died e => (Raise e, w')
    end.

(** The classes below [Exception]: [except Exception] does not catch
    [SystemExit] and [KeyboardInterrupt]. *)
Definition is_Exception (e : exn) : bool :=
  match e with
  | SystemExit _ | KeyboardInterrupt => false
  | _ => true
  end.

(** Lines 413-427.  The value tells whether the method goes on after the
    [try] statement ([true]) or has returned [False] from the handler of
    the interrupt. *)
Definition launch_and_wait (self : Experiment) : M World bool :=
  try_except
    (launch self (P (rundir self) "runmonth.sh") >> ret true)
    (fun e => match e with
              | KeyboardInterrupt =>
                  Some (emit Kill >> clear_rundir self >> ret false)
              | _ => if is_Exception e
                     then Some (emit Kill >> raise e)
                     else None
              end).

(** Lines 429-438: the restart archive of the month. *)
Definition archive_restart (self : Experiment) (month : Z)
    : M World unit :=
  let restart_file := P (restartdir self) ("res_" +:+ fmt_d month +:+ ".cpio") in
  cd (P (rundir self) "RESTART") >>
  let* state_files := gets (fun w => FS.glob glob_res (w_cwd w) (w_fs w)) in
  on_fs (FS.write restart_file (Cpio state_files)) >>
  on_fs (FS.rm_r (P (rundir self) "RESTART")).

(** [os.system("cp -a " + rundir + "/*.nc " + outdir)]: the status is
    not looked at. *)
Definition copy_nc (self : Experiment) (outdir : path) : M World unit :=
  modify (fun w =>
    if FS.isdir outdir (w_fs w)
    then with_fs (FS.graft outdir (FS.matching glob_nc (rundir self) (w_fs w))
                           (w_fs w)) w
    else w).

(** Lines 440-450: what goes to the output directory. *)
Definition store_output (self : Experiment) (a : run_args) (outdir : path)
    : M World unit :=
  let month := month a in
  if light a then
    copy_nc self outdir >>
    on_fs (FS.cp (P (restartdir self) ("res_" +:+ fmt_d month +:+ ".cpio"))
                 outdir) >>
    if Z.ltb 1 month then
      try_except
        (on_fs (FS.rm (P (restartdir self)
                         ("res_" +:+ fmt_d (month - 1) +:+ ".cpio"))))
        (fun e => match e with
                  | ErrorReturnCode 1 => Some (ret tt)
                  | _ => None
                  end) >>
      on_fs (FS.rm (P (P (datadir self) ("run" +:+ fmt_03d (month - 1)))
                      ("res_" +:+ fmt_d (month - 1) +:+ ".cpio")))
    else ret tt
  else
    on_fs (FS.cp_a_contents (rundir self) outdir).

(** Lines 386-398: the variables of the run script. *)
Definition script_vars (self : Experiment) (a : run_args)
    (restart_file : option path) : run_vars :=
  let mpirun_opts := if multi_node a
                     then " -bootstrap pbsdsh -f $PBS_NODEFILE"
                     else "" in
  mk_run_vars (month a) (outdir_of self (month a)) (rundir self)
    (execdir self) (srcdir self) (env_source self) mpirun_opts restart_file
    (num_cores a) (run_idb a) (experiment_restart a).

(** Lines 386-453: the run from the restart file it was resolved to: the
    script, the child process, the archive. *)
Definition finish (a : run_args) (restart_file : option path)
    : M (Experiment * World) bool :=
  let* self := gets fst in
  let month := month a in
  let outdir := outdir_of self month in
  let vars := script_vars self a restart_file in
  on_world (get_template self "runmonth.sh") >>
  on_world (on_fs (FS.write (P (rundir self) "runmonth.sh") (Script vars))) >>
  modify (fun s => (set_cur_month month s.1, s.2)) >>
  let* go_on := on_world (launch_and_wait self) in
  if go_on then
    on_world (mkdir [outdir]) >>
    on_world (archive_restart self month) >>
    on_world (store_output self a outdir) >>
    on_world (clear_rundir self) >>
    on_world (cd (rundir self)) >>
    ret true
  else
    ret false.

(** Lines 359-453: the run once the output directory is out of the way. *)
Definition run_body (a : run_args) : M (Experiment * World) bool :=
  let* self := gets fst in
  on_world (prepare self) >>
  let* restart_file := on_world (resolve_restart self a) in
  finish a restart_file.

(** [run(self, month, restart_file=None, use_restart=True, ...)] *)
Definition run (a : run_args) : M (Experiment * World) bool :=
  let* self := gets fst in
  let outdir := outdir_of self (month a) in
  let* present := gets (fun s => FS.isdir outdir (w_fs s.2)) in
  if present then
    if overwrite_data self || arg_overwrite_data a then
      on_world (on_fs (FS.rm_r outdir)) >>
      run_body a
    else
      ret false
  else
    run_body a.

(** *** Derived experiments and the parameter sweep *)

(** [derive(self, new_experiment_name)] *)
Definition derive (self : Experiment) (new_experiment_name : string)
    : M World Experiment :=
  let* new_exp := Experiment_init new_experiment_name false false in
  let new_exp := set_execdir (execdir self) new_exp in
  let* copied := on_heap (Namelist.copy (namelist self)) in
  let new_exp := set_namelist copied new_exp in
  let new_exp := use_diag_table (DiagTable.copy (diag_table self)) new_exp in
  ret new_exp.

(** As many runs as [months] has entries, one after the other. *)
Fixpoint run_months (exp : Experiment) (months : list Z)
    : M World Experiment :=
  match months with
  | [] => ret exp
  | m :: months' =>
      let* r := call_on exp (run (default_args m)) in
      run_months r.2 months'
  end.

(** The body of the loop over [parameter_space].  [combo] is one tuple of
    the product; each of its members is unpacked into [sec, name, val]. *)
Definition sweep_combo (self : Experiment) (combo : list axis)
    (runs num_cores : Z) : M World unit :=
  let* unpacked := unpack_all combo in
  let title := String.concat "_"
                 (map (fun snv => str_entry snv.1.1 +:+ "_" +:+
                                  str_entry snv.1.2 +:+ "_" +:+
                                  str_entry snv.2) unpacked) in
  let* exp := derive self (name self +:+ "_" +:+ title) in
  let* unpacked := unpack_all combo in
  (* [exp.namelist[sec]] with a tuple for [sec]: [Namelist.__getitem__]
     calls [key.lower()] *)
  for_each unpacked (fun _ => raise AttributeError) >>
  clear_rundir exp >>
  let* r := call_on exp (run (mk_run_args 1 None false false num_cores
                                          false false false None)) in
  let* _ := run_months r.2 (map (fun i => i + 2) (seqZ 0 (runs - 1))) in
  ret tt.

(** [run_parameter_sweep(self, parameter_values, runs=10, num_cores=16)] *)
Definition run_parameter_sweep (self : Experiment)
    (parameter_values : Dict.t (Dict.t (list value)))
    (runs num_cores : Z) : M World unit :=
  let params := sweep_params parameter_values in
  lookup_global "itertools" >>
  let parameter_space := product [params] in
  for_each parameter_space
           (fun combo => sweep_combo self combo runs num_cores).

End Driver.

(** ** What the merge of namelist sources comes to *)


(** ** The working directory and the methods around compilation *)

(** The attributes of an [Experiment] that only the methods around
    compilation use: [self.compile_flags] and [self.missing_file_tol]. *)
Record build_attrs : Type := mk_build_attrs {
  compile_flags : list string;
  missing_file_tol : Z
}.

(** Their values at the end of [__init__]. *)
Definition init_attrs : build_attrs := mk_build_attrs [] 3.

Definition set_path_names (l : list string) (e : Experiment) : Experiment :=
  mk_Experiment (name e) (workdir e) (execdir e) (restartdir e) (rundir e)
    (datadir e) (env_source e) (srcdir e) (template_dir e) (diag_table e)
    (field_table_file e) l (namelist_files e) (namelist e)
    (inputfiles e) (overwrite_data e) (cur_month e).

Definition add_flag (f : string) (b : build_attrs) : build_attrs :=
  mk_build_attrs (compile_flags b ++ [f]) (missing_file_tol b).

(** A computation on the world, run by an object with attributes [X]. *)
Definition in_world {X A} (m : M World A) : M (X * World) A :=
  fun s => let (r, w) := m s.2 in (r, (s.1, w)).

(** [rm_workdir(self)] *)
Definition rm_workdir (self : Experiment) : M World unit :=
  try_except (on_fs (FS.rm_r (workdir self)))
             (fun e => match e with
                       | ErrorReturnCode 1 => Some (ret tt)
                       | _ => None
                       end).

(** [clear_workdir(self)] *)
Definition clear_workdir (self : Experiment) : M World unit :=
  rm_workdir self >>
  mkdir [workdir self].

(** [disable_rrtm(self)] *)
Definition disable_rrtm : M ((Experiment * build_attrs) * World) unit :=
  modify (fun s =>
    ((set_path_names
        (List.filter (fun p => negb (has_sub "rrtm" p)) (path_names s.1.1))
        s.1.1, s.1.2), s.2)) >>
  modify (fun s => ((s.1.1, add_flag "-DRRTM_NO_COMPILE" s.1.2), s.2)) >>
  let* self := gets (fun s => s.1.1) in
  in_world (on_heap (Namelist.setitem2 (namelist self)
                       "idealized_moist_phys_nml" "two_stream_gray"
                       (VBool true))) >>
  in_world (on_heap (Namelist.setitem2 (namelist self)
                       "idealized_moist_phys_nml" "do_rrtm_radiation"
                       (VBool false))).

(** What [check_path_names] comes to: the experiment with the path names
    that were found, or [CompilationError] with the number of missing
    files and the tolerance of its message. *)
Inductive checked : Type :=
  | Checked (self : Experiment)
  | CompilationError (missing : nat) (tol : Z).

Section PathNames.

(** [os.path.join(d, f)] for a path name [f] of the [path_names] file,
    a string that may hold separators, as the file system resolves it. *)
Variable join : path -> string -> path.

(** The loop of [check_path_names]: [new_path_names] and [missing_files]
    as they grow. *)
Fixpoint check_loop (self : Experiment) (fs : gmap path node)
    (todo new_path_names missing_files : list string)
    : list string * list string :=
  match todo with
  | [] => (new_path_names, missing_files)
  | f :: todo' =>
      if FS.isfile (join (P (srcdir self) "src") f) fs
      then check_loop self fs todo' (new_path_names ++ [f]) missing_files
      else check_loop self fs todo' new_path_names (missing_files ++ [f])
  end.

(** [check_path_names(self)]; the chained comparison
    [len(missing_files) >= self.missing_file_tol >= 0] is the conjunction
    of its two halves. *)
Definition check_path_names (self : Experiment) (attrs : build_attrs)
    (fs : gmap path node) : checked :=
  let found := check_loop self fs (path_names self) [] [] in
  let tol := missing_file_tol attrs in
  if Z.geb (Z.of_nat (length found.2)) tol && Z.geb tol 0
  then CompilationError (length found.2) tol
  else Checked (set_path_names found.1 self).

End PathNames.

(** ** Words for the statements about a run *)

(** The run gets past its check of the output directory and goes on in
    the world [w0]: the directory is not there, or it is there, overwriting
    is allowed and [rm -r] has taken it away. *)
Definition entered (self : Experiment) (a : run_args) (w w0 : World) : Prop :=
  let outdir := outdir_of self (month a) in
  if FS.isdir outdir (w_fs w)
  then overwrite_data self || arg_overwrite_data a = true /\
       w0 = with_fs (FS.prune outdir (w_fs w)) w
  else w0 = w.

(** Nothing lies below the run directory. *)
Definition scratch_cleared (self : Experiment) (fs : gmap path node) : Prop :=
  forall p c rest, FS.strip (rundir self) p = Some (c :: rest) -> fs !! p = None.


(** The directories as the constructor lays them out, in an installation
    where the data directory and the run directory do not hold one another
    and the restart directory is not inside the data directory. *)
Definition layout (self : Experiment) : Prop :=
  rundir self = P (workdir self) "run" /\
  restartdir self = P (workdir self) "restarts" /\
  FS.strip (rundir self) (datadir self) = None /\
  FS.strip (datadir self) (rundir self) = None /\
  FS.strip (datadir self) (restartdir self) = None.

(** ** Words for the effects of an operation *)

(** [quiet m]: [m] launches and kills nothing and writes no object. *)
Definition quiet {A} (m : M World A) : Prop :=
  forall w r w', m w = (r, w') ->
    w_trace w' = w_trace w /\ w_heap w' = w_heap w.

(** Every file of [fs'] was a file of [fs] or lies in the region [R]. *)
Definition files_within (R : path -> Prop) (fs fs' : gmap path node) : Prop :=
  forall T, FS.isfile T fs' = true -> FS.isfile T fs = true \/ R T.

(** [confined R m]: whatever [m] does, the files it makes lie in [R]. *)
Definition confined (R : path -> Prop) {A} (m : M World A) : Prop :=
  forall w r w', m w = (r, w') -> files_within R (w_fs w) (w_fs w').

(** The region of a run of [month]: the run directory, the restart archive
    of the month, the output directory of the month. *)
Definition region (self : Experiment) (month : Z) (T : path) : Prop :=
  (exists rel, T = rundir self ++ rel) \/
  T = get_restart_file self month \/
  (exists rel, T = outdir_of self month ++ rel).

(** A run that returns [True]: the worlds it goes through, step by step. *)
Inductive success (E : Env) (self : Experiment) (a : run_args) (w : World)
    (s' : Experiment * World) : Prop :=
  | Success (w0 w1 w2 w3 w4 w5 w6 w7 w8 : World) (rfile : option path) :
      entered self a w w0 ->
      prepare self w0 = (Ret tt, w1) ->
      resolve_restart self a w1 = (Ret rfile, w1) ->
      on_fs (FS.write (P (rundir self) "runmonth.sh")
                      (Script (script_vars self a rfile))) w1 = (Ret tt, w2) ->
      launch_and_wait E self w2 = (Ret true, w3) ->
      mkdir [outdir_of self (month a)] w3 = (Ret tt, w4) ->
      archive_restart self (month a) w4 = (Ret tt, w5) ->
      store_output self a (outdir_of self (month a)) w5 = (Ret tt, w6) ->
      clear_rundir self w6 = (Ret tt, w7) ->
      cd (rundir self) w7 = (Ret tt, w8) ->
      s' = (set_cur_month (month a) self, w8) ->
      success E self a w s'.

(** [keeps_outside d m]: whatever [m] does, what is a file and is not at
    or below [d] stays one, and nothing else becomes one there. *)
Definition keeps_outside (d : path) {A} (m : M World A) : Prop :=
  forall w r w', m w = (r, w') ->
    forall T : path, FS.strip d T = None ->
      FS.isfile T (w_fs w') = FS.isfile T (w_fs w).

(** [heap_only m]: [m] reads the file system and may write objects; the
    file system, the current directory and the trace are as they were. *)
Definition heap_only {A} (m : M World A) : Prop :=
  forall w r w', m w = (r, w') ->
    w_fs w' = w_fs w /\ w_cwd w' = w_cwd w /\ w_trace w' = w_trace w.

(** [beside self T]: [T] is not in the run directory, and neither the run
    directory nor the restart directory is [T] or lies below it. *)
Definition beside (self : Experiment) (T : path) : Prop :=
  FS.strip (rundir self) T = None /\
  FS.strip T (rundir self) = None /\
  FS.strip T (restartdir self) = None.

(** [keeps_beside self m]: whatever [m] does, every path beside the run
    directory and the restart directory holds what it held. *)
Definition keeps_beside (self : Experiment) {A} (m : M World A) : Prop :=
  forall w r w', m w = (r, w') ->
    forall T : path, beside self T -> w_fs w' !! T = w_fs w !! T.

(** ** A small installation, for running the definitions *)

Module Fixture.

Definition tdir : path :=
  ["base"; "src"; "extra"; "python"; "gfdl"; "templates"].

(** A child that leaves one state file and one result file, and whose
    way of ending is given. *)
Definition child (how : ending) (script : data) (fs : gmap path node)
    : proc_run :=
  mk_proc_run [(["RESTART"; "atmosphere.res.nc"], File (Opaque "state"));
               (["atmos_daily.nc"], File (Opaque "output"))] how.

Definition env (how : ending) : Env :=
  mk_Env ["base"] ["work"] ["data"] "env"
         ["base"; "src"; "extra"; "python"; "gfdl"] (child how).

Definition main_nml : gmap string value :=
  {[ "calendar" := VStr "thirty_day" ]}.

Definition core_nml : gmap string (gmap string value) :=
  {[ "main_nml" := main_nml ]}.

Definition fs0 : gmap path node :=
  list_to_map
    [ (P tdir "field_table", File (Opaque "field_table"));
      (P tdir "path_names", File (Lines []));
      (P tdir "core.nml", File (NmlText core_nml));
      (P tdir "phys.nml", File (NmlText ∅));
      (P tdir "diag_table", File (Opaque "template"));
      (P tdir "runmonth.sh", File (Opaque "template")) ].

Definition w0 : World := mk_World fs0 ∅ [] [].

Definition diag : DiagTable.t :=
  DiagTable.add_file "daily" (VInt 1) "days" None DiagTable.init.

(** The experiment [Experiment('exp')] with [diag] in use, and the world
    after its construction. *)
Definition exp0 : Experiment :=
  mk_Experiment "exp" ["work"; "exp"] ["work"; "exp"; "exec"]
    ["work"; "exp"; "restarts"] ["work"; "exp"; "run"] ["data"; "exp"]
    ["base"; "src"; "extra"; "env"; "env"] ["base"] tdir diag
    (P tdir "field_table") []
    [P tdir "core.nml"; P tdir "phys.nml"] 2%positive [] false None.

Definition w1 : World :=
  (Experiment_init (env Exited) "exp" false false w0).2.


(** [run(month, light=True)], cold for the first month. *)
Definition light_args (month : Z) : run_args :=
  mk_run_args month None (negb (Z.eqb month 1)) false 8 false true false None.

(** The sweep input of the specification:
    [{'sec': {'p': [0, 1]}, 'sec2': {'q': [10, 20]}}]. *)
Definition two_axes : Dict.t (Dict.t (list value)) :=
  [("sec", [("p", [VInt 0; VInt 1])]); ("sec2", [("q", [VInt 10; VInt 20])])].

End Fixture.

(** * Properties *)

(** Closed equations between values of the definitions are decided by
    evaluation. *)
Ltac by_vm :=
  lazymatch goal with
  | |- ?x = ?y => exact (@eq_refl _ y <: x = y)
  end.

(** ** Formats *)

Example fmt_03d_examples :
  fmt_03d 1 = "001" /\ fmt_03d 12 = "012" /\ fmt_03d 123 = "123" /\
  fmt_03d 1234 = "1234" /\ fmt_03d (-1) = "-01" /\ fmt_d (-12) = "-12".
Proof. vm_compute. repeat split. Qed.

(** ** The monad *)

Lemma bind_Ret {S A B} (m : M S A) (k : A -> M S B) s b s' :
  bind m k s = (Ret b, s') ->
  exists a s1, m s = (Ret a, s1) /\ k a s1 = (Ret b, s').
Proof.
  unfold bind. destruct (m s) as [[a|e] s1]; [eauto | discriminate].
Qed.

Lemma bind_eq_Ret {S A B} (m : M S A) (k : A -> M S B) s a s1 :
  m s = (Ret a, s1) -> bind m k s = k a s1.
Proof. unfold bind. intros ->. reflexivity. Qed.

Lemma bind_eq_Raise {S A B} (m : M S A) (k : A -> M S B) s e s1 :
  m s = (Raise e, s1) -> bind m k s = (Raise e, s1).
Proof. unfold bind. intros ->. reflexivity. Qed.

(** A result is given by what it returns and the state it leaves. *)
Lemma result_eta {S A} (r : res A * S) (a : A) : r.1 = Ret a -> r = (Ret a, r.2).
Proof. destruct r as [x s]. simpl. by intros ->. Qed.

Lemma result_eta_Raise {S A} (r : res A * S) (e : exn) :
  r.1 = Raise e -> r = (Raise e, r.2).
Proof. destruct r as [x s]. simpl. by intros ->. Qed.

(** ** Dictionaries *)

Section DictFacts.
Context {V : Type}.
Implicit Types (d : Dict.t V) (k : string) (v : V).

Lemma Dict_get_set_eq k v d : Dict.get k (Dict.set k v d) = Some v.
Proof.
  induction d as [|[k' v'] d IH]; simpl.
  - by rewrite String.eqb_refl.
  - destruct (String.eqb k k') eqn:Hk; simpl; rewrite Hk; done.
Qed.

Lemma Dict_get_set_ne k k' v d :
  k' <> k -> Dict.get k' (Dict.set k v d) = Dict.get k' d.
Proof.
  intros Hne. induction d as [|[k0 v0] d IH]; simpl.
  - destruct (String.eqb k' k) eqn:Hk; [|done].
    apply String.eqb_eq in Hk. done.
  - destruct (String.eqb k k0) eqn:Hk; simpl.
    + apply String.eqb_eq in Hk. subst k0.
      destruct (String.eqb k' k) eqn:Hk'; [|done].
      apply String.eqb_eq in Hk'. done.
    + by rewrite IH.
Qed.

Lemma Dict_get_Some_keys k d :
  is_Some (Dict.get k d) <-> k ∈ Dict.keys d.
Proof.
  induction d as [|[k0 v0] d IH]; simpl.
  - split; [intros [? ?]; done | intros H; inversion H].
  - destruct (String.eqb k k0) eqn:Hk.
    + apply String.eqb_eq in Hk. subst. split; [intros _; left | eauto].
    + apply String.eqb_neq in Hk. rewrite IH. split.
      * intros H. by right.
      * intros H. inversion H; subst; done.
Qed.

Lemma Dict_keys_set_present k v d :
  k ∈ Dict.keys d -> Dict.keys (Dict.set k v d) = Dict.keys d.
Proof.
  induction d as [|[k0 v0] d IH]; simpl; intros H.
  - inversion H.
  - destruct (String.eqb k k0) eqn:Hk; simpl; [done|].
    apply String.eqb_neq in Hk. f_equal. apply IH.
    inversion H; subst; done.
Qed.

Lemma Dict_keys_set_absent k v d :
  k ∉ Dict.keys d -> Dict.keys (Dict.set k v d) = Dict.keys d ++ [k].
Proof.
  induction d as [|[k0 v0] d IH]; simpl; intros H; [done|].
  destruct (String.eqb k k0) eqn:Hk; simpl.
  - apply String.eqb_eq in Hk. subst. exfalso. apply H. left.
  - f_equal. apply IH. intros Hin. apply H. by right.
Qed.

End DictFacts.

(** ** DiagTable *)

Section DiagTableFacts.
Import DiagTable.

Lemma append_field_fields f r : of_fields (append_field f r) = of_fields r ++ [f].
Proof. reflexivity. Qed.

(** The loop of [add_field] over distinct names of the table: every
    named file gets the field at the end of its list, the others are
    left alone. *)
Lemma attach_each f ks : forall d,
  NoDup ks -> (forall k, k ∈ ks -> k ∈ Dict.keys d) ->
  exists d', for_each ks (attach f) (mk d) = (Ret tt, mk d') /\
    Dict.keys d' = Dict.keys d /\
    forall fname, Dict.get fname d' =
      if decide (fname ∈ ks) then append_field f <$> Dict.get fname d
      else Dict.get fname d.
Proof.
  induction ks as [|k ks IH]; intros d Hnd Hin.
  - exists d. split; [done|]. split; [done|]. intros fname.
    destruct (decide (fname ∈ [])) as [H|]; [inversion H | done].
  - inversion Hnd as [|? ? Hk Hnd']; subst.
    assert (Hkd : k ∈ Dict.keys d) by (apply Hin; left).
    destruct (proj2 (Dict_get_Some_keys k d) Hkd) as [r Hr].
    destruct (IH (Dict.set k (append_field f r) d) Hnd') as (d' & Hrun & Hkeys & Hget).
    { intros k' Hk'. rewrite Dict_keys_set_present by done.
      apply Hin. by right. }
    exists d'. split; [|split].
    + simpl. unfold bind at 1. unfold attach at 1. simpl. rewrite Hr. exact Hrun.
    + rewrite Hkeys. by apply Dict_keys_set_present.
    + intros fname. rewrite Hget. destruct (decide (fname = k)) as [->|Hne].
      * destruct (decide (k ∈ ks)); [done|].
        rewrite Dict_get_set_eq, Hr.
        destruct (decide (k ∈ k :: ks)) as [|Hn]; [done|].
        exfalso. apply Hn. left.
      * rewrite Dict_get_set_ne by done.
        destruct (decide (fname ∈ ks)) as [Hi|Hi];
          destruct (decide (fname ∈ k :: ks)) as [Hj|Hj]; try done.
        -- exfalso. apply Hj. by right.
        -- inversion Hj; subst; done.
Qed.

Lemma add_field_all_files self module name time_avg :
  NoDup (Dict.keys (files self)) ->
  exists self',
    add_field module name time_avg None self = (Ret tt, self') /\
    Dict.keys (files self') = Dict.keys (files self) /\
    forall fname, Dict.get fname (files self') =
      append_field (mk_field module name time_avg) <$> Dict.get fname (files self).
Proof.
  intros Hnd. destruct self as [d]. simpl in *.
  destruct (attach_each (mk_field module name time_avg) (Dict.keys d) d Hnd)
    as (d' & Hrun & Hkeys & Hget); [done|].
  exists (mk d'). split; [|split]; simpl.
  - unfold add_field, bind, gets. simpl. exact Hrun.
  - done.
  - intros fname. rewrite Hget.
    destruct (decide (fname ∈ Dict.keys d)) as [|Hn]; [done|].
    destruct (Dict.get fname d) eqn:Hg; [|done].
    exfalso. apply Hn. apply Dict_get_Some_keys. eauto.
Qed.

Lemma add_file_lookup name freq units time_units self :
  Dict.get name (files (add_file name freq units time_units self)) =
    Some (mk_outfile name freq units (default units time_units) []).
Proof. destruct time_units; apply Dict_get_set_eq. Qed.

Lemma add_file_lookup_ne name other freq units time_units self :
  other <> name ->
  Dict.get other (files (add_file name freq units time_units self)) =
    Dict.get other (files self).
Proof. intros H. by apply Dict_get_set_ne. Qed.

End DiagTableFacts.

(** C7.  [add_field] called without [files], on a table whose file names
    are distinct (as the keys of a Python dict are): the call returns; the
    table has the same files in the same order; every file that is in the
    table at the call has the new field appended after the fields it had,
    whether or not an equal field is among them, and no other file comes
    into being.  A second equal call appends the field once more.  A file
    added afterwards starts with no field and leaves the others as they
    are. *)
Theorem add_field_snapshot_of_files self module name time_avg :
  NoDup (Dict.keys (DiagTable.files self)) ->
  let f := mk_field module name time_avg in
  exists self' self'',
    DiagTable.add_field module name time_avg None self = (Ret tt, self') /\
    Dict.keys (DiagTable.files self') = Dict.keys (DiagTable.files self) /\
    (forall fname,
       Dict.get fname (DiagTable.files self') =
         append_field f <$> Dict.get fname (DiagTable.files self)) /\
    DiagTable.add_field module name time_avg None self' = (Ret tt, self'') /\
    (forall fname r,
       Dict.get fname (DiagTable.files self) = Some r ->
       of_fields <$> Dict.get fname (DiagTable.files self'') =
         Some (of_fields r ++ [f; f])) /\
    (forall f2 freq units time_units,
       let later := DiagTable.add_file f2 freq units time_units self' in
       of_fields <$> Dict.get f2 (DiagTable.files later) = Some [] /\
       forall f1, f1 <> f2 ->
         Dict.get f1 (DiagTable.files later) = Dict.get f1 (DiagTable.files self')).
Proof.
  intros Hnd f.
  destruct (add_field_all_files self module name time_avg Hnd)
    as (self' & Hrun & Hkeys & Hget).
  assert (Hnd' : NoDup (Dict.keys (DiagTable.files self'))) by (by rewrite Hkeys).
  destruct (add_field_all_files self' module name time_avg Hnd')
    as (self'' & Hrun2 & Hkeys2 & Hget2).
  exists self', self''. repeat split; try done.
  - intros fname r Hr. rewrite Hget2, Hget, Hr. simpl.
    by rewrite <- app_assoc.
  - by rewrite add_file_lookup.
  - intros f1 Hne. by apply add_file_lookup_ne.
Qed.

Lemma add_field_snapshot_of_files_witness :
  let self := DiagTable.add_file "f1" (VInt 6) "hours" None DiagTable.init in
  let f := mk_field "dynamics" "v" false in
  NoDup (Dict.keys (DiagTable.files self)) /\
  exists self' self'',
    DiagTable.add_field "dynamics" "v" false None self = (Ret tt, self') /\
    DiagTable.add_field "dynamics" "v" false None self' = (Ret tt, self'') /\
    of_fields <$> Dict.get "f1" (DiagTable.files self'') = Some [f; f].
Proof.
  assert (Hnd : NoDup (Dict.keys (DiagTable.files
            (DiagTable.add_file "f1" (VInt 6) "hours" None DiagTable.init))))
    by apply NoDup_singleton.
  split; [exact Hnd|].
  destruct (add_field_snapshot_of_files _ "dynamics" "v" false Hnd)
    as (self' & self'' & H1 & _ & _ & H2 & H3 & _).
  exists self', self''. split; [exact H1|]. split; [exact H2|].
  exact (H3 "f1" _ eq_refl).
Defined.

(** The scenario of the specification, evaluated: file [f1], then field
    [v], then file [f2]. *)
Example add_field_then_add_file :
  let t1 := DiagTable.add_file "f1" (VInt 6) "hours" None DiagTable.init in
  let t2 := (DiagTable.add_field "dynamics" "v" false None t1).2 in
  let t3 := DiagTable.add_file "f2" (VInt 1) "days" None t2 in
  of_fields <$> Dict.get "f1" (DiagTable.files t3) = Some [mk_field "dynamics" "v" false] /\
  of_fields <$> Dict.get "f2" (DiagTable.files t3) = Some [].
Proof. split; reflexivity. Qed.

(** C10.  [add_file] with a name that the table already has: the record
    under that name is the new one, with the new frequency and units, the
    time units defaulting to the units, and an empty field list, whatever
    the old record held; the name keeps its place and every other file its
    record. *)
Theorem add_file_again_resets_record name freq units time_units self old :
  Dict.get name (DiagTable.files self) = Some old ->
  let self' := DiagTable.add_file name freq units time_units self in
  Dict.get name (DiagTable.files self') =
    Some (mk_outfile name freq units (default units time_units) []) /\
  Dict.keys (DiagTable.files self') = Dict.keys (DiagTable.files self) /\
  forall other, other <> name ->
    Dict.get other (DiagTable.files self') = Dict.get other (DiagTable.files self).
Proof.
  intros Hold self'. split; [apply add_file_lookup|]. split.
  - apply Dict_keys_set_present. apply Dict_get_Some_keys. eauto.
  - intros other Hne. by apply add_file_lookup_ne.
Qed.

Lemma add_file_again_resets_record_witness :
  let t1 := DiagTable.add_file "daily" (VInt 1) "days" None DiagTable.init in
  let self := (DiagTable.add_field "dynamics" "ps" false None t1).2 in
  let self' := DiagTable.add_file "daily" (VInt 6) "hours" (Some "days") self in
  Dict.get "daily" (DiagTable.files self) =
    Some (mk_outfile "daily" (VInt 1) "days" "days" [mk_field "dynamics" "ps" false]) /\
  Dict.get "daily" (DiagTable.files self') =
    Some (mk_outfile "daily" (VInt 6) "hours" "days" []).
Proof.
  split; [reflexivity|].
  exact (proj1 (add_file_again_resets_record "daily" (VInt 6) "hours" (Some "days")
           (DiagTable.add_field "dynamics" "ps" false None
              (DiagTable.add_file "daily" (VInt 1) "days" None DiagTable.init)).2
           (mk_outfile "daily" (VInt 1) "days" "days" [mk_field "dynamics" "ps" false])
           eq_refl)).
Defined.

(** ** The parameter sweep *)

(** No import binds [itertools]: the method stops at its third statement,
    whatever it is given, and nothing has changed by then. *)
Lemma run_parameter_sweep_NameError E self parameter_values runs num_cores w :
  run_parameter_sweep E self parameter_values runs num_cores w =
    (Raise (NameError "itertools"), w).
Proof. reflexivity. Qed.

(** C4.  On the input of the specification the sweep raises [NameError]
    before any experiment is derived: the world is as it was, no process
    has been launched.  Were [itertools] bound, [product] is given the list
    of axes as its single iterable: it yields one 1-tuple for each axis, two
    here and not the four combinations, and unpacking the two entries of an
    axis into [sec, name, val] raises [ValueError] before [derive] is
    called. *)
Theorem sweep_of_two_axes_derives_nothing E self runs num_cores w :
  run_parameter_sweep E self Fixture.two_axes runs num_cores w =
    (Raise (NameError "itertools"), w) /\
  length (product [sweep_params Fixture.two_axes]) = 2%nat /\
  length (product (sweep_params Fixture.two_axes)) = 4%nat /\
  Forall (fun combo => sweep_combo E self combo runs num_cores w =
                         (Raise ValueError, w))
         (product [sweep_params Fixture.two_axes]).
Proof.
  split; [reflexivity|]. split; [reflexivity|]. split; [reflexivity|].
  repeat constructor.
Qed.

(** ** The object store *)

Section HeapFacts.
Import Heap.
Implicit Types (h : heap) (l g : loc) (groups : gmap string loc).

Lemma alloc_spec o h :
  exists l, alloc o h = (Ret l, <[l := o]> h) /\ l ∉ dom h.
Proof. exists (fresh (dom h)). split; [done | apply is_fresh]. Qed.

Lemma alloc_inv o h l h' :
  alloc o h = (Ret l, h') -> h' = <[l := o]> h /\ (l ∉ dom h) /\ h ⊆ h'.
Proof.
  unfold alloc. intros [= <- <-].
  assert (Hf : fresh (dom h) ∉ dom h) by apply is_fresh.
  split; [done|]. split; [done|].
  apply insert_subseteq. by apply not_elem_of_dom.
Qed.

Lemma group_Some g h v : group g h = Some v <-> h !! g = Some (Group v).
Proof.
  unfold group. destruct (h !! g) as [[?|?]|]; split; intros; by simplify_eq.
Qed.

Lemma group_mono g h h' v : h ⊆ h' -> group g h = Some v -> group g h' = Some v.
Proof.
  rewrite !group_Some. intros Hsub Hg. by eapply lookup_weaken.
Qed.

Lemma top_mono l h h' groups :
  h ⊆ h' -> h !! l = Some (Nml groups) -> top l h' = top l h.
Proof.
  intros Hsub Hl. unfold top.
  pose proof (lookup_weaken _ _ _ _ Hl Hsub) as Hl'.
  by rewrite Hl, Hl'.
Qed.

Lemma grouped_mono groups h h' : h ⊆ h' -> grouped groups h -> grouped groups h'.
Proof.
  intros Hsub Hg sec g Hs. destruct (Hg sec g Hs) as [v Hv].
  exists v. by eapply group_mono.
Qed.

Lemma grouped_dom groups h sec g :
  grouped groups h -> groups !! sec = Some g -> g ∈ dom h.
Proof.
  intros Hg Hs. destruct (Hg sec g Hs) as [v Hv].
  apply group_Some in Hv. apply elem_of_dom. eauto.
Qed.

Lemma gview_lookup groups h sec :
  gview groups h !! sec = (groups !! sec) ≫= (fun g => group g h).
Proof. unfold gview. apply lookup_omap. Qed.

Lemma gview_mono groups h h' :
  h ⊆ h' -> grouped groups h -> gview groups h' = gview groups h.
Proof.
  intros Hsub Hg. apply map_eq. intros sec. rewrite !gview_lookup.
  destruct (groups !! sec) as [g|] eqn:Hs; [|done]. simpl.
  destruct (Hg sec g Hs) as [v Hv]. rewrite Hv. by eapply group_mono.
Qed.

(** Writing an object that [groups] does not refer to. *)
Lemma gview_insert_other groups h g0 o :
  (forall sec, groups !! sec <> Some g0) ->
  gview groups (<[g0 := o]> h) = gview groups h.
Proof.
  intros Hno. apply map_eq. intros sec. rewrite !gview_lookup.
  destruct (groups !! sec) as [g|] eqn:Hs; [|done]. simpl.
  unfold group. rewrite lookup_insert_ne; [done|].
  intros ->. by apply (Hno sec).
Qed.


Lemma gview_insert groups h sec g v :
  group g h = Some v ->
  gview (<[sec := g]> groups) h = <[sec := v]> (gview groups h).
Proof.
  intros Hg. apply map_eq. intros s. rewrite gview_lookup.
  destruct (decide (s = sec)) as [->|Hne].
  - by rewrite !lookup_insert_eq.
  - rewrite !lookup_insert_ne by done. by rewrite gview_lookup.
Qed.


Lemma view_mono l h h' : h ⊆ h' -> closed l h -> view l h' = view l h.
Proof.
  intros Hsub [[groups Hl] Hg]. unfold view.
  rewrite (top_mono l h h' groups) by done. by apply gview_mono.
Qed.

Lemma closed_mono l h h' : h ⊆ h' -> closed l h -> closed l h'.
Proof.
  intros Hsub [[groups Hl] Hg]. split.
  - exists groups. by eapply lookup_weaken.
  - rewrite (top_mono l h h' groups) by done. by eapply grouped_mono.
Qed.

Lemma closed_dom l h : closed l h -> l ∈ dom h.
Proof. intros [[groups Hl] _]. apply elem_of_dom. eauto. Qed.

End HeapFacts.

(** ** The namelist *)

Section NamelistFacts.
Import Heap Namelist.
Implicit Types (h : heap) (l g : loc) (groups acc : gmap string loc).

Lemma union_insert_absent {V} (m1 m2 : gmap string V) s v :
  m1 !! s = None -> m1 ∪ <[s := v]> m2 = <[s := v]> m1 ∪ m2.
Proof.
  intros Hs. rewrite <- insert_union_r by done. by rewrite insert_union_l.
Qed.

(** The groups that [f90nml.read] builds are new objects holding the
    parsed variables. *)
Lemma alloc_groups_spec (l : list (string * gmap string value)) :
  forall acc h, NoDup l.*1 -> grouped acc h ->
  exists acc' h', alloc_groups l acc h = (Ret acc', h') /\ h ⊆ h' /\
    grouped acc' h' /\
    (forall sec g, acc' !! sec = Some g -> acc !! sec = Some g \/ g ∉ dom h) /\
    gview acc' h' = list_to_map l ∪ gview acc h.
Proof.
  induction l as [|[s v] l IH]; intros acc h Hnd Hacc.
  - exists acc, h. split; [done|]. split; [done|]. split; [done|].
    split; [by left|]. simpl. by rewrite (left_id_L ∅ _).
  - apply NoDup_cons in Hnd as [Hs Hnd].
    set (g := fresh (dom h)).
    assert (Hg : g ∉ dom h) by apply is_fresh.
    set (h1 := <[g := Group v]> h).
    assert (Hsub1 : h ⊆ h1).
    { apply insert_subseteq. by apply not_elem_of_dom. }
    assert (Hgv : group g h1 = Some v).
    { apply group_Some. apply lookup_insert_eq. }
    assert (Hacc1 : grouped (<[s := g]> acc) h1).
    { intros sec g' Hl. destruct (decide (sec = s)) as [->|Hne].
      - rewrite lookup_insert_eq in Hl. simplify_eq. eauto.
      - rewrite lookup_insert_ne in Hl by done.
        eapply grouped_mono; eauto. }
    destruct (IH (<[s := g]> acc) h1 Hnd Hacc1)
      as (acc' & h' & Hrun & Hsub & Hgr & Hfresh & Hview).
    exists acc', h'. split; [exact Hrun|]. split; [by etrans|].
    split; [done|]. split.
    + intros sec g' Hl. destruct (Hfresh sec g' Hl) as [Ho|Hn].
      * destruct (decide (sec = s)) as [->|Hne].
        -- rewrite lookup_insert_eq in Ho. simplify_eq. by right.
        -- rewrite lookup_insert_ne in Ho by done. by left.
      * right. intros Hin. apply Hn. unfold h1. rewrite dom_insert_L.
        set_solver.
    + rewrite Hview. rewrite (gview_insert _ _ _ _ v) by done.
      rewrite (gview_mono acc h h1) by done. simpl.
      apply union_insert_absent. by apply not_elem_of_list_to_map_1.
Qed.

(** [f90nml.read]: a new, closed namelist that denotes the parsed text
    and shares nothing with the objects that were there. *)
Lemma of_data_spec n h :
  exists l h', of_data n h = (Ret l, h') /\ h ⊆ h' /\ (l ∉ dom h) /\
    closed l h' /\ view l h' = n /\
    (forall sec g, top l h' !! sec = Some g -> g ∉ dom h).
Proof.
  destruct (alloc_groups_spec (map_to_list n) ∅ h)
    as (acc & h1 & Hrun & Hsub & Hgr & Hfresh & Hview).
  { apply NoDup_fst_map_to_list. }
  { intros sec g Hl. by rewrite lookup_empty in Hl. }
  set (l := fresh (dom h1)).
  assert (Hl : l ∉ dom h1) by apply is_fresh.
  assert (Hsub2 : h1 ⊆ <[l := Nml acc]> h1).
  { apply insert_subseteq. by apply not_elem_of_dom. }
  assert (Htop : top l (<[l := Nml acc]> h1) = acc).
  { unfold top. by rewrite lookup_insert_eq. }
  exists l, (<[l := Nml acc]> h1). split; [|split; [|split; [|split; [|split]]]].
  - unfold of_data, bind. rewrite Hrun. reflexivity.
  - by etrans.
  - intros Hin. apply Hl. eapply subseteq_dom in Hsub. set_solver.
  - split; [exists acc; apply lookup_insert_eq|].
    rewrite Htop. by eapply grouped_mono.
  - unfold view. rewrite Htop. rewrite (gview_mono acc h1) by done.
    rewrite Hview. unfold gview at 1. rewrite omap_empty.
    rewrite (right_id_L ∅ _). apply list_to_map_to_list.
  - rewrite Htop. intros sec g Hs.
    destruct (Hfresh sec g Hs) as [He|]; [|done].
    by rewrite lookup_empty in He.
Qed.

(** The loop of [copy]: one [od_copy[key] = value] for each item. *)
Lemma setitem_each (l : list (string * loc)) : forall new acc h,
  NoDup l.*1 -> h !! new = Some (Nml acc) ->
  for_each l (fun kv => setitem new kv.1 kv.2) h
  = (Ret tt, <[new := Nml (list_to_map l ∪ acc)]> h).
Proof.
  induction l as [|[s g] l IH]; intros new acc h Hnd Hnew.
  - simpl. unfold ret. rewrite (left_id_L ∅ _). by rewrite insert_id.
  - apply NoDup_cons in Hnd as [Hs Hnd]. simpl. unfold bind at 1.
    unfold setitem at 1, bind, gets, store. unfold top at 1. rewrite Hnew.
    rewrite (IH new (<[s := g]> acc)); [|done|apply lookup_insert_eq].
    rewrite insert_insert_eq. do 3 f_equal.
    apply union_insert_absent. by apply not_elem_of_list_to_map_1.
Qed.

(** [copy] allocates one object, the new namelist, which holds the group
    references of [self]. *)
Lemma copy_run self h :
  copy self h
  = (Ret (fresh (dom h)), <[fresh (dom h) := Nml (top self h)]> h).
Proof.
  unfold copy, bind, gets, alloc.
  rewrite (setitem_each _ (fresh (dom h)) ∅);
    [|apply NoDup_fst_map_to_list|apply lookup_insert_eq].
  unfold ret. rewrite insert_insert_eq, (right_id_L ∅ _).
  by rewrite list_to_map_to_list.
Qed.

(** [copy]: a new closed namelist that denotes what the old one does, and
    whose groups are the group objects of the old one. *)
Lemma copy_spec self h :
  closed self h ->
  exists l h', copy self h = (Ret l, h') /\ h ⊆ h' /\ (l ∉ dom h) /\
    closed l h' /\ view l h' = view self h /\
    top l h' = top self h.
Proof.
  intros [[groups Hself] Hgr].
  set (l := fresh (dom h)).
  assert (Hl : l ∉ dom h) by apply is_fresh.
  assert (Hsub : h ⊆ <[l := Nml (top self h)]> h).
  { apply insert_subseteq. by apply not_elem_of_dom. }
  assert (Htop : top l (<[l := Nml (top self h)]> h) = top self h).
  { unfold top at 1. by rewrite lookup_insert_eq. }
  exists l, (<[l := Nml (top self h)]> h).
  split; [apply copy_run|]. split; [done|]. split; [done|].
  split; [|split; [|done]].
  - split; [eexists; apply lookup_insert_eq|].
    rewrite Htop. by eapply grouped_mono.
  - unfold view at 1. rewrite Htop. by apply gview_mono.
Qed.

Lemma of_data_inv n h l h' :
  of_data n h = (Ret l, h') ->
  h ⊆ h' /\ (l ∉ dom h) /\ closed l h' /\ view l h' = n /\
  (forall sec g, top l h' !! sec = Some g -> g ∉ dom h).
Proof.
  destruct (of_data_spec n h) as (l0 & h0 & Hrun & Hspec).
  rewrite Hrun. intros [= <- <-]. exact Hspec.
Qed.

Lemma copy_inv self h l h' :
  closed self h -> copy self h = (Ret l, h') ->
  h ⊆ h' /\ (l ∉ dom h) /\ closed l h' /\ view l h' = view self h /\
  top l h' = top self h.
Proof.
  intros Hc. destruct (copy_spec self h Hc) as (l0 & h0 & Hrun & Hspec).
  rewrite Hrun. intros [= <- <-]. exact Hspec.
Qed.


(** [nml[sec][name] = val]: either nothing is written, or one group
    object of [self] is, the one under [sec]. *)
Lemma setitem2_inv self sec name val h r h' :
  setitem2 self sec name val h = (r, h') ->
  (h' = h /\ exists e, r = Raise e) \/
  exists g v, top self h !! sec = Some g /\ h !! g = Some (Group v) /\
    r = Ret tt /\ h' = <[g := Group (<[name := val]> v)]> h.
Proof.
  unfold setitem2, getitem, group_setitem, bind, gets, raise, store. simpl.
  destruct (top self h !! sec) as [g|] eqn:Hsec; simpl.
  - destruct (group g h) as [v|] eqn:Hg; simpl; intros [= <- <-].
    + right. exists g, v. by rewrite <- group_Some.
    + left. eauto.
  - intros [= <- <-]. left. eauto.
Qed.

(** Writing a group object that [n] does not refer to leaves what [n]
    denotes. *)
Lemma view_insert_other n h g0 v0 v :
  h !! g0 = Some (Group v0) ->
  (forall sec, top n h !! sec <> Some g0) ->
  view n (<[g0 := Group v]> h) = view n h.
Proof.
  intros Hg0 Hno. unfold view.
  assert (Htop : top n (<[g0 := Group v]> h) = top n h).
  { unfold top. destruct (decide (n = g0)) as [->|Hne].
    - by rewrite lookup_insert_eq, Hg0.
    - by rewrite lookup_insert_ne. }
  rewrite Htop. by apply gview_insert_other.
Qed.

Lemma view_lookup n h sec :
  view n h !! sec = (top n h !! sec) ≫= (fun g => group g h).
Proof. apply gview_lookup. Qed.



End NamelistFacts.

(** ** The world: which part of it an operation touches *)

Lemma on_heap_inv {A} (m : M heap A) w r w' :
  on_heap m w = (r, w') ->
  exists h', m (w_heap w) = (r, h') /\ w' = with_heap h' w.
Proof.
  unfold on_heap. destruct (m (w_heap w)) as [r0 h']. intros [= <- <-]. eauto.
Qed.

Lemma on_fs_inv {A} (m : M (gmap path node) A) w r w' :
  on_fs m w = (r, w') ->
  exists f', m (w_fs w) = (r, f') /\ w' = with_fs f' w.
Proof.
  unfold on_fs. destruct (m (w_fs w)) as [r0 f']. intros [= <- <-]. eauto.
Qed.


Lemma on_fs_eq {A} (m : M (gmap path node) A) w r f' :
  m (w_fs w) = (r, f') -> on_fs m w = (r, with_fs f' w).
Proof. unfold on_fs. by intros ->. Qed.


Lemma with_fs_id w : with_fs (w_fs w) w = w.
Proof. by destruct w. Qed.


Lemma mkdir_heap ps w r w' : mkdir ps w = (r, w') -> w_heap w' = w_heap w.
Proof. intros H. apply on_fs_inv in H as (f' & _ & ->). done. Qed.

Lemma f90nml_read_heap p w l w' :
  f90nml_read p w = (Ret l, w') ->
  exists n h', w_fs w !! p = Some (File (NmlText n)) /\
    Namelist.of_data n (w_heap w) = (Ret l, h') /\
    w' = with_heap h' w.
Proof.
  unfold f90nml_read. intros H. apply bind_Ret in H as (d & w1 & Hread & H).
  apply on_fs_inv in Hread as (f' & Hread & ->).
  unfold FS.read in Hread.
  destruct (w_fs w !! p) as [[|d0]|] eqn:Hp; try discriminate.
  injection Hread as <- <-. rewrite with_fs_id in H.
  destruct d0; try discriminate.
  apply on_heap_inv in H as (h' & Hdata & ->).
  by exists n, h'.
Qed.

(** The loop of [rebuild_namelist] leaves every object that was there when
    the method was entered. *)
Lemma rebuild_loop_heap namelist (h0 : heap) rest : forall w w',
  namelist ∉ dom h0 -> h0 ⊆ w_heap w ->
  for_each rest (fun nl =>
    let* other := f90nml_read nl in
    on_heap (Namelist.update namelist other)) w = (Ret tt, w') ->
  h0 ⊆ w_heap w'.
Proof.
  induction rest as [|nl rest IH]; intros w w' Hfresh Hsub H.
  - by injection H as <-.
  - simpl in H. apply bind_Ret in H as ([] & w1 & Hstep & H).
    apply bind_Ret in Hstep as (other & w2 & Hread & Hupd).
    apply f90nml_read_heap in Hread as (n & h2 & _ & Hdata & ->).
    apply of_data_inv in Hdata as (Hsub2 & _).
    apply on_heap_inv in Hupd as (h3 & Hupd & ->).
    unfold Namelist.update, bind, gets, Heap.store in Hupd. simpl in Hupd.
    injection Hupd as <-.
    apply (IH _ _ Hfresh) in H; [done|]. simpl.
    apply insert_subseteq_r; [by apply not_elem_of_dom|]. by etrans.
Qed.

Lemma rebuild_namelist_heap files w l w' :
  rebuild_namelist files w = (Ret l, w') -> w_heap w ⊆ w_heap w'.
Proof.
  destruct files as [|f0 rest]; [discriminate|]. simpl. intros H.
  apply bind_Ret in H as (nl & w1 & Hread & H).
  apply bind_Ret in H as ([] & w2 & Hloop & H).
  injection H as <- <-.
  apply f90nml_read_heap in Hread as (n & h1 & _ & Hdata & ->).
  apply of_data_inv in Hdata as (Hsub & Hfresh & _).
  apply (rebuild_loop_heap nl (w_heap w)) in Hloop; done.
Qed.

Lemma read_pathnames_heap p w l w' :
  read_pathnames p w = (Ret l, w') -> w_heap w' = w_heap w.
Proof.
  unfold read_pathnames. intros H.
  apply bind_Ret in H as (d & w1 & Hread & H).
  apply on_fs_inv in Hread as (f' & _ & ->).
  destruct d; injection H as <- <-; done.
Qed.

Lemma Experiment_init_heap E n o r w e w' :
  Experiment_init E n o r w = (Ret e, w') -> w_heap w ⊆ w_heap w'.
Proof.
  unfold Experiment_init. intros H.
  apply bind_Ret in H as (present & w1 & Hget & H).
  injection Hget as <- <-.
  apply bind_Ret in H as ([] & w2 & Hmk & H).
  assert (Hw2 : w_heap w2 = w_heap w).
  { destruct (FS.isdir _ _).
    - by injection Hmk as <-.
    - by eapply mkdir_heap. }
  apply bind_Ret in H as (pn & w3 & Hpn & H).
  apply read_pathnames_heap in Hpn.
  apply bind_Ret in H as (nl & w4 & Hnl & H).
  apply rebuild_namelist_heap in Hnl.
  injection H as <- <-. by rewrite <- Hw2, <- Hpn.
Qed.

(** [derive]: the namelist of the new experiment is a new closed object
    that denotes what the namelist of [self] denotes; its groups are the
    group objects of the namelist of [self]. *)
Lemma derive_inv E self n w e w' :
  Heap.closed (namelist self) (w_heap w) ->
  derive E self n w = (Ret e, w') ->
  w_heap w ⊆ w_heap w' /\
  (namelist e ∉ dom (w_heap w)) /\
  Heap.closed (namelist e) (w_heap w') /\
  Heap.view (namelist e) (w_heap w') = Heap.view (namelist self) (w_heap w) /\
  Heap.top (namelist e) (w_heap w')
    = Heap.top (namelist self) (w_heap w) /\
  diag_table e = diag_table self /\ execdir e = execdir self.
Proof.
  intros Hc. unfold derive. intros H.
  apply bind_Ret in H as (e0 & w1 & Hinit & H).
  apply Experiment_init_heap in Hinit.
  apply bind_Ret in H as (copied & w2 & Hcopy & H).
  injection H as <- <-.
  apply on_heap_inv in Hcopy as (h2 & Hcopy & ->).
  pose proof (closed_mono _ _ _ Hinit Hc) as Hc1.
  apply (copy_inv _ _ _ _ Hc1) in Hcopy as (Hsub & Hfresh & Hcl & Hview & Hgr).
  simpl. split; [by etrans|]. split.
  { intros Hin. apply Hfresh. eapply subseteq_dom in Hinit. set_solver. }
  split; [done|]. split.
  { rewrite Hview. by apply view_mono. }
  split; [|by destruct self as [? ? ? ? ? ? ? ? ? []]].
  rewrite Hgr. destruct Hc as [[gs Hn] _]. by eapply top_mono.
Qed.

(** The overwrites of one combination, [exp.namelist[sec][name] = val] for
    each of its entries, write group objects of the namelist of [exp] and
    nothing else. *)
Lemma overwrites_frame nml (combo : list entry) : forall h r h',
  Heap.closed nml h ->
  for_each combo (fun snv => Namelist.setitem2 nml snv.1.1 snv.1.2 snv.2) h
    = (r, h') ->
  Heap.closed nml h' /\ Heap.top nml h' = Heap.top nml h /\
  dom h' = dom h /\
  forall l, (forall sec, Heap.top nml h !! sec <> Some l) -> h' !! l = h !! l.
Proof.
  induction combo as [|[[sec name] val] combo IH]; intros h r h' Hc H.
  - injection H as <- <-. done.
  - simpl in H. unfold bind in H.
    destruct (Namelist.setitem2 nml sec name val h) as [r1 h1] eqn:Hstep.
    apply setitem2_inv in Hstep as [[-> [e ->]]|(g & v & Hsec & Hg & -> & ->)].
    + by injection H as <- <-.
    + pose proof Hc as [[gs Hn] Hgr].
      assert (Hne : g <> nml) by (intros ->; by simplify_eq).
      assert (Htop : Heap.top nml (<[g := Group (<[name := val]> v)]> h)
                     = Heap.top nml h).
      { unfold Heap.top. by rewrite lookup_insert_ne. }
      assert (Hc1 : Heap.closed nml (<[g := Group (<[name := val]> v)]> h)).
      { split; [exists gs; by rewrite lookup_insert_ne|].
        rewrite Htop. intros s g' Hs. unfold Heap.group.
        destruct (decide (g' = g)) as [->|Hn'].
        - rewrite lookup_insert_eq. eauto.
        - rewrite lookup_insert_ne by done. apply (Hgr s g' Hs). }
      destruct (IH _ _ _ Hc1 H) as (Hc' & Htop' & Hdom & Hfr).
      split; [done|]. split; [by rewrite Htop'|]. split.
      { rewrite Hdom, dom_insert_L. apply elem_of_dom_2 in Hg. set_solver. }
      intros l Hl. rewrite Hfr by (by rewrite Htop).
      apply lookup_insert_ne. intros <-. by apply (Hl sec).
Qed.

(** What a namelist denotes depends on its own objects only. *)
Lemma view_agree n (h h' : heap) :
  Heap.closed n h ->
  h' !! n = h !! n ->
  (forall sec g, Heap.top n h !! sec = Some g -> h' !! g = h !! g) ->
  Heap.view n h' = Heap.view n h.
Proof.
  intros Hc Hn Hg. unfold Heap.view.
  assert (Htop : Heap.top n h' = Heap.top n h) by (unfold Heap.top; by rewrite Hn).
  rewrite Htop. apply map_eq. intros sec. rewrite !gview_lookup.
  destruct (Heap.top n h !! sec) as [g|] eqn:Hs; [|done]. simpl.
  unfold Heap.group. by rewrite (Hg sec g Hs).
Qed.

(** The last entry of a combination that went through is read back. *)
Lemma overwrites_last nml (combo : list entry) sec name val : forall h h',
  for_each (combo ++ [(sec, name, val)])
           (fun snv => Namelist.setitem2 nml snv.1.1 snv.1.2 snv.2) h
    = (Ret tt, h') ->
  (Heap.view nml h' !! sec) ≫= (fun vars => vars !! name) = Some val.
Proof.
  induction combo as [|[[s0 n0] v0] combo IH]; intros h h' H.
  - simpl in H. apply bind_Ret in H as ([] & h1 & Hstep & H).
    injection H as <-.
    apply setitem2_inv in Hstep as [[_ [e [=]]]|(g & v & Hsec & Hg & _ & ->)].
    rewrite view_lookup.
    assert (Hne : g <> nml).
    { intros ->. unfold Heap.top in Hsec. rewrite Hg in Hsec.
      by rewrite lookup_empty in Hsec. }
    assert (Htop : Heap.top nml (<[g := Group (<[name := val]> v)]> h)
                   = Heap.top nml h).
    { unfold Heap.top. by rewrite lookup_insert_ne. }
    rewrite Htop, Hsec. simpl. unfold Heap.group.
    rewrite lookup_insert_eq. simpl. apply lookup_insert_eq.
  - simpl in H. apply bind_Ret in H as ([] & h1 & _ & H). by eapply IH.
Qed.

(** C5.  The namelist that [derive] gives the new experiment is a new
    object, but its groups are the group objects of the base: the copy made
    by [self.namelist.copy()] is shallow.  So two experiments derived from
    one base and the base itself hold three different namelist objects that
    read the same, and the overwrites of a combination,
    [exp.namelist[sec][name] = val] for each entry, applied to one derived
    experiment, whether they all go through or one of them raises, are
    written into the groups all three share: afterwards the base and the
    other derived experiment read as the experiment that was written to.
    An overwrite that went through is read back from the base and from the
    other derived experiment, and where it differs from what the base had,
    both have changed. *)
Theorem derived_namelists_share_their_groups
    (E : Env) (base : Experiment) (n1 n2 : string) (w : World)
    (d1 : Experiment) (w1 : World) (d2 : Experiment) (w2 : World)
    (combo : list entry) (r : res unit) (w3 : World) :
  Heap.closed (namelist base) (w_heap w) ->
  derive E base n1 w = (Ret d1, w1) ->
  derive E base n2 w1 = (Ret d2, w2) ->
  on_heap (for_each combo (fun snv =>
             Namelist.setitem2 (namelist d1) snv.1.1 snv.1.2 snv.2)) w2
    = (r, w3) ->
  let denotes e w := Heap.view (namelist e) (w_heap w) in
  (namelist d1 <> namelist base /\ namelist d2 <> namelist base /\
   namelist d2 <> namelist d1) /\
  (Heap.top (namelist d1) (w_heap w2) = Heap.top (namelist base) (w_heap w) /\
   Heap.top (namelist d2) (w_heap w2) = Heap.top (namelist base) (w_heap w)) /\
  (denotes d1 w2 = denotes base w /\ denotes d2 w2 = denotes base w) /\
  (denotes base w3 = denotes d1 w3 /\ denotes d2 w3 = denotes d1 w3) /\
  (forall pre sec name val,
     combo = pre ++ [(sec, name, val)] -> r = Ret tt ->
     (denotes base w3 !! sec) ≫= (fun vars => vars !! name) = Some val /\
     (denotes d2 w3 !! sec) ≫= (fun vars => vars !! name) = Some val /\
     ((denotes base w !! sec) ≫= (fun vars => vars !! name) <> Some val ->
      denotes base w3 <> denotes base w /\ denotes d2 w3 <> denotes d2 w2)).
Proof.
  intros Hc H1 H2 Hw denotes. unfold denotes.
  apply (derive_inv _ _ _ _ _ _ Hc) in H1
    as (Hsub1 & Hn1 & Hc1 & Hv1 & Hg1 & _).
  pose proof (closed_mono _ _ _ Hsub1 Hc) as Hcb1.
  apply (derive_inv _ _ _ _ _ _ Hcb1) in H2
    as (Hsub2 & Hn2 & Hc2 & Hv2 & Hg2 & _).
  apply on_heap_inv in Hw as (h3 & Hw & ->). simpl.
  pose proof (closed_mono _ _ _ Hsub2 Hc1) as Hc12.
  pose proof (closed_mono _ _ _ Hsub2 Hcb1) as Hcb2.
  set (T := Heap.top (namelist base) (w_heap w)) in *.
  assert (Hgr : Heap.grouped T (w_heap w)) by apply Hc.
  assert (Hb1 : Heap.top (namelist base) (w_heap w1) = T).
  { destruct Hc as [[gs Hn] _]. by eapply top_mono. }
  assert (Hb2 : Heap.top (namelist base) (w_heap w2) = T).
  { rewrite <- Hb1. destruct Hcb1 as [[gs Hn] _]. by eapply top_mono. }
  assert (Ht1 : Heap.top (namelist d1) (w_heap w2) = T).
  { rewrite <- Hg1. destruct Hc1 as [[gs Hn] _]. by eapply top_mono. }
  assert (Ht2 : Heap.top (namelist d2) (w_heap w2) = T) by (by rewrite Hg2).
  assert (Hdb : namelist d1 <> namelist base).
  { intros Heq. apply Hn1. rewrite Heq. by apply closed_dom. }
  assert (Hdb2 : namelist d2 <> namelist base).
  { intros Heq. apply Hn2. rewrite Heq. by apply closed_dom. }
  assert (Hd21 : namelist d2 <> namelist d1).
  { intros Heq. apply Hn2. rewrite Heq. by apply closed_dom. }
  destruct (overwrites_frame _ _ _ _ _ Hc12 Hw) as (_ & Htop3 & _ & Hfr).
  assert (Hnb : forall sec, T !! sec <> Some (namelist base)).
  { intros sec Hs. destruct (Hgr sec _ Hs) as [v Hv].
    apply group_Some in Hv. destruct Hc as [[gs Hn] _]. congruence. }
  assert (Hnd2 : forall sec, T !! sec <> Some (namelist d2)).
  { intros sec Hs. apply Hn2. eapply subseteq_dom; [exact Hsub1|].
    by eapply grouped_dom. }
  assert (Hb3 : Heap.top (namelist base) h3 = T).
  { rewrite <- Hb2. unfold Heap.top. rewrite Hfr; [done|]. by rewrite Ht1. }
  assert (Ht23 : Heap.top (namelist d2) h3 = T).
  { rewrite <- Ht2. unfold Heap.top. rewrite Hfr; [done|]. by rewrite Ht1. }
  assert (Ht13 : Heap.top (namelist d1) h3 = T) by (by rewrite Htop3).
  assert (Hsame_b : Heap.view (namelist base) h3 = Heap.view (namelist d1) h3).
  { unfold Heap.view. by rewrite Hb3, Ht13. }
  assert (Hsame_2 : Heap.view (namelist d2) h3 = Heap.view (namelist d1) h3).
  { unfold Heap.view. by rewrite Ht23, Ht13. }
  assert (Hv12 : Heap.view (namelist d1) (w_heap w2)
                 = Heap.view (namelist base) (w_heap w)).
  { rewrite <- Hv1. by apply view_mono. }
  assert (Hv22 : Heap.view (namelist d2) (w_heap w2)
                 = Heap.view (namelist base) (w_heap w)).
  { rewrite Hv2. by apply view_mono. }
  split; [done|]. split; [done|]. split; [done|]. split; [done|].
  intros pre sec name val -> ->.
  pose proof (overwrites_last _ _ _ _ _ _ _ Hw) as Hlast.
  split; [by rewrite Hsame_b|]. split; [by rewrite Hsame_2|].
  intros Hold. split.
  - intros Heq. apply Hold. by rewrite <- Heq, Hsame_b.
  - intros Heq. apply Hold. by rewrite <- Hv22, <- Heq, Hsame_2.
Qed.

(** ** Merging namelists *)

Lemma closedb_closed l (h : heap) : Heap.closedb l h = true -> Heap.closed l h.
Proof.
  unfold Heap.closedb, Heap.closed, Heap.top.
  destruct (h !! l) as [[|groups]|]; try discriminate.
  intros H. split; [eauto|]. intros sec g Hs.
  rewrite forallb_forall in H.
  apply elem_of_map_to_list, list_elem_of_In in Hs.
  apply H in Hs. by apply bool_decide_eq_true in Hs.
Qed.

Lemma unsharedb_unshared l (h : heap) :
  Heap.unsharedb l h = true -> Heap.unshared l h.
Proof.
  unfold Heap.unsharedb, Heap.unshared. intros H s1 s2 g H1 H2.
  apply bool_decide_eq_true in H.
  apply elem_of_map_to_list in H1, H2.
  pose proof (NoDup_fst_map_to_list (Heap.top l h)) as Hk.
  apply list_elem_of_lookup in H1 as [i Hi], H2 as [j Hj].
  assert (i = j) as ->.
  { eapply NoDup_lookup; [exact H| |].
    - rewrite list_lookup_fmap, Hi. reflexivity.
    - rewrite list_lookup_fmap, Hj. reflexivity. }
  congruence.
Qed.








Lemma derived_namelists_share_their_groups_witness :
  let E := Fixture.env Exited in
  let combo : list entry := [("main_nml", "calendar", VStr "no_calendar")] in
  let overwrite e :=
    on_heap (for_each combo (fun snv =>
               Namelist.setitem2 (namelist e) snv.1.1 snv.1.2 snv.2)) in
  let denotes e w := Heap.view (namelist e) (w_heap w) in
  let calendar_of e w :=
    (denotes e w !! "main_nml") ≫= (fun vars => vars !! "calendar") in
  let r1 := derive E Fixture.exp0 "exp_mai_calen_'no_calendar'" Fixture.w1 in
  let d1 := value_of Fixture.exp0 r1.1 in
  let r2 := derive E Fixture.exp0 "exp_mai_calen_'thirty_day'" r1.2 in
  let d2 := value_of Fixture.exp0 r2.1 in
  let w3 := (overwrite d1 r2.2).2 in
  (Heap.closed (namelist Fixture.exp0) (w_heap Fixture.w1) /\
   r1 = (Ret d1, r1.2) /\ r2 = (Ret d2, r2.2) /\
   (overwrite d1 r2.2).1 = Ret tt /\
   calendar_of Fixture.exp0 Fixture.w1 = Some (VStr "thirty_day")) /\
  calendar_of Fixture.exp0 w3 = Some (VStr "no_calendar") /\
  calendar_of d2 w3 = Some (VStr "no_calendar") /\
  denotes Fixture.exp0 w3 <> denotes Fixture.exp0 Fixture.w1 /\
  denotes d2 w3 <> denotes d2 r2.2.
Proof.
  intros E combo overwrite denotes calendar_of r1 d1 r2 d2 w3.
  assert (Hc : Heap.closed (namelist Fixture.exp0) (w_heap Fixture.w1)).
  { apply closedb_closed. by_vm. }
  assert (H1 : r1 = (Ret d1, r1.2)).
  { apply (result_eta r1 d1). by_vm. }
  assert (H2 : r2 = (Ret d2, r2.2)).
  { apply (result_eta r2 d2). by_vm. }
  assert (H3 : (overwrite d1 r2.2).1 = Ret tt) by by_vm.
  assert (H4 : calendar_of Fixture.exp0 Fixture.w1 = Some (VStr "thirty_day"))
    by by_vm.
  split; [exact (conj Hc (conj H1 (conj H2 (conj H3 H4))))|].
  destruct (derived_namelists_share_their_groups E Fixture.exp0
              "exp_mai_calen_'no_calendar'" "exp_mai_calen_'thirty_day'"
              Fixture.w1 d1 r1.2 d2 r2.2 combo
              (overwrite d1 r2.2).1 w3 Hc H1 H2 (surjective_pairing _))
    as (_ & _ & _ & _ & Hlast).
  destruct (Hlast [] _ _ _ eq_refl H3) as (Hb & Hd & Hchanged).
  split; [exact Hb|]. split; [exact Hd|].
  apply Hchanged. intros Heq.
  pose proof (eq_trans (eq_sym Heq) H4) as Hbad. discriminate Hbad.
Defined.

(** ** Operations that only touch the file system and the working directory *)

Lemma quiet_ret {A} (a : A) : quiet (ret a).
Proof. intros w r w' [= <- <-]. done. Qed.

Lemma quiet_raise {A} e : quiet (@raise World A e).
Proof. intros w r w' [= <- <-]. done. Qed.

Lemma quiet_gets {A} (f : World -> A) : quiet (gets f).
Proof. intros w r w' [= <- <-]. done. Qed.

Lemma quiet_bind {A B} (m : M World A) (k : A -> M World B) :
  quiet m -> (forall a, quiet (k a)) -> quiet (bind m k).
Proof.
  intros Hm Hk w r w'. unfold bind.
  destruct (m w) as [[a|e] w1] eqn:H1.
  - intros H2. destruct (Hm _ _ _ H1) as [Ht Hh].
    destruct (Hk a _ _ _ H2) as [Ht' Hh']. split; congruence.
  - intros [= <- <-]. by eapply Hm.
Qed.

Lemma quiet_on_fs {A} (m : M (gmap path node) A) : quiet (on_fs m).
Proof. intros w r w' H. apply on_fs_inv in H as (f' & _ & ->). done. Qed.

Lemma quiet_cd p : quiet (cd p).
Proof.
  intros w r w'. unfold cd. destruct (FS.isdir p (w_fs w)); intros [= <- <-]; done.
Qed.

Lemma quiet_mkdir ps : quiet (mkdir ps).
Proof. apply quiet_on_fs. Qed.

Lemma quiet_for_each {A} (l : list A) (body : A -> M World unit) :
  (forall x, quiet (body x)) -> quiet (for_each l body).
Proof.
  intros Hb. induction l as [|x l IH]; simpl.
  - apply quiet_ret.
  - apply quiet_bind; [apply Hb | intros _; exact IH].
Qed.

Lemma quiet_try_except {A} (m : M World A) h :
  quiet m -> (forall e k, h e = Some k -> quiet k) -> quiet (try_except m h).
Proof.
  intros Hm Hh w r w'. unfold try_except.
  destruct (m w) as [[a|e] w1] eqn:H1.
  - intros [= <- <-]. by eapply Hm.
  - destruct (h e) as [k|] eqn:He.
    + intros H2. destruct (Hm _ _ _ H1) as [Ht Hhp].
      destruct (Hh e k He _ _ _ H2) as [Ht' Hhp']. split; congruence.
    + intros [= <- <-]. by eapply Hm.
Qed.

Lemma quiet_getitem nml sec : quiet (on_heap (Namelist.getitem nml sec)).
Proof.
  intros w r w' H. apply on_heap_inv in H as (h' & H & ->).
  unfold Namelist.getitem, bind, gets in H.
  destruct (Heap.top nml (w_heap w) !! sec); injection H as <- <-; done.
Qed.

Ltac quiet_step :=
  first
    [ apply quiet_ret | apply quiet_raise | apply quiet_gets
    | apply quiet_on_fs | apply quiet_cd | apply quiet_mkdir
    | apply quiet_getitem
    | apply quiet_bind; [|intros ?]
    | apply quiet_for_each; intros ?
    | apply quiet_try_except; [|intros ? ? ?]
    | match goal with
      | |- quiet (if ?b then _ else _) => destruct b
      | |- quiet (match ?x with _ => _ end) => destruct x
      | H : match ?e with _ => _ end = Some _ |- _ =>
          destruct e; try discriminate H
      | H : Some _ = Some _ |- _ => injection H as <-
      end ].

Ltac quiet_tac := repeat quiet_step.

Lemma quiet_get_template self t : quiet (get_template self t).
Proof. unfold get_template. quiet_tac. Qed.

Lemma quiet_clear_rundir self : quiet (clear_rundir self).
Proof. unfold clear_rundir. quiet_tac. Qed.

Lemma quiet_write_namelist self outdir : quiet (write_namelist self outdir).
Proof. unfold write_namelist. quiet_tac. Qed.

Lemma quiet_write_diag_table self outdir : quiet (write_diag_table self outdir).
Proof.
  unfold write_diag_table, calendar_enabled.
  destruct (negb _); [|apply quiet_raise].
  apply quiet_bind; [apply quiet_get_template|intros _]. quiet_tac.
Qed.

Lemma quiet_prepare self : quiet (prepare self).
Proof.
  unfold prepare, write_field_table.
  apply quiet_bind; [apply quiet_mkdir|intros _].
  apply quiet_bind; [apply quiet_write_namelist|intros _].
  apply quiet_bind; [apply quiet_on_fs|intros _].
  apply quiet_bind; [apply quiet_write_diag_table|intros _].
  quiet_tac.
Qed.

Lemma quiet_archive_restart self month : quiet (archive_restart self month).
Proof. unfold archive_restart. quiet_tac. Qed.

Lemma quiet_copy_nc self outdir : quiet (copy_nc self outdir).
Proof.
  intros w r w'. unfold copy_nc, modify.
  destruct (FS.isdir outdir (w_fs w)); intros [= <- <-]; done.
Qed.

Lemma quiet_store_output self a outdir : quiet (store_output self a outdir).
Proof.
  unfold store_output. destruct (light a); [|quiet_tac].
  apply quiet_bind; [apply quiet_copy_nc|intros _]. quiet_tac.
Qed.

Lemma resolve_restart_same self a w r w' :
  resolve_restart self a w = (r, w') -> w' = w.
Proof.
  unfold resolve_restart, bind, gets, ret, raise.
  destruct (use_restart a); [|by intros [= <- <-]].
  destruct (FS.isfile _ _); by intros [= <- <-].
Qed.

(** ** The file system *)

Lemma strip_Some (d : path) : forall p r, FS.strip d p = Some r <-> p = d ++ r.
Proof.
  induction d as [|x d IH]; intros p r; simpl.
  - split; [by intros [= ->] | by intros ->].
  - destruct p as [|y p]; [split; intros; discriminate|].
    destruct (String.eqb x y) eqn:Hxy.
    + apply String.eqb_eq in Hxy as ->. rewrite IH. split; [by intros -> | by intros [= ->]].
    + apply String.eqb_neq in Hxy. split; [discriminate | intros [= -> _]; done].
Qed.

Lemma strip_app (d r : path) : FS.strip d (d ++ r) = Some r.
Proof. by apply strip_Some. Qed.

Lemma strip_self (d : path) : FS.strip d d = Some [].
Proof. apply strip_Some. by rewrite app_nil_r. Qed.

Lemma prune_lookup (d : path) (fs : gmap path node) (p : path) :
  FS.prune d fs !! p = match FS.strip d p with
                      | Some _ => None
                      | None => fs !! p
                      end.
Proof.
  unfold FS.prune. destruct (FS.strip d p) as [r|] eqn:Hs.
  - apply map_lookup_filter_None. right. intros x _. simpl. by rewrite Hs.
  - destruct (fs !! p) as [x|] eqn:Hp.
    + apply map_lookup_filter_Some. by split.
    + apply map_lookup_filter_None. by left.
Qed.

Lemma isdir_lookup (p : path) (fs : gmap path node) :
  FS.isdir p fs = true <-> fs !! p = Some Dir.
Proof.
  unfold FS.isdir. destruct (fs !! p) as [[|d]|]; split; intros; by simplify_eq.
Qed.

Lemma isfile_lookup (p : path) (fs : gmap path node) :
  FS.isfile p fs = true <-> exists d, fs !! p = Some (File d).
Proof.
  unfold FS.isfile. destruct (fs !! p) as [[|d]|]; split;
    [discriminate | intros [? ?]; discriminate | eauto | done
    | discriminate | intros [? ?]; discriminate].
Qed.

(** ** The check of the output directory *)

Lemma run_entered E a self w w0 :
  entered self a w w0 -> run E a (self, w) = run_body E a (self, w0).
Proof.
  unfold entered, run, bind, gets. simpl.
  destruct (FS.isdir _ _) eqn:Hd; [|by intros ->].
  intros [-> ->]. apply isdir_lookup in Hd.
  unfold on_world, on_fs, FS.rm_r. simpl. by rewrite Hd.
Qed.

(** C9.  A run whose output directory [data/run<month>] is already there:
    without an overwrite policy (neither the flag of the experiment nor the
    argument) it returns [False] and the experiment and the world, the file
    system with them, are what they were; with one, it goes on as the run
    proper in a file system from which the directory and all that lay below
    it are gone, and in which every other entry is what it was. *)
Theorem existing_output_is_skipped_or_destroyed E a self w :
  FS.isdir (outdir_of self (month a)) (w_fs w) = true ->
  (overwrite_data self || arg_overwrite_data a = false ->
     run E a (self, w) = (Ret false, (self, w))) /\
  (overwrite_data self || arg_overwrite_data a = true ->
     let fs' := FS.prune (outdir_of self (month a)) (w_fs w) in
     run E a (self, w) = run_body E a (self, with_fs fs' w) /\
     (forall p rest, FS.strip (outdir_of self (month a)) p = Some rest ->
                     fs' !! p = None) /\
     (forall p, FS.strip (outdir_of self (month a)) p = None ->
                fs' !! p = w_fs w !! p)).
Proof.
  intros Hd. split.
  - intros Hov. unfold run, bind, gets. simpl. by rewrite Hd, Hov.
  - intros Hov fs'. split; [|split].
    + apply run_entered. unfold entered. by rewrite Hd.
    + intros p rest Hs. unfold fs'. by rewrite prune_lookup, Hs.
    + intros p Hs. unfold fs'. by rewrite prune_lookup, Hs.
Qed.

(** ** The diagnostic table file *)

(** C8.  [write_diag_table] with no output file in the table raises
    [ValueError] and leaves the world, the file system with it, as it was.
    With at least one file it writes [outdir/diag_table], the calendar flag
    and the files of the table in their order, and returns, when the
    template is there, the namelist has a string for [main_nml/calendar],
    and [outdir] is a directory in which [diag_table] is not one. *)
Theorem diag_table_needs_an_output_file self outdir w :
  (DiagTable.files (diag_table self) = [] ->
     write_diag_table self outdir w = (Raise ValueError, w)) /\
  (DiagTable.files (diag_table self) <> [] ->
   forall calendar,
     FS.isfile (P (template_dir self) "diag_table") (w_fs w) = true ->
     (Heap.view (namelist self) (w_heap w) !! "main_nml")
       ≫= (fun vars => vars !! "calendar") = Some (VStr calendar) ->
     FS.isdir outdir (w_fs w) = true ->
     FS.isdir (P outdir "diag_table") (w_fs w) = false ->
     write_diag_table self outdir w =
       (Ret tt,
        with_fs (<[P outdir "diag_table" :=
                     File (DiagText (negb (String.prefix "no_calendar" (lower calendar)))
                                    (Dict.values (DiagTable.files (diag_table self))))]>
                   (w_fs w)) w)).
Proof.
  split.
  - intros Hf. unfold write_diag_table. by rewrite Hf.
  - intros Hf calendar Ht Hcal Hd Hnd. unfold write_diag_table.
    destruct (DiagTable.files (diag_table self)) as [|f fs] eqn:Hfiles; [done|].
    simpl negb. cbv iota.
    unfold get_template, calendar_enabled, bind, gets. simpl. rewrite Ht.
    rewrite view_lookup in Hcal.
    unfold on_heap, Namelist.getitem, bind, gets. simpl.
    destruct (Heap.top (namelist self) (w_heap w) !! "main_nml") as [g|];
      [|discriminate]. simpl in *.
    destruct (Heap.group g (w_heap w)) as [vars|]; [|discriminate].
    simpl in Hcal. rewrite Hcal.
    unfold on_fs, FS.write, ret. simpl.
    replace (FS.parent (P outdir "diag_table")) with outdir
      by (unfold FS.parent, P; by rewrite removelast_last).
    by rewrite Hd, Hnd.
Qed.

(** ** The restart a run starts from *)

Lemma run_body_prepared E a self w0 w1 :
  prepare self w0 = (Ret tt, w1) ->
  run_body E a (self, w0) =
    bind (on_world (resolve_restart self a)) (finish E a) (self, w1).
Proof.
  intros Hp. unfold run_body. unfold bind at 1. unfold gets at 1. simpl.
  unfold bind at 1. unfold on_world at 1. simpl. by rewrite Hp.
Qed.

Lemma bind_Raise {S A B} (m : M S A) (k : A -> M S B) s e s' :
  bind m k s = (Raise e, s') ->
  m s = (Raise e, s') \/ exists a s1, m s = (Ret a, s1) /\ k a s1 = (Raise e, s').
Proof.
  unfold bind. destruct (m s) as [[a|e0] s1]; [eauto|]. intros [= <- <-]. by left.
Qed.

Lemma on_world_inv {A} (m : M World A) self w r s' :
  on_world m (self, w) = (r, s') -> exists w', m w = (r, w') /\ s' = (self, w').
Proof.
  unfold on_world. simpl. destruct (m w) as [r0 w']. intros [= <- <-]. eauto.
Qed.

Lemma on_world_eq {A} (m : M World A) self w r w' :
  m w = (r, w') -> on_world m (self, w) = (r, (self, w')).
Proof. unfold on_world. simpl. by intros ->. Qed.

Lemma launch_trace E self script v w r w' :
  w_fs w !! script = Some (File (Script v)) ->
  launch E self script w = (r, w') ->
  w_trace w' = w_trace w ++ [Launch (Script v)].
Proof.
  intros Hs. unfold launch, bind, on_fs, FS.read. rewrite Hs. simpl.
  destruct (pr_ending _); intros [= <- <-]; done.
Qed.

(** The child is launched once, with the script that is in the run
    directory, and killed at most once. *)
Lemma launch_and_wait_trace E self v w r w' :
  w_fs w !! P (rundir self) "runmonth.sh" = Some (File (Script v)) ->
  launch_and_wait E self w = (r, w') ->
  exists t, w_trace w' = w_trace w ++ Launch (Script v) :: t /\
            (t = [] \/ t = [Kill]).
Proof.
  intros Hs. unfold launch_and_wait, try_except.
  destruct (bind (launch E self _) _ w) as [[b|e] w1] eqn:Hl.
  - intros [= <- <-]. apply bind_Ret in Hl as ([] & w2 & Hl & [= <- <-]).
    apply (launch_trace _ _ _ _ _ _ _ Hs) in Hl. exists []. by split; [|left].
  - apply bind_Raise in Hl as [Hl|(a0 & s1 & _ & [=])].
    apply (launch_trace _ _ _ _ _ _ _ Hs) in Hl.
    assert (Hkill : forall (k : M World bool) r w', quiet k ->
              bind (emit Kill) (fun _ => k) w1 = (r, w') ->
              w_trace w' = w_trace w ++ [Launch (Script v); Kill]).
    { intros k r0 w0 Hq. unfold bind, emit, modify. simpl. intros Hk.
      destruct (Hq _ _ _ Hk) as [-> _]. simpl. rewrite Hl.
      by rewrite <- app_assoc. }
    destruct e; simpl;
      try (intros H; exists [Kill]; split; [|by right];
           eapply Hkill; [|exact H]; apply quiet_raise).
    + intros [= <- <-]. exists []. by split; [|left].
    + intros H. exists [Kill]. split; [|by right].
      eapply Hkill; [|exact H].
      apply quiet_bind; [apply quiet_clear_rundir|intros _; apply quiet_ret].
Qed.

(** Every script that [finish] hands to the shell is the one it rendered,
    with the restart file it was given. *)
Lemma finish_launches_its_script E a rfile self w r s' :
  finish E a rfile (self, w) = (r, s') ->
  exists t, w_trace s'.2 = w_trace w ++ t /\
    forall d, Launch d ∈ t -> d = Script (script_vars self a rfile).
Proof.
  unfold finish. unfold bind at 1. unfold gets at 1. simpl.
  set (vars := script_vars self a rfile).
  unfold bind at 1.
  destruct (on_world (get_template self "runmonth.sh") (self, w))
    as [[[]|e] s1] eqn:Ht.
  2:{ intros [= <- <-]. apply on_world_inv in Ht as (w1 & Ht & ->).
      apply quiet_get_template in Ht as [Ht _]. exists []. simpl.
      split; [by rewrite app_nil_r|]. intros d Hd. inversion Hd. }
  apply on_world_inv in Ht as (w1 & Ht & ->).
  apply quiet_get_template in Ht as [Ht _].
  unfold bind at 1.
  destruct (on_world (on_fs (FS.write _ _)) (self, w1)) as [[[]|e] s2] eqn:Hw.
  2:{ intros [= <- <-]. apply on_world_inv in Hw as (w2 & Hw & ->).
      apply quiet_on_fs in Hw as [Hw _]. exists []. simpl.
      split; [by rewrite app_nil_r, Hw|]. intros d Hd. inversion Hd. }
  apply on_world_inv in Hw as (w2 & Hw & ->).
  assert (Hscript : w_fs w2 !! P (rundir self) "runmonth.sh" = Some (File (Script vars))).
  { apply on_fs_inv in Hw as (f' & Hw & ->). unfold FS.write in Hw.
    destruct (_ && _); [|discriminate]. injection Hw as <-. simpl.
    apply lookup_insert_eq. }
  apply quiet_on_fs in Hw as [Hw _].
  unfold bind at 1. unfold modify at 1. simpl.
  unfold bind at 1.
  destruct (on_world (launch_and_wait E self) _) as [[go_on|e] s3] eqn:Hl.
  2:{ intros [= <- <-]. apply on_world_inv in Hl as (w3 & Hl & ->).
      apply (launch_and_wait_trace _ _ _ _ _ _ Hscript) in Hl as (t & Hl & Ht').
      exists (Launch (Script vars) :: t). simpl. split; [by rewrite Hl, Hw, Ht|].
      intros d Hd. apply elem_of_cons in Hd as [[= ->]|Hd]; [done|].
      destruct Ht' as [->| ->]; [inversion Hd|].
      apply list_elem_of_singleton in Hd. discriminate. }
  apply on_world_inv in Hl as (w3 & Hl & ->).
  apply (launch_and_wait_trace _ _ _ _ _ _ Hscript) in Hl as (t & Hl & Ht').
  assert (Hgoal : forall (s4 : Experiment * World),
            w_trace s4.2 = w_trace w3 ->
            exists t0, w_trace s4.2 = w_trace w ++ t0 /\
              forall d, Launch d ∈ t0 -> d = Script vars).
  { intros s4 Hs4. exists (Launch (Script vars) :: t).
    split; [by rewrite Hs4, Hl, Hw, Ht|].
    intros d Hd. apply elem_of_cons in Hd as [[= ->]|Hd]; [done|].
    destruct Ht' as [->| ->]; [inversion Hd|].
    apply list_elem_of_singleton in Hd. discriminate. }
  destruct go_on; [|by intros [= <- <-]; apply Hgoal].
  set (tail := bind (mkdir [outdir_of self (month a)]) (fun _ =>
               bind (archive_restart self (month a)) (fun _ =>
               bind (store_output self a (outdir_of self (month a))) (fun _ =>
               bind (clear_rundir self) (fun _ => cd (rundir self)))))).
  assert (Hq : quiet tail).
  { unfold tail.
    apply quiet_bind; [apply quiet_mkdir|intros _].
    apply quiet_bind; [apply quiet_archive_restart|intros _].
    apply quiet_bind; [apply quiet_store_output|intros _].
    apply quiet_bind; [apply quiet_clear_rundir|intros _]. apply quiet_cd. }
  intros H.
  assert (Heq : exists r0 w4, tail w3 = (r0, w4) /\ s' = (set_cur_month (month a) self, w4)).
  { revert H. unfold tail, bind, on_world, ret. simpl.
    repeat match goal with
           | |- context [match ?m ?x with _ => _ end] =>
               lazymatch m with
               | mkdir _ => destruct (m x) as [[[]|?] ?]
               | archive_restart _ _ => destruct (m x) as [[[]|?] ?]
               | store_output _ _ _ => destruct (m x) as [[[]|?] ?]
               | clear_rundir _ => destruct (m x) as [[[]|?] ?]
               | cd _ => destruct (m x) as [[[]|?] ?]
               end; simpl
           end; intros [= <- <-]; eauto. }
  destruct Heq as (r0 & w4 & Htail & ->).
  apply Hgoal. simpl. by apply Hq in Htail as [-> _].
Qed.

Lemma entered_trace self a w w0 : entered self a w w0 -> w_trace w0 = w_trace w.
Proof.
  unfold entered. destruct (FS.isdir _ _); [by intros [_ ->] | by intros ->].
Qed.

(** C1.  A run that has got past the check of its output directory and has
    prepared its scratch area ([w1] is the world at that point; nothing is
    launched before it).  With [use_restart] and no [restart_file], the
    restart file is [res_<month-1>.cpio] in the restart directory of the
    experiment; when that is not a file the run ends there with
    [SystemExit(2)], in the world [w1], so with nothing launched; when it
    is a file the run goes on from it.  Without [use_restart] the run goes
    on from no restart file.  Going on, every script that is handed to the
    shell is the one rendered with that restart file. *)
Theorem restart_resolved_from_previous_month E a self w w0 w1 :
  entered self a w w0 ->
  prepare self w0 = (Ret tt, w1) ->
  let rf := P (restartdir self) ("res_" +:+ fmt_d (month a - 1) +:+ ".cpio") in
  w_trace w1 = w_trace w /\
  (use_restart a = true -> restart_file a = None ->
     get_restart_file self (month a - 1) = rf /\
     (FS.isfile rf (w_fs w1) = false ->
        run E a (self, w) = (Raise (SystemExit 2), (self, w1))) /\
     (FS.isfile rf (w_fs w1) = true ->
        run E a (self, w) = finish E a (Some rf) (self, w1))) /\
  (use_restart a = false ->
     run E a (self, w) = finish E a None (self, w1)) /\
  (forall rfile r s',
     finish E a rfile (self, w1) = (r, s') ->
     exists t, w_trace s'.2 = w_trace w1 ++ t /\
       forall d, Launch d ∈ t ->
         exists vars, d = Script vars /\ rv_restart_file vars = rfile /\
                      rv_month vars = month a).
Proof.
  intros Hent Hprep rf.
  assert (Hrun : run E a (self, w) =
            bind (on_world (resolve_restart self a)) (finish E a) (self, w1)).
  { rewrite (run_entered _ _ _ _ _ Hent). by apply run_body_prepared. }
  split; [|split; [|split]].
  - apply quiet_prepare in Hprep as [-> _]. by apply (entered_trace self a).
  - intros Hu Hr. split; [done|]. split; intros Hf; rewrite Hrun;
      unfold on_world, resolve_restart; rewrite Hu, Hr;
      change (get_restart_file self (month a - 1)) with rf;
      unfold bind, gets, ret, raise; cbn [fst snd]; by rewrite Hf.
  - intros Hu. rewrite Hrun. unfold on_world, resolve_restart. rewrite Hu.
    unfold bind, ret. by cbn [fst snd].
  - intros rfile r s' Hfin.
    destruct (finish_launches_its_script _ _ _ _ _ _ _ Hfin) as (t & Ht & Hl).
    exists t. split; [done|]. intros d Hd. apply Hl in Hd as ->.
    by eexists.
Qed.

(** ** Clearing the run directory *)

(** [mkdir -p] makes directories at the leading parts of its operand and
    changes nothing else. *)
Lemma mkdir_from_lookup (rest : list string) :
  forall (base : path) (fs fs' : gmap path node),
  FS.mkdir_from base rest fs = Some fs' ->
  forall p : path,
    fs' !! p = fs !! p \/
    (fs' !! p = Some Dir /\
     exists r1 r2, rest = r1 ++ r2 /\ r1 <> [] /\ p = base ++ r1).
Proof.
  induction rest as [|s rest IH]; intros base fs fs' H p.
  - injection H as <-. by left.
  - simpl in H.
    assert (Hrec : FS.mkdir_from (base ++ [s]) rest (<[base ++ [s] := Dir]> fs)
                   = Some fs').
    { destruct (fs !! (base ++ [s])) as [[|d]|]; done. }
    clear H. destruct (IH _ _ _ Hrec p) as [Hp|(Hp & r1 & r2 & -> & Hr1 & ->)].
    + destruct (decide (p = base ++ [s])) as [->|Hne].
      * right. rewrite Hp, lookup_insert_eq. split; [done|].
        exists [s], rest. done.
      * left. by rewrite Hp, lookup_insert_ne.
    + right. split; [done|]. exists (s :: r1), r2.
      split; [done|]. split; [done|]. by rewrite <- app_assoc.
Qed.

Lemma mkdir_one_inv (d : path) w w' :
  mkdir [d] w = (Ret tt, w') ->
  exists fs', FS.mkdir_from [] d (w_fs w) = Some fs' /\ w' = with_fs fs' w.
Proof.
  intros H. apply on_fs_inv in H as (f' & H & ->). simpl in H.
  destruct (FS.mkdir_from [] d (w_fs w)) as [fs'|]; [|discriminate].
  injection H as <-. eauto.
Qed.

Lemma app_cons_not_prefix (d r1 r2 : path) c rest :
  d = r1 ++ r2 -> r1 <> d ++ c :: rest.
Proof.
  intros -> H. apply (f_equal length) in H.
  rewrite !length_app in H. simpl in H. lia.
Qed.

(** [clear_rundir] that returns leaves nothing below the run directory. *)
Lemma clear_rundir_clears self w w' :
  clear_rundir self w = (Ret tt, w') -> scratch_cleared self (w_fs w').
Proof.
  unfold clear_rundir. intros H.
  apply bind_Ret in H as ([] & w1 & Hcd & H).
  assert (Hw1 : w_fs w1 = w_fs w).
  { unfold cd in Hcd. destruct (FS.isdir _ _); [|discriminate].
    by injection Hcd as <-. }
  apply bind_Ret in H as ([] & w2 & Hrm & H).
  assert (Hw2 : w_fs w2 = FS.prune (rundir self) (w_fs w)).
  { revert Hrm. unfold try_except, on_fs, FS.rm_r. rewrite Hw1.
    destruct (w_fs w !! rundir self); simpl; by intros [= <-]. }
  apply mkdir_one_inv in H as (fs' & Hmk & ->). simpl.
  intros p c rest Hp. apply strip_Some in Hp as ->.
  destruct (mkdir_from_lookup _ _ _ _ Hmk (rundir self ++ c :: rest))
    as [Hl|(_ & r1 & r2 & Hd & _ & Hr1)].
  - rewrite Hl, Hw2, prune_lookup. by rewrite strip_app.
  - exfalso. simpl in Hr1. symmetry in Hr1. revert Hr1.
    by apply (app_cons_not_prefix _ _ r2).
Qed.

(** A [launch_and_wait] that returns [False] has caught the interrupt of the
    user: the child was launched and killed, and the run directory
    cleared. *)
Lemma launch_and_wait_false E self v w w' :
  w_fs w !! P (rundir self) "runmonth.sh" = Some (File (Script v)) ->
  launch_and_wait E self w = (Ret false, w') ->
  scratch_cleared self (w_fs w') /\
  w_trace w' = w_trace w ++ [Launch (Script v); Kill].
Proof.
  intros Hs. unfold launch_and_wait, try_except.
  destruct (bind (launch E self _) _ w) as [[b|e] w1] eqn:Hl.
  - intros [= -> <-]. by apply bind_Ret in Hl as ([] & w2 & _ & [=]).
  - apply bind_Raise in Hl as [Hl|(a0 & s1 & _ & [=])].
    apply (launch_trace _ _ _ _ _ _ _ Hs) in Hl.
    destruct e; simpl; try discriminate;
      try (unfold bind, emit, modify, raise; simpl; discriminate).
    intros H. apply bind_Ret in H as ([] & w2 & Hk & H).
    injection Hk as <-.
    apply bind_Ret in H as ([] & w3 & Hc & [= <-]).
    split; [by eapply clear_rundir_clears|].
    apply quiet_clear_rundir in Hc as [-> _]. simpl. rewrite Hl.
    by rewrite <- app_assoc.
Qed.

Lemma finish_returns E a rfile self w b s' :
  finish E a rfile (self, w) = (Ret b, s') ->
  scratch_cleared self (w_fs s'.2) /\
  (b = true \/
   (b = false /\ exists d, w_trace s'.2 = w_trace w ++ [Launch d; Kill])).
Proof.
  unfold finish. intros H.
  apply bind_Ret in H as (self0 & s0 & [= <- <-] & H).
  apply bind_Ret in H as ([] & s1 & Ht & H).
  apply on_world_inv in Ht as (w1 & Ht & ->).
  apply quiet_get_template in Ht as [Ht _].
  apply bind_Ret in H as ([] & s2 & Hw & H).
  apply on_world_inv in Hw as (w2 & Hw & ->).
  assert (Hscript : w_fs w2 !! P (rundir self) "runmonth.sh"
                    = Some (File (Script (script_vars self a rfile)))).
  { apply on_fs_inv in Hw as (f' & Hw & ->). unfold FS.write in Hw.
    destruct (_ && _); [|discriminate]. injection Hw as <-. simpl.
    apply lookup_insert_eq. }
  apply quiet_on_fs in Hw as [Hw _].
  apply bind_Ret in H as ([] & s3 & [= <-] & H).
  apply bind_Ret in H as (go_on & s4 & Hl & H). simpl in Hl.
  apply on_world_inv in Hl as (w4 & Hl & ->).
  destruct go_on.
  - apply bind_Ret in H as ([] & s5 & _ & H).
    apply bind_Ret in H as ([] & s6 & _ & H).
    apply bind_Ret in H as ([] & s7 & _ & H).
    apply bind_Ret in H as ([] & s8 & Hc & H).
    apply bind_Ret in H as ([] & s9 & Hcd & [= <- <-]).
    destruct s7 as [e7 w7]. apply on_world_inv in Hc as (w8 & Hc & ->).
    apply on_world_inv in Hcd as (w9 & Hcd & ->). simpl.
    split; [|by left].
    assert (w_fs w9 = w_fs w8) as ->.
    { unfold cd in Hcd. destruct (FS.isdir _ _); [|discriminate].
      by injection Hcd as <-. }
    by apply clear_rundir_clears in Hc.
  - injection H as <- <-. simpl.
    destruct (launch_and_wait_false _ _ _ _ _ Hscript Hl) as [Hc Htr].
    split; [done|]. right. split; [done|]. eexists.
    by rewrite Htr, Hw, Ht.
Qed.

Lemma run_body_returns E a self w0 b s' :
  run_body E a (self, w0) = (Ret b, s') ->
  exists w1 rfile,
    prepare self w0 = (Ret tt, w1) /\
    resolve_restart self a w1 = (Ret rfile, w1) /\
    finish E a rfile (self, w1) = (Ret b, s').
Proof.
  unfold run_body. intros H.
  apply bind_Ret in H as (self0 & s0 & [= <- <-] & H).
  apply bind_Ret in H as ([] & s1 & Hp & H).
  apply on_world_inv in Hp as (w1 & Hp & ->).
  apply bind_Ret in H as (rfile & s2 & Hr & H).
  apply on_world_inv in Hr as (w2 & Hr & ->).
  pose proof (resolve_restart_same _ _ _ _ _ Hr) as ->.
  by exists w1, rfile.
Qed.

(** The two ways out of [run] that call [clear_rundir].  A run that has got
    past the check of its output directory and returns, [True] after the
    child has exited and its output has been stored, [False] after the
    interrupt of the user (the child launched and killed), leaves nothing
    below the run directory.  The handler of [except Exception] makes no
    such call: when waiting for the child raises an exception of class
    [Exception], the child is killed and the exception is raised again
    over the file system the child left. *)
Theorem scratch_cleared_when_run_returns :
  (forall E a self w w0 b s',
     entered self a w w0 ->
     run E a (self, w) = (Ret b, s') ->
     scratch_cleared self (w_fs s'.2) /\
     (b = true \/
      (b = false /\ exists d, w_trace s'.2 = w_trace w ++ [Launch d; Kill]))) /\
  (forall E self w e w1,
     launch E self (P (rundir self) "runmonth.sh") w = (Raise e, w1) ->
     is_Exception e = true ->
     exists w2, launch_and_wait E self w = (Raise e, w2) /\
       w_fs w2 = w_fs w1 /\ w_trace w2 = w_trace w1 ++ [Kill]).
Proof.
  split.
  - intros E a self w w0 b s' Hent Hrun.
    rewrite (run_entered _ _ _ _ _ Hent) in Hrun.
    apply run_body_returns in Hrun as (w1 & rfile & Hp & _ & Hfin).
    apply finish_returns in Hfin as [Hc Hb]. split; [done|].
    destruct Hb as [->|[-> [d Hd]]]; [by left|]. right. split; [done|].
    exists d. rewrite Hd. apply quiet_prepare in Hp as [-> _].
    by rewrite (entered_trace self a w w0).
  - intros E self w e w1 Hl He. unfold launch_and_wait, try_except, bind.
    rewrite Hl. eexists. split.
    + destruct e; try discriminate He; reflexivity.
    + done.
Qed.

(** ** Which files an operation can make *)

Lemma files_within_refl (R : path -> Prop) (fs : gmap path node) : files_within R fs fs.
Proof. intros T H. by left. Qed.

Lemma files_within_trans (R : path -> Prop) (fs1 fs2 fs3 : gmap path node) :
  files_within R fs1 fs2 -> files_within R fs2 fs3 -> files_within R fs1 fs3.
Proof.
  intros H12 H23 T H. destruct (H23 T H) as [H2|HR]; [|by right]. by apply H12.
Qed.

Lemma mkdir_from_files (rest : list string) :
  forall (base : path) (fs fs' : gmap path node),
  FS.mkdir_from base rest fs = Some fs' ->
  forall T : path, FS.isfile T fs' = FS.isfile T fs.
Proof.
  induction rest as [|s rest IH]; intros base fs fs' H T.
  - by injection H as <-.
  - simpl in H. destruct (fs !! (base ++ [s])) as [[|d]|] eqn:Hq; [|done|].
    + rewrite (IH _ _ _ H T). unfold FS.isfile.
      destruct (decide (T = base ++ [s])) as [->|Hne].
      * by rewrite lookup_insert_eq, Hq.
      * by rewrite lookup_insert_ne.
    + rewrite (IH _ _ _ H T). unfold FS.isfile.
      destruct (decide (T = base ++ [s])) as [->|Hne].
      * by rewrite lookup_insert_eq, Hq.
      * by rewrite lookup_insert_ne.
Qed.

Lemma mkdir_all_files (ps : list path) : forall failed (fs : gmap path node) r fs',
  FS.mkdir_all ps failed fs = (r, fs') ->
  forall T : path, FS.isfile T fs' = FS.isfile T fs.
Proof.
  induction ps as [|p ps IH]; intros failed fs r fs' H T.
  - simpl in H. destruct failed; by injection H as <- <-.
  - simpl in H. destruct (FS.mkdir_from [] p fs) as [fs1|] eqn:Hm.
    + rewrite (IH _ _ _ _ H T). by eapply mkdir_from_files.
    + by eapply IH.
Qed.

Lemma prune_files (d : path) (fs : gmap path node) (T : path) :
  FS.isfile T (FS.prune d fs) = true -> FS.isfile T fs = true.
Proof.
  unfold FS.isfile. rewrite prune_lookup. by destruct (FS.strip d T).
Qed.

Lemma rm_r_files (d : path) (fs : gmap path node) (r : res unit)
    (fs' : gmap path node) :
  FS.rm_r d fs = (r, fs') -> files_within (fun _ => False) fs fs'.
Proof. intros [= _ <-] T H. left. by eapply prune_files. Qed.

Lemma rm_any (p : path) (fs : gmap path node) (r : res unit)
    (fs' : gmap path node) :
  FS.rm p fs = (r, fs') ->
  FS.isfile p fs' = false /\ forall q, q <> p -> fs' !! q = fs !! q.
Proof.
  unfold FS.rm, FS.isfile. destruct (fs !! p) as [[|d]|] eqn:Hp;
    intros [= <- <-].
  - by rewrite Hp.
  - rewrite lookup_delete_eq. split; [done|]. intros q Hq.
    by rewrite lookup_delete_ne.
  - by rewrite Hp.
Qed.

Lemma rm_files (p : path) (fs : gmap path node) (r : res unit)
    (fs' : gmap path node) :
  FS.rm p fs = (r, fs') -> files_within (fun _ => False) fs fs'.
Proof.
  intros H T HT. left. destruct (rm_any _ _ _ _ H) as [Hp Hq].
  destruct (decide (T = p)) as [->|Hne]; [congruence|].
  unfold FS.isfile in *. by rewrite <- (Hq T Hne).
Qed.

Lemma write_inv (p : path) (d : data) (fs fs' : gmap path node) :
  FS.write p d fs = (Ret tt, fs') ->
  fs' = <[p := File d]> fs /\ FS.isdir (FS.parent p) fs = true /\
  FS.isdir p fs = false.
Proof.
  unfold FS.write. destruct (FS.isdir (FS.parent p) fs); [|discriminate].
  destruct (FS.isdir p fs); [discriminate|]. by intros [= <-].
Qed.

Lemma write_files (R : path -> Prop) (p : path) (d : data)
    (fs : gmap path node) (r : res unit) (fs' : gmap path node) :
  R p -> FS.write p d fs = (r, fs') -> files_within R fs fs'.
Proof.
  intros HR. unfold FS.write. destruct (_ && _); intros [= <- <-].
  - intros T HT. destruct (decide (T = p)) as [->|Hne]; [by right|].
    left. unfold FS.isfile in *. by rewrite lookup_insert_ne in HT.
  - apply files_within_refl.
Qed.

Lemma cp_inv (src dst : path) (fs fs' : gmap path node) :
  FS.cp src dst fs = (Ret tt, fs') ->
  exists d, fs !! src = Some (File d) /\
    fs' = <[(if FS.isdir dst fs then P dst (FS.basename src) else dst)
              := File d]> fs.
Proof.
  unfold FS.cp. destruct (fs !! src) as [[|d]|]; try discriminate.
  destruct (FS.write _ d fs) as [[[]|e] fs1] eqn:Hw; [|discriminate].
  intros [= <-]. apply write_inv in Hw as (-> & _). eauto.
Qed.

Lemma cp_files (R : path -> Prop) (src dst : path) (fs : gmap path node)
    (r : res unit) (fs' : gmap path node) :
  R dst -> R (P dst (FS.basename src)) ->
  FS.cp src dst fs = (r, fs') -> files_within R fs fs'.
Proof.
  intros HR1 HR2. unfold FS.cp.
  destruct (fs !! src) as [[|d]|]; try (intros [= <- <-]; apply files_within_refl).
  destruct (FS.write _ d fs) as [[[]|e] fs1] eqn:Hw; intros [= <- <-];
    (eapply write_files; [|exact Hw]); by destruct (FS.isdir dst fs).
Qed.

Lemma graft_lookup_outside (dst : path) (es : list (path * node))
    (fs : gmap path node) (p : path) :
  FS.strip dst p = None -> FS.graft dst es fs !! p = fs !! p.
Proof.
  intros Hp. induction es as [|[rel n] es IH]; [done|]. simpl.
  rewrite lookup_insert_ne; [done|]. intros <-. by rewrite strip_app in Hp.
Qed.

Lemma graft_files (R : path -> Prop) (dst : path) (es : list (path * node))
    (fs : gmap path node) :
  (forall T, FS.strip dst T <> None -> R T) ->
  files_within R fs (FS.graft dst es fs).
Proof.
  intros HR T HT. destruct (FS.strip dst T) eqn:Hs.
  - right. apply HR. by rewrite Hs.
  - left. unfold FS.isfile in *. by rewrite graft_lookup_outside in HT.
Qed.

Section Confined.
Variable R : path -> Prop.

Lemma confined_ret {A} (a : A) : confined R (ret a).
Proof. intros w r w' [= <- <-]. apply files_within_refl. Qed.

Lemma confined_raise {A} e : confined R (@raise World A e).
Proof. intros w r w' [= <- <-]. apply files_within_refl. Qed.

Lemma confined_gets {A} (f : World -> A) : confined R (gets f).
Proof. intros w r w' [= <- <-]. apply files_within_refl. Qed.

Lemma confined_bind {A B} (m : M World A) (k : A -> M World B) :
  confined R m -> (forall a, confined R (k a)) -> confined R (bind m k).
Proof.
  intros Hm Hk w r w'. unfold bind.
  destruct (m w) as [[a|e] w1] eqn:H1.
  - intros H2. eapply files_within_trans; [by eapply Hm | by eapply Hk].
  - intros [= <- <-]. by eapply Hm.
Qed.

Lemma confined_for_each {A} (l : list A) (body : A -> M World unit) :
  (forall x, confined R (body x)) -> confined R (for_each l body).
Proof.
  intros Hb. induction l as [|x l IH]; simpl.
  - apply confined_ret.
  - apply confined_bind; [apply Hb | intros _; exact IH].
Qed.

Lemma confined_try_except {A} (m : M World A) h :
  confined R m -> (forall e k, h e = Some k -> confined R k) ->
  confined R (try_except m h).
Proof.
  intros Hm Hh w r w'. unfold try_except.
  destruct (m w) as [[a|e] w1] eqn:H1.
  - intros [= <- <-]. by eapply Hm.
  - destruct (h e) as [k|] eqn:He.
    + intros H2. eapply files_within_trans; [by eapply Hm | by eapply (Hh e k)].
    + intros [= <- <-]. by eapply Hm.
Qed.

Lemma confined_on_fs {A} (m : M (gmap path node) A) :
  (forall fs r fs', m fs = (r, fs') -> files_within R fs fs') ->
  confined R (on_fs m).
Proof.
  intros Hm w r w' H. apply on_fs_inv in H as (f' & H & ->). simpl. by eapply Hm.
Qed.

Lemma confined_on_heap {A} (m : M heap A) : confined R (on_heap m).
Proof.
  intros w r w' H. apply on_heap_inv in H as (h' & _ & ->).
  apply files_within_refl.
Qed.

Lemma confined_cd p : confined R (cd p).
Proof.
  intros w r w'. unfold cd.
  destruct (FS.isdir p (w_fs w)); intros [= <- <-]; apply files_within_refl.
Qed.

Lemma confined_emit e : confined R (emit e).
Proof. intros w r w' [= <- <-]. apply files_within_refl. Qed.

Lemma confined_mkdir ps : confined R (mkdir ps).
Proof.
  apply confined_on_fs. intros fs r fs' H T HT. left.
  by rewrite <- (mkdir_all_files _ _ _ _ _ H T).
Qed.

Lemma confined_rm_r (p : path) : confined R (on_fs (FS.rm_r p)).
Proof.
  apply confined_on_fs. intros fs r fs' H T HT.
  destruct (rm_r_files _ _ _ _ H T HT); [by left|done].
Qed.

Lemma confined_rm (p : path) : confined R (on_fs (FS.rm p)).
Proof.
  apply confined_on_fs. intros fs r fs' H T HT.
  destruct (rm_files _ _ _ _ H T HT); [by left|done].
Qed.

Lemma confined_write (p : path) (d : data) :
  R p -> confined R (on_fs (FS.write p d)).
Proof. intros HR. apply confined_on_fs. intros fs r fs'. by apply write_files. Qed.

Lemma confined_cp (src dst : path) :
  R dst -> R (P dst (FS.basename src)) -> confined R (on_fs (FS.cp src dst)).
Proof.
  intros H1 H2. apply confined_on_fs. intros fs r fs'. by apply cp_files.
Qed.

End Confined.

Ltac confined_step :=
  first
    [ apply confined_ret | apply confined_raise | apply confined_gets
    | apply confined_cd | apply confined_mkdir | apply confined_emit
    | apply confined_rm_r | apply confined_rm | apply confined_on_heap
    | apply confined_bind; [|intros ?]
    | apply confined_for_each; intros ?
    | apply confined_try_except; [|intros ? ? ?]
    | match goal with
      | |- confined _ (if ?b then _ else _) => destruct b
      | |- confined _ (match ?x with _ => _ end) => destruct x
      | H : match ?e with _ => _ end = Some _ |- _ =>
          destruct e; try discriminate H
      | H : Some _ = Some _ |- _ => injection H as <-
      end ].

Ltac confined_tac := repeat confined_step.

Lemma region_rundir self m (rel : path) : region self m (rundir self ++ rel).
Proof. left. eauto. Qed.

Lemma region_rundir1 self m s : region self m (P (rundir self) s).
Proof. apply region_rundir. Qed.

Lemma region_rundir2 self m s1 s2 : region self m (P (P (rundir self) s1) s2).
Proof. unfold P. rewrite <- app_assoc. apply region_rundir. Qed.

Lemma region_outdir self m (rel : path) : region self m (outdir_of self m ++ rel).
Proof. right. right. eauto. Qed.

Lemma region_outdir0 self m : region self m (outdir_of self m).
Proof. right. right. exists []. by rewrite app_nil_r. Qed.

Lemma confined_clear_rundir self m : confined (region self m) (clear_rundir self).
Proof. unfold clear_rundir. confined_tac. Qed.

Lemma confined_get_template R self t : confined R (get_template self t).
Proof. unfold get_template. confined_tac. Qed.

Lemma confined_prepare self m : confined (region self m) (prepare self).
Proof.
  unfold prepare, write_namelist, write_field_table, write_diag_table,
    calendar_enabled.
  apply confined_bind; [apply confined_mkdir|intros _].
  apply confined_bind.
  { confined_tac. apply confined_write. apply region_rundir1. }
  intros _. apply confined_bind.
  { apply confined_cp; [apply region_rundir1 | apply region_rundir2]. }
  intros _. apply confined_bind.
  { destruct (negb _); [|apply confined_raise].
    apply confined_bind; [apply confined_get_template|intros _].
    confined_tac. apply confined_write. apply region_rundir1. }
  intros _. apply confined_for_each. intros f.
  apply confined_cp; [apply region_rundir2|].
  unfold P. rewrite <- !app_assoc. apply region_rundir.
Qed.

Lemma confined_launch E self m :
  confined (region self m) (launch E self (P (rundir self) "runmonth.sh")).
Proof.
  intros w r w'. unfold launch, bind, on_fs, FS.read.
  destruct (w_fs w !! P (rundir self) "runmonth.sh") as [[|d]|];
    simpl; try (intros [= <- <-]; apply files_within_refl).
  destruct (pr_ending _); intros [= <- <-]; simpl;
    apply graft_files; intros T HT;
    destruct (FS.strip (rundir self) T) as [rel|] eqn:Hs; try done;
    apply strip_Some in Hs as ->; apply region_rundir.
Qed.

Lemma confined_launch_and_wait E self m :
  confined (region self m) (launch_and_wait E self).
Proof.
  unfold launch_and_wait. apply confined_try_except.
  - apply confined_bind; [apply confined_launch|intros _; apply confined_ret].
  - intros e k Hk. destruct e; simpl in Hk; try discriminate Hk;
      injection Hk as <-;
      try (apply confined_bind; [apply confined_emit|intros _; apply confined_raise]).
    apply confined_bind; [apply confined_emit|intros _].
    apply confined_bind; [apply confined_clear_rundir|intros _].
    apply confined_ret.
Qed.

Lemma confined_archive_restart self m :
  confined (region self m) (archive_restart self m).
Proof.
  unfold archive_restart. confined_tac. apply confined_write.
  right. by left.
Qed.

Lemma confined_store_output self a :
  confined (region self (month a)) (store_output self a (outdir_of self (month a))).
Proof.
  unfold store_output. destruct (light a).
  - apply confined_bind.
    { intros w r w'. unfold copy_nc, modify.
      destruct (FS.isdir _ _); intros [= <- <-]; simpl;
        [|apply files_within_refl].
      apply graft_files. intros T HT.
      destruct (FS.strip _ T) as [rel|] eqn:Hs; [|done].
      apply strip_Some in Hs as ->. apply region_outdir. }
    intros _. apply confined_bind.
    { apply confined_cp; [apply region_outdir0 | apply region_outdir]. }
    intros _. confined_tac.
  - apply confined_on_fs. intros fs r fs'. unfold FS.cp_a_contents.
    destruct (_ && _); intros [= <- <-]; [|apply files_within_refl].
    apply graft_files. intros T HT.
    destruct (FS.strip _ T) as [rel|] eqn:Hs; [|done].
    apply strip_Some in Hs as ->. apply region_outdir.
Qed.

(** ** A run that returns [True], step by step *)

Lemma get_template_same self t w r w' :
  get_template self t w = (r, w') -> w' = w.
Proof.
  unfold get_template, bind, gets, ret, raise.
  destruct (FS.isfile _ _); by intros [= <- <-].
Qed.

Lemma finish_true_inv E a rfile self w1 s' :
  finish E a rfile (self, w1) = (Ret true, s') ->
  exists w2 w3 w4 w5 w6 w7 w8,
    on_fs (FS.write (P (rundir self) "runmonth.sh")
                    (Script (script_vars self a rfile))) w1 = (Ret tt, w2) /\
    launch_and_wait E self w2 = (Ret true, w3) /\
    mkdir [outdir_of self (month a)] w3 = (Ret tt, w4) /\
    archive_restart self (month a) w4 = (Ret tt, w5) /\
    store_output self a (outdir_of self (month a)) w5 = (Ret tt, w6) /\
    clear_rundir self w6 = (Ret tt, w7) /\
    cd (rundir self) w7 = (Ret tt, w8) /\
    s' = (set_cur_month (month a) self, w8).
Proof.
  unfold finish. intros H.
  apply bind_Ret in H as (self0 & s0 & [= <- <-] & H).
  apply bind_Ret in H as ([] & s1 & Ht & H).
  apply on_world_inv in Ht as (w1' & Ht & ->).
  apply get_template_same in Ht as ->.
  apply bind_Ret in H as ([] & s2 & Hw & H).
  apply on_world_inv in Hw as (w2 & Hw & ->).
  apply bind_Ret in H as ([] & s3 & [= <-] & H).
  apply bind_Ret in H as (go_on & s4 & Hl & H). simpl in Hl.
  apply on_world_inv in Hl as (w3 & Hl & ->).
  destruct go_on; [|discriminate].
  apply bind_Ret in H as ([] & s5 & H5 & H).
  apply on_world_inv in H5 as (w4 & H5 & ->).
  apply bind_Ret in H as ([] & s6 & H6 & H).
  apply on_world_inv in H6 as (w5 & H6 & ->).
  apply bind_Ret in H as ([] & s7 & H7 & H).
  apply on_world_inv in H7 as (w6 & H7 & ->).
  apply bind_Ret in H as ([] & s8 & H8 & H).
  apply on_world_inv in H8 as (w7 & H8 & ->).
  apply bind_Ret in H as ([] & s9 & H9 & H).
  apply on_world_inv in H9 as (w8 & H9 & ->).
  injection H as <-.
  by exists w2, w3, w4, w5, w6, w7, w8.
Qed.

Lemma run_true_inv E a self w s' :
  run E a (self, w) = (Ret true, s') -> success E self a w s'.
Proof.
  intros H.
  assert (Hent : exists w0, entered self a w w0 /\
                   run_body E a (self, w0) = (Ret true, s')).
  { revert H. unfold run, entered, bind, gets. simpl.
    destruct (FS.isdir _ _) eqn:Hd; [|by eauto].
    destruct (_ || _); [|discriminate].
    unfold on_world, on_fs, FS.rm_r. simpl.
    apply isdir_lookup in Hd. rewrite Hd. eauto. }
  destruct Hent as (w0 & Hent & Hb).
  apply run_body_returns in Hb as (w1 & rfile & Hp & Hr & Hf).
  apply finish_true_inv in Hf
    as (w2 & w3 & w4 & w5 & w6 & w7 & w8 & ? & ? & ? & ? & ? & ? & ? & ?).
  by eapply (Success E self a w s' w0 w1 w2 w3 w4 w5 w6 w7 w8 rfile).
Qed.

(** The files that a run makes lie in its region. *)
Lemma run_true_confined E a self w s' :
  run E a (self, w) = (Ret true, s') ->
  files_within (region self (month a)) (w_fs w) (w_fs s'.2).
Proof.
  intros H.
  destruct (run_true_inv _ _ _ _ _ H)
    as [w0 w1 w2 w3 w4 w5 w6 w7 w8 rfile Hent Hprep Hres Hscr Hl Hmk Har Hst
        Hcl Hcd ->].
  simpl.
  apply (files_within_trans _ _ (w_fs w0)).
  { unfold entered in Hent. destruct (FS.isdir _ _).
    - destruct Hent as [_ ->]. simpl. intros T HT. left.
      by eapply prune_files.
    - subst w0. apply files_within_refl. }
  eapply files_within_trans; [by eapply confined_prepare|].
  eapply files_within_trans.
  { eapply (confined_write (region self (month a))); [|exact Hscr].
    apply region_rundir1. }
  eapply files_within_trans; [by eapply confined_launch_and_wait|].
  eapply files_within_trans; [by eapply confined_mkdir|].
  eapply files_within_trans; [by eapply confined_archive_restart|].
  eapply files_within_trans; [by eapply confined_store_output|].
  eapply files_within_trans; [by eapply confined_clear_rundir|].
  by eapply confined_cd.
Qed.

(** ** Paths of the standard layout *)

Lemma strip_app_both (d a b : path) : FS.strip (d ++ a) (d ++ b) = FS.strip a b.
Proof.
  induction d as [|x d IH]; [done|]. simpl. by rewrite String.eqb_refl.
Qed.

Lemma strip_None_inv (d p : path) :
  FS.strip d p = None <-> forall r, p <> d ++ r.
Proof.
  split.
  - intros H r ->. by rewrite strip_app in H.
  - intros H. destruct (FS.strip d p) as [r|] eqn:Hs; [|done].
    apply strip_Some in Hs. by destruct (H r).
Qed.

(** A directory that is not below [d] has nothing of its own below a
    proper extension of [d]. *)
Lemma strip_ext_None (d p a : path) (s : string) :
  FS.strip d p = None -> a <> [] -> FS.strip (d ++ a) (p ++ [s]) = None.
Proof.
  intros Hd Ha. apply strip_None_inv. intros r Hr.
  rewrite strip_None_inv in Hd.
  destruct (decide (a ++ r = [])) as [He|Hne].
  - apply app_eq_nil in He as [-> _]. done.
  - destruct (exists_last Hne) as (r' & y & Hy).
    rewrite <- app_assoc, Hy, app_assoc in Hr.
    apply app_inj_tail in Hr as [Hr _]. by apply (Hd r').
Qed.

Lemma strip_below_None (d p : path) (s : string) :
  FS.strip d p = None -> FS.strip p d = None -> FS.strip d (p ++ [s]) = None.
Proof.
  intros Hd Hp. apply strip_None_inv. intros r Hr.
  rewrite strip_None_inv in Hd, Hp.
  destruct r as [|x r _] using rev_ind.
  - rewrite app_nil_r in Hr. by apply (Hp [s]).
  - rewrite app_assoc in Hr. apply app_inj_tail in Hr as [Hr _].
    by apply (Hd r).
Qed.

Lemma basename_P (d : path) (s : string) : FS.basename (P d s) = s.
Proof. unfold FS.basename, P. apply last_last. Qed.

Lemma parent_P (d : path) (s : string) : FS.parent (P d s) = d.
Proof. unfold FS.parent, P. apply removelast_last. Qed.

Lemma P_inj (d1 d2 : path) (s1 s2 : string) : P d1 s1 = P d2 s2 -> d1 = d2 /\ s1 = s2.
Proof. unfold P. apply app_inj_tail. Qed.

Lemma string_length_app (x s : string) :
  String.length (x +:+ s) = (String.length x + String.length s)%nat.
Proof. induction x as [|c x IH]; simpl; [done | by rewrite IH]. Qed.

Lemma append_inj_r (x y s : string) : x +:+ s = y +:+ s -> x = y.
Proof.
  revert y. induction x as [|c x IH]; intros [|c' y] H; simpl in *.
  - done.
  - exfalso. apply (f_equal String.length) in H.
    rewrite !string_length_app in H. simpl in H. lia.
  - exfalso. apply (f_equal String.length) in H.
    rewrite !string_length_app in H. simpl in H. lia.
  - injection H as -> H. by rewrite (IH _ H).
Qed.

(** The archive names of two months are those of one month. *)
Lemma res_name_inj (k1 k2 : Z) :
  "res_" +:+ fmt_d k1 +:+ ".cpio" = "res_" +:+ fmt_d k2 +:+ ".cpio" -> k1 = k2.
Proof.
  intros H. simpl in H. injection H as H. change ("" +:+ ?x) with x in H.
  apply append_inj_r in H. by apply (inj pretty) in H.
Qed.

Lemma mkdir_from_target (rest : list string) :
  forall (base : path) (fs fs' : gmap path node),
  FS.mkdir_from base rest fs = Some fs' -> rest <> [] ->
  fs' !! (base ++ rest) = Some Dir.
Proof.
  induction rest as [|s rest IH]; intros base fs fs' H Hne; [done|].
  simpl in H.
  assert (Hrec : FS.mkdir_from (base ++ [s]) rest (<[base ++ [s] := Dir]> fs)
                 = Some fs').
  { destruct (fs !! (base ++ [s])) as [[|d]|]; done. }
  destruct rest as [|s' rest].
  - injection Hrec as <-. apply lookup_insert_eq.
  - apply IH in Hrec; [|done]. by rewrite <- app_assoc in Hrec.
Qed.

Lemma graft_lookup_dst (dst : path) (es : list (path * node))
    (fs : gmap path node) :
  Forall (fun e => e.1 <> []) es -> FS.graft dst es fs !! dst = fs !! dst.
Proof.
  induction 1 as [|[rel n] es Hrel _ IH]; [done|]. simpl in *.
  rewrite lookup_insert_ne; [done|]. intros Heq.
  apply (f_equal length) in Heq. rewrite length_app in Heq.
  destruct rel; [done|]. simpl in Heq. lia.
Qed.

Lemma matching_nonempty (pat : string -> bool) (src : path)
    (fs : gmap path node) :
  Forall (fun e => e.1 <> []) (FS.matching pat src fs).
Proof.
  unfold FS.matching. apply Forall_forall. intros [rel n] Hin.
  apply list_elem_of_In, filter_In in Hin as [_ Hp]. simpl in *.
  by destruct rel.
Qed.

(** ** The restart archives under the light policy *)

Lemma archive_restart_inv self m w4 w5 :
  archive_restart self m w4 = (Ret tt, w5) ->
  exists c,
    w_fs w5 = FS.prune (P (rundir self) "RESTART")
                (<[get_restart_file self m := File (Cpio c)]> (w_fs w4)) /\
    FS.isdir (get_restart_file self m) (w_fs w4) = false.
Proof.
  unfold archive_restart. intros H.
  apply bind_Ret in H as ([] & wa & Hcd & H).
  assert (w_fs wa = w_fs w4) as Hwa.
  { unfold cd in Hcd. destruct (FS.isdir _ _); [|discriminate].
    by injection Hcd as <-. }
  apply bind_Ret in H as (c & wb & [= <- <-] & H).
  apply bind_Ret in H as ([] & wc & Hw & H).
  apply on_fs_inv in Hw as (f1 & Hw & ->).
  apply write_inv in Hw as (-> & _ & Hnd).
  apply on_fs_inv in H as (f2 & H & ->).
  injection H as _ <-. simpl. rewrite Hwa in *. eauto.
Qed.

Lemma store_output_light_inv self a w5 w6 :
  light a = true ->
  FS.isdir (outdir_of self (month a)) (w_fs w5) = true ->
  store_output self a (outdir_of self (month a)) w5 = (Ret tt, w6) ->
  let m := month a in
  let rs k := get_restart_file self k in
  let cp k := P (outdir_of self k) ("res_" +:+ fmt_d k +:+ ".cpio") in
  exists d fs',
    FS.graft (outdir_of self m) (FS.matching glob_nc (rundir self) (w_fs w5))
             (w_fs w5) !! rs m = Some (File d) /\
    fs' = <[cp m := File d]>
            (FS.graft (outdir_of self m)
                      (FS.matching glob_nc (rundir self) (w_fs w5)) (w_fs w5)) /\
    (m <= 1 -> w_fs w6 = fs') /\
    (1 < m ->
       FS.isfile (rs (m - 1)) (w_fs w6) = false /\
       FS.isfile (cp (m - 1)) (w_fs w6) = false /\
       forall q, q <> rs (m - 1) -> q <> cp (m - 1) -> w_fs w6 !! q = fs' !! q).
Proof.
  intros Hlight Hod H m rs cp. unfold store_output in H.
  rewrite Hlight in H. fold m in H.
  apply bind_Ret in H as ([] & wa & Hnc & H).
  assert (Hwa : w_fs wa = FS.graft (outdir_of self m)
                  (FS.matching glob_nc (rundir self) (w_fs w5)) (w_fs w5)).
  { unfold copy_nc, modify in Hnc. fold m in Hod. rewrite Hod in Hnc.
    by injection Hnc as <-. }
  assert (Hoda : FS.isdir (outdir_of self m) (w_fs wa) = true).
  { rewrite Hwa. unfold FS.isdir.
    rewrite graft_lookup_dst by apply matching_nonempty. exact Hod. }
  apply bind_Ret in H as ([] & wb & Hcp & H).
  apply on_fs_inv in Hcp as (f1 & Hcp & ->).
  apply cp_inv in Hcp as (d & Hsrc & ->).
  rewrite Hoda in *. rewrite basename_P in *.
  fold (outdir_of self m) in *. rewrite Hwa in Hsrc.
  exists d, (<[cp m := File d]> (w_fs wa)). split; [exact Hsrc|].
  split; [by rewrite Hwa|]. split.
  - intros Hm. apply Z.ltb_ge in Hm. fold m in H. rewrite Hm in H.
    by injection H as <-.
  - intros Hm. pose proof Hm as Hm'. apply Z.ltb_lt in Hm'. fold m in H.
    rewrite Hm' in H.
    apply bind_Ret in H as ([] & wc & Hrm1 & H).
    assert (H1 : FS.isfile (rs (m - 1)) (w_fs wc) = false /\
                 forall q, q <> rs (m - 1) ->
                   w_fs wc !! q = (<[cp m := File d]> (w_fs wa)) !! q).
    { revert Hrm1. unfold try_except, on_fs. simpl.
      destruct (FS.rm _ _) as [[[]|e] f2] eqn:Hrm; simpl.
      - intros [= <-]. simpl. by apply rm_any in Hrm.
      - apply rm_any in Hrm. destruct e; try discriminate.
        destruct code as [|[]|]; try discriminate.
        by intros [= <-]. }
    destruct H1 as [H1 H1'].
    apply on_fs_inv in H as (f3 & Hrm2 & ->). simpl.
    apply rm_any in Hrm2 as [H2 H2']. split; [|split; [done|]].
    + destruct (decide (rs (m - 1) = cp (m - 1))) as [He|Hne].
      * by rewrite He.
      * unfold FS.isfile in *. by rewrite (H2' _ Hne).
    + intros q Hq1 Hq2. rewrite (H2' _ Hq2). by apply H1'.
Qed.

Lemma cd_fs (d : path) (r : res unit) w w' : cd d w = (r, w') -> w_fs w' = w_fs w.
Proof. unfold cd. destruct (FS.isdir _ _); by intros [= _ <-]. Qed.

Lemma clear_rundir_isfile self w w' (T : path) :
  clear_rundir self w = (Ret tt, w') ->
  FS.strip (rundir self) T = None ->
  FS.isfile T (w_fs w') = FS.isfile T (w_fs w).
Proof.
  unfold clear_rundir. intros H HT.
  apply bind_Ret in H as ([] & wa & Hcd & H). apply cd_fs in Hcd.
  apply bind_Ret in H as ([] & wb & Hrm & H).
  assert (Hb : w_fs wb = FS.prune (rundir self) (w_fs wa)).
  { revert Hrm. unfold try_except, on_fs, FS.rm_r. simpl.
    destruct (w_fs wa !! rundir self); simpl; by intros [= <-]. }
  apply on_fs_inv in H as (f & H & ->). simpl.
  rewrite (mkdir_all_files _ _ _ _ _ H T). unfold FS.isfile.
  by rewrite Hb, prune_lookup, HT, Hcd.
Qed.

Lemma strip_longer_None (d a p : path) :
  FS.strip d p = None -> FS.strip (d ++ a) p = None.
Proof.
  rewrite !strip_None_inv. intros H r ->. apply (H (a ++ r)).
  by rewrite app_assoc.
Qed.

Section Layout.
Variable self : Experiment.
Hypothesis Hlayout : layout self.

Local Abbreviation rs k := (get_restart_file self k).
Local Abbreviation cp k := (P (outdir_of self k) ("res_" +:+ fmt_d k +:+ ".cpio")).

Lemma rundir_not_above_restart k : FS.strip (rundir self) (rs k) = None.
Proof.
  destruct Hlayout as (-> & Hrst & _). unfold get_restart_file.
  rewrite Hrst. unfold P. rewrite <- !app_assoc. by rewrite strip_app_both.
Qed.

Lemma rundir_not_above_outdir k : FS.strip (rundir self) (outdir_of self k) = None.
Proof.
  destruct Hlayout as (_ & _ & Hrd & Hdr & _). unfold outdir_of, P.
  by apply strip_below_None.
Qed.

Lemma outdir_not_above_rundir k : FS.strip (outdir_of self k) (rundir self) = None.
Proof.
  destruct Hlayout as (_ & _ & Hrd & Hdr & _). unfold outdir_of, P.
  by apply strip_longer_None.
Qed.

Lemma rundir_not_above_copy k : FS.strip (rundir self) (cp k) = None.
Proof.
  unfold P. apply strip_below_None.
  - apply rundir_not_above_outdir.
  - apply outdir_not_above_rundir.
Qed.

Lemma restart_not_outdir k j : rs k <> outdir_of self j.
Proof.
  destruct Hlayout as (_ & _ & _ & _ & Hdrs). unfold get_restart_file, outdir_of.
  intros [He _]%P_inj. rewrite He, strip_self in Hdrs. discriminate.
Qed.

Lemma restart_not_copy k j : rs k <> cp j.
Proof.
  destruct Hlayout as (_ & _ & _ & _ & Hdrs). unfold get_restart_file, outdir_of.
  intros [He _]%P_inj. unfold P in He. rewrite He, strip_app in Hdrs.
  discriminate.
Qed.

Lemma restart_inj k j : rs k = rs j -> k = j.
Proof.
  unfold get_restart_file. intros [_ He]%P_inj. by apply res_name_inj.
Qed.

Lemma copy_inj k j : cp k = cp j -> k = j.
Proof. intros [_ He]%P_inj. by apply res_name_inj. Qed.

Lemma outdir_not_above_restart k j : FS.strip (outdir_of self j) (rs k) = None.
Proof.
  destruct Hlayout as (_ & _ & _ & _ & Hdrs). unfold get_restart_file, outdir_of, P.
  by apply strip_ext_None.
Qed.

Lemma isdir_outdir_after_archive m w3 w4 w5 :
  mkdir [outdir_of self m] w3 = (Ret tt, w4) ->
  archive_restart self m w4 = (Ret tt, w5) ->
  FS.isdir (outdir_of self m) (w_fs w5) = true.
Proof.
  intros Hmk Har.
  apply mkdir_one_inv in Hmk as (f & Hmk & ->).
  apply (mkdir_from_target _ []) in Hmk; [|unfold outdir_of, P; by destruct (datadir self)].
  apply archive_restart_inv in Har as (c & Hw5 & _).
  apply isdir_lookup. rewrite Hw5, prune_lookup.
  unfold P at 1. rewrite strip_longer_None by apply rundir_not_above_outdir.
  rewrite lookup_insert_ne by apply restart_not_outdir. exact Hmk.
Qed.

End Layout.

(** What a light run of a month after the first leaves of the restarts:
    the archive of the month, and neither the archive of the month before
    nor the copy of it in that month's output directory. *)
Lemma light_run_restarts E a self w s' :
  layout self -> light a = true ->
  run E a (self, w) = (Ret true, s') ->
  let m := month a in
  FS.isfile (get_restart_file self m) (w_fs s'.2) = true /\
  (1 < m ->
   FS.isfile (get_restart_file self (m - 1)) (w_fs s'.2) = false /\
   FS.isfile (P (outdir_of self (m - 1)) ("res_" +:+ fmt_d (m - 1) +:+ ".cpio"))
             (w_fs s'.2) = false).
Proof.
  intros (Hrun & Hrst & Hrd & Hdr & Hdrs) Hlight H m.
  destruct (run_true_inv _ _ _ _ _ H)
    as [w0 w1 w2 w3 w4 w5 w6 w7 w8 rfile Hent Hprep Hres Hscr Hl Hmk Har Hst
        Hcl Hcd ->].
  simpl. fold m in Hmk, Har, Hst.
  pose proof (conj Hrun (conj Hrst (conj Hrd (conj Hdr Hdrs)))) as Hlay.
  pose proof (isdir_outdir_after_archive self Hlay m _ _ _ Hmk Har) as Hod.
  destruct (store_output_light_inv self a w5 w6 Hlight Hod Hst)
    as (d & fs' & Hsrc & Hfs' & Hle & Hgt).
  fold m in Hsrc, Hfs', Hle, Hgt.
  rewrite (cd_fs _ _ _ _ Hcd).
  assert (Hm : fs' !! get_restart_file self m = Some (File d)).
  { rewrite Hfs', lookup_insert_ne by (apply not_eq_sym, restart_not_copy; done).
    exact Hsrc. }
  split.
  - rewrite (clear_rundir_isfile _ _ _ _ Hcl)
      by (by apply rundir_not_above_restart).
    apply isfile_lookup. exists d. destruct (Z.le_gt_cases m 1) as [H1|H1].
    + by rewrite (Hle H1).
    + destruct (Hgt H1) as (_ & _ & Hq). rewrite Hq.
      * done.
      * intros He. apply restart_inj in He. lia.
      * by apply restart_not_copy.
  - intros H1. destruct (Hgt H1) as (Hr & Hc & _).
    rewrite !(clear_rundir_isfile _ _ _ _ Hcl); [done| |].
    + by apply rundir_not_above_copy.
    + by apply rundir_not_above_restart.
Qed.


Lemma run_true_self E a self w s' :
  run E a (self, w) = (Ret true, s') -> s'.1 = set_cur_month (month a) self.
Proof.
  intros H.
  by destruct (run_true_inv _ _ _ _ _ H)
    as [? ? ? ? ? ? ? ? ? ? _ _ _ _ _ _ _ _ _ _ ->].
Qed.


Lemma layout_set_cur_month (m : Z) (self : Experiment) :
  layout (set_cur_month m self) <-> layout self.
Proof. reflexivity. Qed.



(** ** The statements about a run, at the small installation *)

(** Month 2 of a new experiment: the restart of month 1 was never
    archived, and the run ends with [SystemExit(2)] before anything is
    launched. *)
Lemma restart_resolved_from_previous_month_witness :
  let E := Fixture.env Exited in
  let a := Fixture.light_args 2 in
  let w := Fixture.w1 in
  let w1 := (prepare Fixture.exp0 w).2 in
  (entered Fixture.exp0 a w w /\ prepare Fixture.exp0 w = (Ret tt, w1)) /\
  w_trace w1 = w_trace w /\
  run E a (Fixture.exp0, w) = (Raise (SystemExit 2), (Fixture.exp0, w1)).
Proof.
  intros E a w w1.
  assert (He : entered Fixture.exp0 a w w) by vm_cast_no_check (@eq_refl _ w).
  assert (Hp : prepare Fixture.exp0 w = (Ret tt, w1))
    by (apply (result_eta (prepare Fixture.exp0 w) tt); by_vm).
  split; [exact (conj He Hp)|].
  destruct (restart_resolved_from_previous_month E a Fixture.exp0 w w w1 He Hp)
    as (Ht & Hr & _ & _).
  split; [exact Ht|].
  destruct (Hr eq_refl eq_refl) as (_ & Hmiss & _).
  apply Hmiss. by_vm.
Defined.

(** The first month of a new experiment, run to its end; and a child that
    dies with status 1 while the run waits for it. *)
Lemma scratch_cleared_when_run_returns_witness :
  let a := Fixture.light_args 1 in
  let self := Fixture.exp0 in
  let r := run (Fixture.env Exited) a (self, Fixture.w1) in
  let E' := Fixture.env (Died (ErrorReturnCode 1)) in
  let script := P (rundir self) "runmonth.sh" in
  let ready :=
    (on_fs (FS.write script (Script (script_vars self a None)))
           (prepare self Fixture.w1).2).2 in
  let l := launch E' self script ready in
  ((entered self a Fixture.w1 Fixture.w1 /\ r = (Ret true, r.2)) /\
   scratch_cleared self (w_fs r.2.2)) /\
  ((l = (Raise (ErrorReturnCode 1), l.2) /\
    is_Exception (ErrorReturnCode 1) = true) /\
   exists w2, launch_and_wait E' self ready = (Raise (ErrorReturnCode 1), w2) /\
     w_fs w2 = w_fs l.2 /\ w_trace w2 = w_trace l.2 ++ [Kill]).
Proof.
  intros a self r E' script ready l.
  assert (He : entered self a Fixture.w1 Fixture.w1)
    by vm_cast_no_check (@eq_refl _ Fixture.w1).
  assert (Hr : r = (Ret true, r.2)) by (apply result_eta; by_vm).
  assert (Hl : l = (Raise (ErrorReturnCode 1), l.2))
    by (apply result_eta_Raise; by_vm).
  destruct scratch_cleared_when_run_returns as [Hret Hexc].
  split.
  - split; [exact (conj He Hr)|].
    exact (proj1 (Hret (Fixture.env Exited) a self Fixture.w1 Fixture.w1 true
                       r.2 He Hr)).
  - split; [exact (conj Hl eq_refl)|].
    exact (Hexc E' self ready _ l.2 Hl eq_refl).
Defined.

(** C2.  A run whose child fails does not clear its run directory.  The
    first month of a new experiment, with a child that dies with status 1
    while the run waits for it: the handler of [except Exception] kills the
    child and raises the exception again without the call of
    [clear_rundir] that the handler of [KeyboardInterrupt] and the end of a
    successful run make.  [run] raises [ErrorReturnCode 1], the trace is
    the launch and the kill, and the namelist file of the run is still in
    the run directory, which is not cleared. *)
Lemma failed_run_leaves_its_scratch :
  let E := Fixture.env (Died (ErrorReturnCode 1)) in
  let a := Fixture.light_args 1 in
  let r := run E a (Fixture.exp0, Fixture.w1) in
  r.1 = Raise (ErrorReturnCode 1) /\
  w_trace r.2.2 = [Launch (Script (script_vars Fixture.exp0 a None)); Kill] /\
  FS.isfile (P (rundir Fixture.exp0) "input.nml") (w_fs r.2.2) = true /\
  ~ scratch_cleared Fixture.exp0 (w_fs r.2.2).
Proof.
  intros E a r.
  assert (Hf : FS.isfile (P (rundir Fixture.exp0) "input.nml") (w_fs r.2.2)
               = true) by by_vm.
  split; [by_vm|]. split; [by_vm|]. split; [exact Hf|].
  intros Hc. apply isfile_lookup in Hf as [d Hd].
  pose proof (Hc (P (rundir Fixture.exp0) "input.nml") "input.nml" []
                 eq_refl) as Hn.
  congruence.
Qed.



(** A table without files; and the table of the small installation, written
    to the working directory of the experiment. *)
Lemma diag_table_needs_an_output_file_witness :
  let empty := use_diag_table DiagTable.init Fixture.exp0 in
  let self := Fixture.exp0 in
  let w := Fixture.w1 in
  let outdir := workdir self in
  (DiagTable.files (diag_table empty) = [] /\
   write_diag_table empty outdir w = (Raise ValueError, w)) /\
  ((DiagTable.files (diag_table self) <> [] /\
    FS.isfile (P (template_dir self) "diag_table") (w_fs w) = true /\
    (Heap.view (namelist self) (w_heap w) !! "main_nml")
      ≫= (fun vars => vars !! "calendar") = Some (VStr "thirty_day") /\
    FS.isdir outdir (w_fs w) = true /\
    FS.isdir (P outdir "diag_table") (w_fs w) = false) /\
   write_diag_table self outdir w =
     (Ret tt,
      with_fs (<[P outdir "diag_table" :=
                   File (DiagText true
                           (Dict.values (DiagTable.files (diag_table self))))]>
                 (w_fs w)) w)).
Proof.
  intros empty self w outdir.
  assert (Hne : DiagTable.files (diag_table self) <> []) by discriminate.
  assert (Ht : FS.isfile (P (template_dir self) "diag_table") (w_fs w) = true)
    by by_vm.
  assert (Hcal : (Heap.view (namelist self) (w_heap w) !! "main_nml")
                   ≫= (fun vars => vars !! "calendar")
                 = Some (VStr "thirty_day")) by by_vm.
  assert (Hd : FS.isdir outdir (w_fs w) = true) by by_vm.
  assert (Hnd : FS.isdir (P outdir "diag_table") (w_fs w) = false) by by_vm.
  split.
  - split; [reflexivity|].
    exact (proj1 (diag_table_needs_an_output_file empty outdir w) eq_refl).
  - split; [exact (conj Hne (conj Ht (conj Hcal (conj Hd Hnd))))|].
    exact (proj2 (diag_table_needs_an_output_file self outdir w) Hne
                 "thirty_day" Ht Hcal Hd Hnd).
Defined.

(** The first month once more, after it has run: without an overwrite
    policy the second call returns [False] and changes nothing. *)
Lemma existing_output_is_skipped_or_destroyed_witness :
  let E := Fixture.env Exited in
  let a := Fixture.light_args 1 in
  let self := Fixture.exp0 in
  let w := (run E a (self, Fixture.w1)).2.2 in
  FS.isdir (outdir_of self (month a)) (w_fs w) = true /\
  run E a (self, w) = (Ret false, (self, w)).
Proof.
  intros E a self w.
  assert (Hd : FS.isdir (outdir_of self (month a)) (w_fs w) = true) by by_vm.
  split; [exact Hd|].
  exact (proj1 (existing_output_is_skipped_or_destroyed E a self w Hd) eq_refl).
Defined.

(** * Further properties of the driver *)

(** ** Loops *)

Lemma for_each_app {S A} (xs ys : list A) (body : A -> M S unit) (s : S) :
  for_each (xs ++ ys) body s = (for_each xs body >> for_each ys body) s.
Proof.
  revert s. induction xs as [|x xs IH]; intros s; simpl.
  - reflexivity.
  - unfold bind. destruct (body x s) as [[[]|e] s1]; [|reflexivity].
    apply IH.
Qed.

(** ** [DiagTable.add_field] with a list of files *)

Lemma attach_keeps_absent f fname (k : string) self r self' :
  DiagTable.attach f fname self = (r, self') ->
  Dict.get k (DiagTable.files self) = None ->
  Dict.get k (DiagTable.files self') = None.
Proof.
  unfold DiagTable.attach.
  destruct (Dict.get fname (DiagTable.files self)) as [rec|] eqn:Hf.
  - intros [= _ <-] Hk. simpl. rewrite Dict_get_set_ne; [done|].
    intros ->. congruence.
  - by intros [= _ <-].
Qed.

Lemma attach_loop_keeps_absent f (k : string) (ks : list string) :
  forall self r self',
  for_each ks (DiagTable.attach f) self = (r, self') ->
  Dict.get k (DiagTable.files self) = None ->
  Dict.get k (DiagTable.files self') = None.
Proof.
  induction ks as [|k0 ks IH]; intros self r self' H Hk.
  - by injection H as _ <-.
  - simpl in H. unfold bind in H.
    destruct (DiagTable.attach f k0 self) as [[[]|e] s1] eqn:Ha.
    + eapply IH; [exact H|]. by eapply attach_keeps_absent.
    + injection H as _ <-. by eapply attach_keeps_absent.
Qed.

(** X1.  [add_field] with an explicit list of files in which a name is not a
    file of the table: [KeyError] for that name, raised when the loop gets
    to it.  The files named before it have the field by then, and keep it:
    the table is left as [add_field] with the names before the unknown
    one leaves it, and the names after it are not looked at. *)
Theorem add_field_unknown_file_raises_midway
    (module name : string) (time_avg : bool) (pre post : list string)
    (bad : string) (self mid : DiagTable.t) :
  Dict.get bad (DiagTable.files self) = None ->
  DiagTable.add_field module name time_avg (Some pre) self = (Ret tt, mid) ->
  DiagTable.add_field module name time_avg (Some (pre ++ bad :: post)) self
    = (Raise (KeyError bad), mid).
Proof.
  unfold DiagTable.add_field, bind, ret. intros Hbad Hpre.
  rewrite for_each_app. unfold bind. rewrite Hpre. simpl. unfold bind.
  unfold DiagTable.attach at 1.
  by rewrite (attach_loop_keeps_absent _ _ _ _ _ _ Hpre Hbad).
Qed.

Lemma add_field_unknown_file_raises_midway_witness :
  let self := DiagTable.add_file "daily" (VInt 1) "days" None DiagTable.init in
  let fld := mk_field "dynamics" "ucomp" true in
  let mid := DiagTable.mk [("daily", mk_outfile "daily" (VInt 1) "days" "days" [fld])] in
  (Dict.get "monthly" (DiagTable.files self) = None /\
   DiagTable.add_field "dynamics" "ucomp" true (Some ["daily"]) self
     = (Ret tt, mid)) /\
  DiagTable.add_field "dynamics" "ucomp" true (Some ["daily"; "monthly"]) self
    = (Raise (KeyError "monthly"), mid).
Proof.
  intros self fld mid.
  assert (H1 : Dict.get "monthly" (DiagTable.files self) = None)
    by reflexivity.
  assert (H2 : DiagTable.add_field "dynamics" "ucomp" true (Some ["daily"]) self
               = (Ret tt, mid)) by reflexivity.
  split; [exact (conj H1 H2)|].
  exact (add_field_unknown_file_raises_midway "dynamics" "ucomp" true
           ["daily"] [] "monthly" self mid H1 H2).
Defined.

(** ** [check_path_names] *)

Section PathNamesFacts.
Variable join : path -> string -> path.

Lemma check_loop_spec (self : Experiment) (fs : gmap path node) (todo : list string) :
  forall new missing : list string,
  check_loop join self fs todo new missing =
    (new ++ List.filter
              (fun f => FS.isfile (join (P (srcdir self) "src") f) fs) todo,
     missing ++ List.filter
                  (fun f => negb (FS.isfile (join (P (srcdir self) "src") f) fs))
                  todo).
Proof.
  induction todo as [|f todo IH]; intros new missing; simpl.
  - by rewrite !app_nil_r.
  - destruct (FS.isfile _ fs); simpl; rewrite IH, <- app_assoc; done.
Qed.

(** X2.  [check_path_names]: the path names whose file is there are kept, in
    their order, unless the tolerance is not negative and as many files as
    the tolerance or more are missing; then it is [CompilationError] and
    [self.path_names] is not assigned. *)
Theorem check_path_names_keeps_the_files_found
    (self : Experiment) (attrs : build_attrs)
    (fs : gmap path node) :
  let present f := FS.isfile (join (P (srcdir self) "src") f) fs in
  let missing := List.filter (fun f => negb (present f)) (path_names self) in
  let tol := missing_file_tol attrs in
  check_path_names join self attrs fs =
    if decide (0 <= tol <= Z.of_nat (length missing))
    then CompilationError (length missing) tol
    else Checked (set_path_names (List.filter present (path_names self)) self).
Proof.
  intros present missing tol. unfold check_path_names.
  rewrite check_loop_spec. simpl.
  change (List.filter (fun f => negb (FS.isfile (join (P (srcdir self) "src") f) fs))
                      (path_names self)) with missing.
  fold tol.
  destruct (decide (0 <= tol <= Z.of_nat (length missing))) as [H|H].
  - assert (Z.geb (Z.of_nat (length missing)) tol = true) as -> by lia.
    assert (Z.geb tol 0 = true) as -> by lia. done.
  - destruct (Z.geb (Z.of_nat (length missing)) tol) eqn:H1;
      destruct (Z.geb tol 0) eqn:H2; simpl; try done.
    exfalso. apply H. lia.
Qed.

(** X3.  The tolerance 0 stops every compilation, also one of which no file is
    missing; a negative tolerance stops none. *)
Theorem check_path_names_tolerance_zero_and_negative
    (self : Experiment) (attrs : build_attrs)
    (fs : gmap path node) :
  (missing_file_tol attrs = 0 ->
     exists n, check_path_names join self attrs fs = CompilationError n 0) /\
  (missing_file_tol attrs < 0 ->
     exists l, check_path_names join self attrs fs
               = Checked (set_path_names l self) /\
       forall f, f ∈ l <->
         f ∈ path_names self /\
         FS.isfile (join (P (srcdir self) "src") f) fs = true).
Proof.
  split; intros Htol.
  - eexists. unfold check_path_names. rewrite Htol.
    assert (Z.geb (Z.of_nat
              (length (check_loop join self fs (path_names self) [] []).2)) 0
            = true) as -> by (apply Z.geb_le; lia).
    reflexivity.
  - eexists. split.
    + unfold check_path_names. rewrite check_loop_spec. simpl.
      assert (Z.geb (missing_file_tol attrs) 0 = false) as -> by lia.
      by rewrite andb_false_r.
    + intros f. rewrite list_elem_of_In, filter_In, <- list_elem_of_In. done.
Qed.

End PathNamesFacts.

Lemma check_path_names_tolerance_zero_and_negative_witness :
  let join (d : path) (f : string) := P d f in
  let self := set_path_names ["main.F90"] Fixture.exp0 in
  let fs : gmap path node :=
    {[ ["base"; "src"; "main.F90"] := File (Opaque "source") ]} in
  (missing_file_tol (mk_build_attrs [] 0) = 0 /\
   exists n, check_path_names join self (mk_build_attrs [] 0) fs
             = CompilationError n 0) /\
  (missing_file_tol (mk_build_attrs [] (-1)) < 0 /\
   exists l, check_path_names join self (mk_build_attrs [] (-1)) fs
             = Checked (set_path_names l self) /\
     forall f, f ∈ l <->
       f ∈ path_names self /\
       FS.isfile (join (P (srcdir self) "src") f) fs = true).
Proof.
  intros join self fs. split.
  - split; [reflexivity|].
    exact (proj1 (check_path_names_tolerance_zero_and_negative
                    join self (mk_build_attrs [] 0) fs) eq_refl).
  - split; [reflexivity|].
    exact (proj2 (check_path_names_tolerance_zero_and_negative
                    join self (mk_build_attrs [] (-1)) fs) eq_refl).
Defined.

(** ** Emptying a directory *)

(** [rm -r d] followed by [mkdir -p d]. *)
Lemma remade_directory (d : path) (fs fs' : gmap path node) :
  d <> [] ->
  FS.mkdir_from [] d (FS.prune d fs) = Some fs' ->
  FS.isdir d fs' = true /\
  (forall p c rest, FS.strip d p = Some (c :: rest) -> fs' !! p = None) /\
  (forall T : path, FS.strip d T = None -> FS.isfile T fs' = FS.isfile T fs).
Proof.
  intros Hd Hmk. split; [|split].
  - apply isdir_lookup. by apply (mkdir_from_target d [] _ _ Hmk).
  - intros p c rest Hp. apply strip_Some in Hp as ->.
    destruct (mkdir_from_lookup _ _ _ _ Hmk (d ++ c :: rest))
      as [Hl|(_ & r1 & r2 & Hd' & _ & Hr1)].
    + rewrite Hl, prune_lookup. by rewrite strip_app.
    + exfalso. simpl in Hr1. symmetry in Hr1. revert Hr1.
      by apply (app_cons_not_prefix _ _ r2).
  - intros T HT. rewrite (mkdir_from_files _ _ _ _ Hmk T).
    unfold FS.isfile. by rewrite prune_lookup, HT.
Qed.

Lemma rm_r_tolerant (d : path) (w : World) (r : res unit) (w' : World) :
  try_except (on_fs (FS.rm_r d))
             (fun e => match e with
                       | ErrorReturnCode 1 => Some (ret tt)
                       | _ => None
                       end) w = (r, w') ->
  r = Ret tt /\ w' = with_fs (FS.prune d (w_fs w)) w.
Proof.
  unfold try_except, on_fs, FS.rm_r.
  destruct (w_fs w !! d); simpl; by intros [= <- <-].
Qed.

(** X4.  [clear_workdir] that returns leaves the working directory as an empty
    directory, whether it was there or not: nothing lies below it, so the
    run directory, the executable and every restart archive of the
    experiment are gone.  Files that are not below the working directory
    are as they were. *)
Theorem clear_workdir_leaves_an_empty_directory
    (self : Experiment) (w w' : World) :
  workdir self <> [] ->
  clear_workdir self w = (Ret tt, w') ->
  FS.isdir (workdir self) (w_fs w') = true /\
  (forall p c rest, FS.strip (workdir self) p = Some (c :: rest) ->
                    w_fs w' !! p = None) /\
  (forall T : path, FS.strip (workdir self) T = None ->
                    FS.isfile T (w_fs w') = FS.isfile T (w_fs w)) /\
  (restartdir self = P (workdir self) "restarts" ->
   forall k, FS.isfile (get_restart_file self k) (w_fs w') = false).
Proof.
  intros Hd H. unfold clear_workdir in H.
  apply bind_Ret in H as ([] & w1 & Hrm & H).
  apply rm_r_tolerant in Hrm as [_ ->].
  apply mkdir_one_inv in H as (fs' & Hmk & ->). simpl in *.
  destruct (remade_directory _ _ _ Hd Hmk) as (H1 & H2 & H3).
  split; [done|]. split; [done|]. split; [done|].
  intros Hr k. unfold FS.isfile, get_restart_file. rewrite Hr.
  rewrite (H2 _ "restarts" ["res_" +:+ fmt_d k +:+ ".cpio"]); [done|].
  unfold P. rewrite <- app_assoc. apply strip_app.
Qed.

Lemma clear_workdir_leaves_an_empty_directory_witness :
  let self := Fixture.exp0 in
  let r := run (Fixture.env Exited) (Fixture.light_args 1) (self, Fixture.w1) in
  let w := r.2.2 in
  let c := clear_workdir self w in
  (workdir self <> [] /\ c = (Ret tt, c.2)) /\
  FS.isfile (get_restart_file self 1) (w_fs w) = true /\
  FS.isfile (get_restart_file self 1) (w_fs c.2) = false /\
  FS.isdir (workdir self) (w_fs c.2) = true.
Proof.
  intros self r w c.
  assert (Hd : workdir self <> []) by discriminate.
  assert (Hc : c = (Ret tt, c.2)) by (apply result_eta; by_vm).
  split; [exact (conj Hd Hc)|]. split; [by_vm|].
  destruct (clear_workdir_leaves_an_empty_directory self w c.2 Hd Hc)
    as (Hdir & _ & _ & Hres).
  split; [exact (Hres eq_refl 1)|exact Hdir].
Defined.

Lemma clear_rundir_post
    (self : Experiment) (w w' : World) :
  rundir self <> [] ->
  clear_rundir self w = (Ret tt, w') ->
  FS.isdir (rundir self) (w_fs w') = true /\
  scratch_cleared self (w_fs w') /\
  (forall T : path, FS.strip (rundir self) T = None ->
                    FS.isfile T (w_fs w') = FS.isfile T (w_fs w)) /\
  w_cwd w' = workdir self /\
  w_trace w' = w_trace w.
Proof.
  intros Hd H. pose proof (quiet_clear_rundir self _ _ _ H) as [Ht _].
  unfold clear_rundir in H.
  apply bind_Ret in H as ([] & w1 & Hcd & H).
  assert (Hw1 : w1 = with_cwd (workdir self) w).
  { unfold cd in Hcd. destruct (FS.isdir _ _); [|discriminate].
    by injection Hcd as <-. }
  subst w1.
  apply bind_Ret in H as ([] & w2 & Hrm & H).
  apply rm_r_tolerant in Hrm as [_ ->].
  apply mkdir_one_inv in H as (fs' & Hmk & ->). simpl in *.
  destruct (remade_directory _ _ _ Hd Hmk) as (H1 & H2 & H3).
  done.
Qed.

(** X5.  [clear_rundir] that returns leaves the run directory as an empty
    directory, with the working directory of the experiment as the current
    directory; files that are not below the run directory are as they
    were, and nothing is launched or killed. *)
Theorem clear_rundir_leaves_an_empty_directory
    (self : Experiment) (w w' : World) :
  rundir self <> [] ->
  clear_rundir self w = (Ret tt, w') ->
  FS.isdir (rundir self) (w_fs w') = true /\
  scratch_cleared self (w_fs w') /\
  (forall T : path, FS.strip (rundir self) T = None ->
                    FS.isfile T (w_fs w') = FS.isfile T (w_fs w)) /\
  w_cwd w' = workdir self /\
  w_trace w' = w_trace w.
Proof. apply clear_rundir_post. Qed.

Lemma clear_rundir_leaves_an_empty_directory_witness :
  let self := Fixture.exp0 in
  let E := Fixture.env (Died (ErrorReturnCode 1)) in
  let r := run E (Fixture.light_args 1) (self, Fixture.w1) in
  let w := r.2.2 in
  let c := clear_rundir self w in
  (rundir self <> [] /\ c = (Ret tt, c.2)) /\
  FS.isfile (P (rundir self) "input.nml") (w_fs w) = true /\
  scratch_cleared self (w_fs c.2) /\
  w_cwd c.2 = workdir self.
Proof.
  intros self E r w c.
  assert (Hd : rundir self <> []) by discriminate.
  assert (Hc : c = (Ret tt, c.2)) by (apply result_eta; by_vm).
  split; [exact (conj Hd Hc)|]. split; [by_vm|].
  destruct (clear_rundir_leaves_an_empty_directory self w c.2 Hd Hc)
    as (_ & Hs & _ & Hcwd & _).
  exact (conj Hs Hcwd).
Defined.

(** ** [disable_rrtm] *)

(** [nml[sec][name] = val] on a namelist that has the group [sec]. *)
Lemma setitem2_view (n : loc) (sec name : string) (val : value) (h : heap)
    (v : gmap string value) :
  Heap.closed n h -> Heap.unshared n h ->
  Heap.view n h !! sec = Some v ->
  exists h', Namelist.setitem2 n sec name val h = (Ret tt, h') /\
    Heap.closed n h' /\ Heap.unshared n h' /\
    Heap.view n h' = <[sec := <[name := val]> v]> (Heap.view n h).
Proof.
  intros Hc Hu Hv. pose proof Hc as [[gs Hn] Hgr].
  rewrite view_lookup in Hv.
  destruct (Heap.top n h !! sec) as [g|] eqn:Hsec; [|done]. simpl in Hv.
  pose proof (proj1 (group_Some _ _ _) Hv) as Hg.
  assert (Hne : g <> n) by (intros ->; by simplify_eq).
  set (h' := <[g := Group (<[name := val]> v)]> h).
  assert (Htop : Heap.top n h' = Heap.top n h).
  { unfold Heap.top, h'. by rewrite lookup_insert_ne. }
  exists h'. split; [|split; [|split]].
  - unfold Namelist.setitem2, Namelist.getitem, Namelist.group_setitem,
      bind, gets, ret, Heap.store. simpl. rewrite Hsec. simpl. by rewrite Hv.
  - split; [exists gs; unfold h'; by rewrite lookup_insert_ne|].
    rewrite Htop. intros s g' Hs. unfold Heap.group, h'.
    destruct (decide (g' = g)) as [->|Hn'].
    + rewrite lookup_insert_eq. eauto.
    + rewrite lookup_insert_ne by done. apply (Hgr s g' Hs).
  - unfold Heap.unshared. by rewrite Htop.
  - apply map_eq. intros s. rewrite view_lookup, Htop.
    destruct (decide (s = sec)) as [->|Hs].
    + rewrite lookup_insert_eq, Hsec. simpl. unfold Heap.group, h'.
      by rewrite lookup_insert_eq.
    + rewrite lookup_insert_ne by done. rewrite view_lookup.
      destruct (Heap.top n h !! s) as [g'|] eqn:Hs'; [|done]. simpl.
      unfold Heap.group, h'. rewrite lookup_insert_ne; [done|].
      intros <-. apply Hs. by apply (Hu s sec g).
Qed.

(** X6.  [disable_rrtm] on an experiment whose namelist has the group
    [idealized_moist_phys_nml]: the path names with [rrtm] in them are
    dropped, the others keep their order; the flag [-DRRTM_NO_COMPILE] is
    appended to the compile flags; in the group, [two_stream_gray] is
    [True] and [do_rrtm_radiation] is [False], and every other variable
    and every other group is as it was.  The file system is not touched. *)
Theorem disable_rrtm_sets_gray_radiation
    (self : Experiment) (attrs : build_attrs) (w : World)
    (v : gmap string value) :
  Heap.closed (namelist self) (w_heap w) ->
  Heap.unshared (namelist self) (w_heap w) ->
  Heap.view (namelist self) (w_heap w) !! "idealized_moist_phys_nml" = Some v ->
  exists h',
    disable_rrtm ((self, attrs), w) =
      (Ret tt,
       ((set_path_names
           (List.filter (fun p => negb (has_sub "rrtm" p)) (path_names self))
           self,
         mk_build_attrs (compile_flags attrs ++ ["-DRRTM_NO_COMPILE"])
                        (missing_file_tol attrs)),
        with_heap h' w)) /\
    Heap.view (namelist self) h' =
      <["idealized_moist_phys_nml" :=
          <["do_rrtm_radiation" := VBool false]>
            (<["two_stream_gray" := VBool true]> v)]>
        (Heap.view (namelist self) (w_heap w)).
Proof.
  intros Hc Hu Hv.
  destruct (setitem2_view _ _ "two_stream_gray" (VBool true) _ _ Hc Hu Hv)
    as (h1 & H1 & Hc1 & Hu1 & Hv1).
  assert (Hv1' : Heap.view (namelist self) h1 !! "idealized_moist_phys_nml"
                 = Some (<["two_stream_gray" := VBool true]> v)).
  { by rewrite Hv1, lookup_insert_eq. }
  destruct (setitem2_view _ _ "do_rrtm_radiation" (VBool false) _ _
              Hc1 Hu1 Hv1') as (h2 & H2 & _ & _ & Hv2).
  exists h2. split.
  - unfold disable_rrtm, bind, modify, gets, in_world, on_heap. simpl.
    rewrite H1. simpl. rewrite H2. reflexivity.
  - rewrite Hv2, Hv1. by rewrite insert_insert_eq.
Qed.

(** X7.  [disable_rrtm] on an experiment whose namelist has no group
    [idealized_moist_phys_nml]: [KeyError], raised after the path names
    have been filtered and the compile flag appended, which stay so. *)
Theorem disable_rrtm_without_the_group_raises_midway
    (self : Experiment) (attrs : build_attrs) (w : World) :
  Heap.top (namelist self) (w_heap w) !! "idealized_moist_phys_nml" = None ->
  disable_rrtm ((self, attrs), w) =
    (Raise (KeyError "idealized_moist_phys_nml"),
     ((set_path_names
         (List.filter (fun p => negb (has_sub "rrtm" p)) (path_names self))
         self,
       mk_build_attrs (compile_flags attrs ++ ["-DRRTM_NO_COMPILE"])
                      (missing_file_tol attrs)),
      w)).
Proof.
  intros Hno.
  unfold disable_rrtm, bind, modify, gets, in_world, on_heap,
    Namelist.setitem2, Namelist.getitem, raise. simpl.
  unfold bind, gets. simpl. rewrite Hno. simpl. by destruct w.
Qed.

Lemma disable_rrtm_sets_gray_radiation_witness :
  let made :=
    on_heap (Namelist.of_data
               {[ "idealized_moist_phys_nml" :=
                    {[ "two_stream_gray" := VBool false ]} ]}) Fixture.w0 in
  let w := made.2 in
  let self :=
    set_path_names ["atmos_param/rrtm_radiation/rrtm.F90"; "main.F90"]
      (set_namelist (value_of 1%positive made.1) Fixture.exp0) in
  let v : gmap string value := {[ "two_stream_gray" := VBool false ]} in
  (Heap.closed (namelist self) (w_heap w) /\
   Heap.unshared (namelist self) (w_heap w) /\
   Heap.view (namelist self) (w_heap w) !! "idealized_moist_phys_nml" = Some v) /\
  exists h',
    disable_rrtm ((self, init_attrs), w) =
      (Ret tt,
       ((set_path_names ["main.F90"] self,
         mk_build_attrs ["-DRRTM_NO_COMPILE"] 3),
        with_heap h' w)) /\
    Heap.view (namelist self) h' =
      <["idealized_moist_phys_nml" :=
          <["do_rrtm_radiation" := VBool false]>
            (<["two_stream_gray" := VBool true]> v)]>
        (Heap.view (namelist self) (w_heap w)).
Proof.
  intros made w self v.
  assert (Hc : Heap.closed (namelist self) (w_heap w))
    by (apply closedb_closed; by_vm).
  assert (Hu : Heap.unshared (namelist self) (w_heap w))
    by (apply unsharedb_unshared; by_vm).
  assert (Hv : Heap.view (namelist self) (w_heap w)
                 !! "idealized_moist_phys_nml" = Some v) by by_vm.
  split; [exact (conj Hc (conj Hu Hv))|].
  exact (disable_rrtm_sets_gray_radiation self init_attrs w v Hc Hu Hv).
Defined.

Lemma disable_rrtm_without_the_group_raises_midway_witness :
  let self :=
    set_path_names ["atmos_param/rrtm_radiation/rrtm.F90"; "main.F90"]
      Fixture.exp0 in
  let w := Fixture.w1 in
  Heap.top (namelist self) (w_heap w) !! "idealized_moist_phys_nml" = None /\
  disable_rrtm ((self, init_attrs), w) =
    (Raise (KeyError "idealized_moist_phys_nml"),
     ((set_path_names ["main.F90"] self,
       mk_build_attrs ["-DRRTM_NO_COMPILE"] 3), w)).
Proof.
  intros self w.
  assert (Hno : Heap.top (namelist self) (w_heap w)
                  !! "idealized_moist_phys_nml" = None) by by_vm.
  split; [exact Hno|].
  exact (disable_rrtm_without_the_group_raises_midway self init_attrs w Hno).
Defined.

(** ** Runs that stop before anything is launched *)

Lemma entered_absent (self : Experiment) a (w : World) :
  FS.isdir (outdir_of self (month a)) (w_fs w) = false -> entered self a w w.
Proof. intros H. unfold entered. by rewrite H. Qed.

Lemma mkdir_all_raises (ps : list path) :
  forall (failed : bool) (fs : gmap path node) (e : exn) (fs' : gmap path node),
  FS.mkdir_all ps failed fs = (Raise e, fs') -> e = ErrorReturnCode 1.
Proof.
  induction ps as [|p ps IH]; intros failed fs e fs' H; simpl in H.
  - destruct failed; [by injection H as <- _ | discriminate].
  - destruct (FS.mkdir_from [] p fs); eauto.
Qed.

Lemma mkdir_raises (ps : list path) (w : World) (e : exn) (w' : World) :
  mkdir ps w = (Raise e, w') -> e = ErrorReturnCode 1.
Proof.
  intros H. apply on_fs_inv in H as (f & H & _).
  by apply mkdir_all_raises in H.
Qed.

Lemma mkdir_isfile (ps : list path) (w : World) (r : res unit) (w' : World)
    (T : path) :
  mkdir ps w = (r, w') -> FS.isfile T (w_fs w') = FS.isfile T (w_fs w).
Proof.
  intros H. apply on_fs_inv in H as (f & H & ->). simpl.
  by apply (mkdir_all_files _ _ _ _ _ H).
Qed.

Lemma prepare_with_stale_namelist (self : Experiment) (w0 : World)
    (r : res unit) (w1 : World) :
  FS.isfile (P (rundir self) "input.nml") (w_fs w0) = true ->
  prepare self w0 = (r, w1) ->
  r = Raise (OSError (P (rundir self) "input.nml")) \/
  r = Raise (ErrorReturnCode 1).
Proof.
  intros Hf H. unfold prepare in H.
  destruct (mkdir [P (rundir self) "INPUT"; P (rundir self) "RESTART";
                   restartdir self] w0) as [[[]|e] wA] eqn:Hmk.
  - rewrite (bind_eq_Ret _ _ _ _ _ Hmk) in H.
    assert (Hw : write_namelist self (rundir self) wA
                 = (Raise (OSError (P (rundir self) "input.nml")), wA)).
    { unfold write_namelist, bind, gets.
      by rewrite (mkdir_isfile _ _ _ _ _ Hmk), Hf. }
    rewrite (bind_eq_Raise _ _ _ _ _ Hw) in H. injection H as <- _. by left.
  - rewrite (bind_eq_Raise _ _ _ _ _ Hmk) in H. injection H as <- _.
    right. by rewrite (mkdir_raises _ _ _ _ Hmk).
Qed.

Lemma run_body_unprepared E a (self : Experiment) (w0 : World) (e : exn)
    (w1 : World) :
  prepare self w0 = (Raise e, w1) ->
  run_body E a (self, w0) = (Raise e, (self, w1)).
Proof.
  intros H. unfold run_body, bind, gets, on_world. simpl. by rewrite H.
Qed.

(** X8.  A run that finds [input.nml] in the run directory, left by a run
    that did not clear it: [write_namelist] does not replace the file, so
    the run raises, the error of [Namelist.write] or the status of a
    [mkdir] that failed before it, and nothing is launched. *)
Theorem run_refuses_a_stale_namelist E a (self : Experiment) (w w0 : World)
    (r : res bool) (s' : Experiment * World) :
  entered self a w w0 ->
  FS.isfile (P (rundir self) "input.nml") (w_fs w0) = true ->
  run E a (self, w) = (r, s') ->
  (r = Raise (OSError (P (rundir self) "input.nml")) \/
   r = Raise (ErrorReturnCode 1)) /\
  w_trace s'.2 = w_trace w.
Proof.
  intros Hent Hf Hrun. rewrite (run_entered _ _ _ _ _ Hent) in Hrun.
  destruct (prepare self w0) as [rp w1] eqn:Hp.
  pose proof (quiet_prepare self _ _ _ Hp) as [Ht _].
  destruct (prepare_with_stale_namelist _ _ _ _ Hf Hp) as [-> | ->];
    rewrite (run_body_unprepared _ _ _ _ _ _ Hp) in Hrun;
    injection Hrun as <- <-; simpl;
    rewrite Ht, (entered_trace self a w w0 Hent); auto.
Qed.

Lemma run_refuses_a_stale_namelist_witness :
  let E := Fixture.env (Died (ErrorReturnCode 1)) in
  let a := Fixture.light_args 1 in
  let self := Fixture.exp0 in
  let failed := run E a (self, Fixture.w1) in
  let w := failed.2.2 in
  let again := run (Fixture.env Exited) a (self, w) in
  (failed.1 = Raise (ErrorReturnCode 1) /\
   entered self a w w /\
   FS.isfile (P (rundir self) "input.nml") (w_fs w) = true) /\
  (again.1 = Raise (OSError (P (rundir self) "input.nml")) \/
   again.1 = Raise (ErrorReturnCode 1)) /\
  w_trace again.2.2 = w_trace w.
Proof.
  intros E a self failed w again.
  assert (H0 : failed.1 = Raise (ErrorReturnCode 1)) by by_vm.
  assert (He : entered self a w w) by (apply entered_absent; by_vm).
  assert (Hf : FS.isfile (P (rundir self) "input.nml") (w_fs w) = true)
    by by_vm.
  split; [exact (conj H0 (conj He Hf))|].
  exact (run_refuses_a_stale_namelist (Fixture.env Exited) a self w w
           again.1 again.2 He Hf (surjective_pairing again)).
Defined.

Lemma prepare_without_output_files (self : Experiment) (w0 : World)
    (r : res unit) (w1 : World) :
  DiagTable.files (diag_table self) = [] ->
  prepare self w0 = (r, w1) -> exists e, r = Raise e.
Proof.
  intros Hf H. unfold prepare in H.
  assert (Hd : forall w, write_diag_table self (rundir self) w
                         = (Raise ValueError, w)).
  { intros w. unfold write_diag_table. by rewrite Hf. }
  destruct (mkdir [P (rundir self) "INPUT"; P (rundir self) "RESTART";
                   restartdir self] w0) as [[[]|e] wA] eqn:Hmk.
  - rewrite (bind_eq_Ret _ _ _ _ _ Hmk) in H.
    destruct (write_namelist self (rundir self) wA) as [[[]|e] wB] eqn:Hn.
    + rewrite (bind_eq_Ret _ _ _ _ _ Hn) in H.
      destruct (write_field_table self (rundir self) wB)
        as [[[]|e] wC] eqn:Hft.
      * rewrite (bind_eq_Ret _ _ _ _ _ Hft) in H.
        rewrite (bind_eq_Raise _ _ _ _ _ (Hd wC)) in H.
        injection H as <- _. eauto.
      * rewrite (bind_eq_Raise _ _ _ _ _ Hft) in H. injection H as <- _. eauto.
    + rewrite (bind_eq_Raise _ _ _ _ _ Hn) in H. injection H as <- _. eauto.
  - rewrite (bind_eq_Raise _ _ _ _ _ Hmk) in H. injection H as <- _. eauto.
Qed.

(** X9.  An experiment whose diagnostic table has no output file, as every
    experiment has until [use_diag_table] gives it one: no run of it
    launches the model.  The run is skipped because the output directory is
    there, or it raises while the run directory is prepared. *)
Theorem run_without_output_files_launches_nothing E a (self : Experiment)
    (w : World) (r : res bool) (s' : Experiment * World) :
  DiagTable.files (diag_table self) = [] ->
  run E a (self, w) = (r, s') ->
  w_trace s'.2 = w_trace w /\
  ((r = Ret false /\ s' = (self, w)) \/ exists e, r = Raise e).
Proof.
  intros Hf Hrun.
  assert (Hbody : forall w0, entered self a w w0 ->
            w_trace s'.2 = w_trace w /\ exists e, r = Raise e).
  { intros w0 Hent. rewrite (run_entered _ _ _ _ _ Hent) in Hrun.
    destruct (prepare self w0) as [rp w1] eqn:Hp.
    pose proof (quiet_prepare self _ _ _ Hp) as [Ht _].
    destruct (prepare_without_output_files _ _ _ _ Hf Hp) as [e ->].
    rewrite (run_body_unprepared _ _ _ _ _ _ Hp) in Hrun.
    injection Hrun as <- <-. simpl.
    rewrite Ht, (entered_trace self a w w0 Hent). eauto. }
  destruct (FS.isdir (outdir_of self (month a)) (w_fs w)) eqn:Hd.
  - destruct (overwrite_data self || arg_overwrite_data a) eqn:Hov.
    + destruct (Hbody (with_fs (FS.prune (outdir_of self (month a)) (w_fs w)) w))
        as [Ht He]; [unfold entered; by rewrite Hd|]. eauto.
    + revert Hrun. unfold run, bind, gets. simpl. rewrite Hd, Hov.
      intros [= <- <-]. eauto.
  - destruct (Hbody w) as [Ht He]; [unfold entered; by rewrite Hd|]. eauto.
Qed.

Lemma run_without_output_files_launches_nothing_witness :
  let E := Fixture.env Exited in
  let self := use_diag_table DiagTable.init Fixture.exp0 in
  let r := run E (Fixture.light_args 1) (self, Fixture.w1) in
  DiagTable.files (diag_table self) = [] /\
  r.1 = Raise ValueError /\
  w_trace r.2.2 = w_trace Fixture.w1.
Proof.
  intros E self r.
  assert (Hf : DiagTable.files (diag_table self) = []) by reflexivity.
  split; [exact Hf|]. split; [by_vm|].
  exact (proj1 (run_without_output_files_launches_nothing E
                  (Fixture.light_args 1) self Fixture.w1 r.1 r.2 Hf
                  (surjective_pairing r))).
Defined.

(** ** The files a run leaves *)

(** X10.  After a run that returns [True], every file was there before the run,
    or is the restart archive of the month, or lies in the output
    directory of the month: the run directory is empty again, and the run
    has made no file anywhere else. *)
Theorem run_leaves_files_only_in_archive_and_output E a
    (self : Experiment) (w : World) (s' : Experiment * World) :
  rundir self <> [] ->
  run E a (self, w) = (Ret true, s') ->
  forall T : path, FS.isfile T (w_fs s'.2) = true ->
    FS.isfile T (w_fs w) = true \/
    T = get_restart_file self (month a) \/
    exists rel, T = outdir_of self (month a) ++ rel.
Proof.
  intros Hd H T HT.
  pose proof (run_true_confined _ _ _ _ _ H) as Hin.
  destruct (Hin T HT) as [Hold|[[rel ->]|[->|[rel ->]]]]; eauto.
  exfalso.
  destruct (run_true_inv _ _ _ _ _ H)
    as [w0 w1 w2 w3 w4 w5 w6 w7 w8 rfile _ _ _ _ _ _ _ _ Hcl Hcd ->].
  simpl in HT. rewrite (cd_fs _ _ _ _ Hcd) in HT.
  destruct (clear_rundir_post self w6 w7 Hd Hcl) as (Hdir & Hclear & _).
  destruct rel as [|c rest].
  - rewrite app_nil_r in HT. unfold FS.isdir, FS.isfile in *.
    destruct (w_fs w7 !! rundir self) as [[|?]|]; discriminate.
  - unfold FS.isfile in HT.
    rewrite (Hclear (rundir self ++ c :: rest) c rest) in HT; [discriminate|].
    apply strip_app.
Qed.

Lemma run_leaves_files_only_in_archive_and_output_witness :
  let E := Fixture.env Exited in
  let a := Fixture.light_args 1 in
  let self := Fixture.exp0 in
  let r := run E a (self, Fixture.w1) in
  let T := P (outdir_of self 1) "atmos_daily.nc" in
  (rundir self <> [] /\ r = (Ret true, r.2) /\
   FS.isfile T (w_fs r.2.2) = true) /\
  (FS.isfile T (w_fs Fixture.w1) = true \/
   T = get_restart_file self (month a) \/
   exists rel, T = outdir_of self (month a) ++ rel).
Proof.
  intros E a self r T.
  assert (Hd : rundir self <> []) by discriminate.
  assert (Hr : r = (Ret true, r.2)) by (apply result_eta; by_vm).
  assert (HT : FS.isfile T (w_fs r.2.2) = true) by by_vm.
  split; [exact (conj Hd (conj Hr HT))|].
  exact (run_leaves_files_only_in_archive_and_output E a self Fixture.w1 r.2
           Hd Hr T HT).
Defined.

(** ** What the preparation of a run keeps *)

Section KeepsOutside.
Variable d : path.

Lemma keeps_ret {A} (a : A) : keeps_outside d (ret a).
Proof. by intros w r w' [= _ <-]. Qed.

Lemma keeps_raise {A} (e : exn) : keeps_outside d (@raise World A e).
Proof. by intros w r w' [= _ <-]. Qed.

Lemma keeps_gets {A} (f : World -> A) : keeps_outside d (gets f).
Proof. by intros w r w' [= _ <-]. Qed.

Lemma keeps_bind {A B} (m : M World A) (k : A -> M World B) :
  keeps_outside d m -> (forall a, keeps_outside d (k a)) ->
  keeps_outside d (bind m k).
Proof.
  intros Hm Hk w r w' H T HT. unfold bind in H.
  destruct (m w) as [[a|e] w1] eqn:Hmw.
  - rewrite (Hk a _ _ _ H T HT). by apply (Hm _ _ _ Hmw).
  - injection H as _ <-. by apply (Hm _ _ _ Hmw).
Qed.

Lemma keeps_for_each {A} (xs : list A) (body : A -> M World unit) :
  (forall x, keeps_outside d (body x)) -> keeps_outside d (for_each xs body).
Proof.
  intros Hb. induction xs as [|x xs IH]; simpl.
  - apply keeps_ret.
  - apply keeps_bind; [apply Hb | intros _; apply IH].
Qed.

Lemma keeps_on_heap {A} (m : M heap A) : keeps_outside d (on_heap m).
Proof.
  intros w r w' H T HT. apply on_heap_inv in H as (h & _ & ->). done.
Qed.

Lemma keeps_mkdir (ps : list path) : keeps_outside d (mkdir ps).
Proof. intros w r w' H T _. by apply (mkdir_isfile _ _ _ _ _ H). Qed.

Lemma keeps_write (rel : path) (c : data) :
  keeps_outside d (on_fs (FS.write (d ++ rel) c)).
Proof.
  intros w r w' H T HT. apply on_fs_inv in H as (f & H & ->). simpl.
  unfold FS.write in H.
  destruct (FS.isdir _ _ && negb _); injection H as _ <-; [|done].
  unfold FS.isfile. rewrite lookup_insert_ne; [done|].
  intros <-. by rewrite strip_app in HT.
Qed.

Lemma keeps_cp (src rel : path) :
  keeps_outside d (on_fs (FS.cp src (d ++ rel))).
Proof.
  intros w r w' H T HT. apply on_fs_inv in H as (f & H & ->). simpl.
  unfold FS.cp in H. destruct (w_fs w !! src) as [[|c]|];
    try (by injection H as _ <-).
  assert (Hin : forall (p : path) (r0 : res unit) (f0 : gmap path node),
            FS.write p c (w_fs w) = (r0, f0) ->
            (exists rel', p = d ++ rel') ->
            FS.isfile T f0 = FS.isfile T (w_fs w)).
  { intros p r0 f0 Hw [rel' ->].
    apply (keeps_write rel' c w r0 (with_fs f0 w)); [|done].
    unfold on_fs. by rewrite Hw. }
  destruct (FS.write _ c (w_fs w)) as [[[]|e] f1] eqn:Hw;
    injection H as _ <-; apply (Hin _ _ _ Hw);
    destruct (FS.isdir (d ++ rel) (w_fs w));
    try (by exists rel);
    exists (rel ++ [FS.basename src]); unfold P; by rewrite app_assoc.
Qed.

End KeepsOutside.

Lemma keeps_prepare (self : Experiment) :
  keeps_outside (rundir self) (prepare self).
Proof.
  unfold prepare. apply keeps_bind; [apply keeps_mkdir|intros _].
  apply keeps_bind.
  { unfold write_namelist. apply keeps_bind; [apply keeps_gets|].
    intros [|]; [apply keeps_raise|].
    apply keeps_bind; [apply keeps_gets|intros n]. apply keeps_write. }
  intros _. apply keeps_bind.
  { unfold write_field_table. apply keeps_cp. }
  intros _. apply keeps_bind.
  { unfold write_diag_table.
    destruct (negb _); [|apply keeps_raise].
    apply keeps_bind.
    { unfold get_template. apply keeps_bind; [apply keeps_gets|].
      intros [|]; [apply keeps_ret|apply keeps_raise]. }
    intros _. apply keeps_bind.
    { unfold calendar_enabled. apply keeps_bind; [apply keeps_on_heap|].
      intros g. apply keeps_bind; [apply keeps_gets|].
      intros [v|]; [|apply keeps_raise].
      destruct (v !! "calendar") as [[| | | |]|];
        first [apply keeps_ret | apply keeps_raise]. }
    intros c. apply keeps_write. }
  intros _. apply keeps_for_each. intros filename.
  unfold P. rewrite <- app_assoc. apply keeps_cp.
Qed.

Lemma entered_isfile (self : Experiment) a (w w0 : World) (T : path) :
  entered self a w w0 ->
  FS.strip (outdir_of self (month a)) T = None ->
  FS.isfile T (w_fs w0) = FS.isfile T (w_fs w).
Proof.
  unfold entered. destruct (FS.isdir _ _).
  - intros [_ ->] HT. simpl. unfold FS.isfile. by rewrite prune_lookup, HT.
  - by intros ->.
Qed.

(** ** The restart chain *)

(** A run that returns [True] leaves the restart archive of its month in
    the restart directory, under either archival policy. *)
Lemma run_true_archives E a (self : Experiment) (w : World)
    (s' : Experiment * World) :
  layout self ->
  run E a (self, w) = (Ret true, s') ->
  FS.isfile (get_restart_file self (month a)) (w_fs s'.2) = true.
Proof.
  intros Hlay H. destruct (light a) eqn:Hl.
  { by destruct (light_run_restarts _ _ _ _ _ Hlay Hl H). }
  destruct (run_true_inv _ _ _ _ _ H)
    as [w0 w1 w2 w3 w4 w5 w6 w7 w8 rfile _ _ _ _ _ _ Har Hst Hcl Hcd ->].
  simpl. rewrite (cd_fs _ _ _ _ Hcd).
  rewrite (clear_rundir_isfile _ _ _ _ Hcl)
    by (by apply rundir_not_above_restart).
  apply archive_restart_inv in Har as (c & Hw5 & _).
  unfold store_output in Hst. rewrite Hl in Hst.
  apply on_fs_inv in Hst as (f & Hst & ->). simpl.
  unfold FS.cp_a_contents in Hst.
  destruct (FS.isdir _ _ && FS.isdir _ _); [|discriminate].
  injection Hst as <-. unfold FS.isfile.
  rewrite graft_lookup_outside by (by apply outdir_not_above_restart).
  rewrite Hw5, prune_lookup.
  unfold P at 1. rewrite strip_longer_None
    by (by apply rundir_not_above_restart).
  by rewrite lookup_insert_eq.
Qed.

(** X11.  The month after a month that has run to its end: with [use_restart]
    and no [restart_file], the run finds the archive that the month before
    has left and goes on from it, once it is past the check of its output
    directory and the preparation of the run directory; it does not stop
    for a missing restart. *)
Theorem next_month_starts_from_the_archive E a a'
    (self : Experiment) (w : World) (s' : Experiment * World)
    (w0 w1 : World) :
  layout self ->
  run E a (self, w) = (Ret true, s') ->
  month a' = month a + 1 -> use_restart a' = true -> restart_file a' = None ->
  entered s'.1 a' s'.2 w0 ->
  prepare s'.1 w0 = (Ret tt, w1) ->
  run E a' s' =
    finish E a' (Some (get_restart_file self (month a))) (s'.1, w1).
Proof.
  intros Hlay H Hm Hu Hr Hent Hprep.
  pose proof (run_true_archives _ _ _ _ _ Hlay H) as Hfile.
  pose proof (run_true_self _ _ _ _ _ H) as Hself.
  destruct s' as [self' w']. simpl in *. subst self'.
  set (self' := set_cur_month (month a) self) in *.
  assert (Hlay' : layout self') by done.
  rewrite (run_entered _ _ _ _ _ Hent), (run_body_prepared _ _ _ _ _ Hprep).
  assert (Hrf : get_restart_file self' (month a' - 1)
                = get_restart_file self (month a)).
  { unfold get_restart_file. simpl. by replace (month a' - 1) with (month a) by lia. }
  assert (Hf1 : FS.isfile (get_restart_file self (month a)) (w_fs w1) = true).
  { rewrite (keeps_prepare self' _ _ _ Hprep)
      by (by apply (rundir_not_above_restart self')).
    rewrite (entered_isfile _ _ _ _ _ Hent)
      by (by apply (outdir_not_above_restart self')).
    exact Hfile. }
  unfold bind, on_world, resolve_restart. rewrite Hu, Hr, Hrf.
  unfold bind, gets. simpl. by rewrite Hf1.
Qed.

Lemma next_month_starts_from_the_archive_witness :
  let E := Fixture.env Exited in
  let self := Fixture.exp0 in
  let a := Fixture.light_args 1 in
  let a' := default_args 2 in
  let r := run E a (self, Fixture.w1) in
  let w1 := (prepare r.2.1 r.2.2).2 in
  (layout self /\ r = (Ret true, r.2) /\ entered r.2.1 a' r.2.2 r.2.2 /\
   prepare r.2.1 r.2.2 = (Ret tt, w1)) /\
  run E a' r.2 =
    finish E a' (Some (get_restart_file self 1)) (r.2.1, w1).
Proof.
  intros E self a a' r w1.
  assert (Hlay : layout self) by (repeat split; reflexivity).
  assert (Hr : r = (Ret true, r.2)) by (apply result_eta; by_vm).
  assert (He : entered r.2.1 a' r.2.2 r.2.2)
    by (apply entered_absent; by_vm).
  assert (Hp : prepare r.2.1 r.2.2 = (Ret tt, w1))
    by (apply (result_eta (prepare r.2.1 r.2.2) tt); by_vm).
  split; [exact (conj Hlay (conj Hr (conj He Hp)))|].
  exact (next_month_starts_from_the_archive E a a' self Fixture.w1 r.2
           r.2.2 w1 Hlay Hr eq_refl eq_refl eq_refl He Hp).
Defined.

(** ** The output directory after a run *)

Lemma subtree_elem (src : path) (fs : gmap path node) (rel : path) (n : node) :
  (rel, n) ∈ FS.subtree src fs -> fs !! (src ++ rel) = Some n.
Proof.
  unfold FS.subtree. rewrite list_elem_of_omap.
  intros ([p n'] & Hin & Hf). apply elem_of_map_to_list in Hin.
  simpl in Hf. destruct (FS.strip src p) as [r|] eqn:Hs; [|done].
  injection Hf as -> ->. apply strip_Some in Hs as ->. done.
Qed.

Lemma graft_lookup_dst_dir (dst : path) (es : list (path * node))
    (fs : gmap path node) :
  fs !! dst = Some Dir ->
  Forall (fun e => e.1 = [] -> e.2 = Dir) es ->
  FS.graft dst es fs !! dst = Some Dir.
Proof.
  intros Hd Hes. induction Hes as [|[rel n] es He Hes IH]; simpl; [done|].
  destruct rel as [|c rel].
  - rewrite app_nil_r, lookup_insert_eq. simpl in He. by rewrite He.
  - rewrite lookup_insert_ne; [exact IH|].
    intros Heq. apply (f_equal length) in Heq.
    rewrite length_app in Heq. simpl in Heq. lia.
Qed.

Lemma copy_not_outdir (self : Experiment) (k j : Z) (x : string) :
  P (outdir_of self k) x <> outdir_of self j.
Proof.
  unfold outdir_of, P. intros H. apply (f_equal length) in H.
  rewrite !length_app in H. simpl in H. lia.
Qed.

Lemma clear_rundir_isdir (self : Experiment) (w w' : World) (T : path) :
  clear_rundir self w = (Ret tt, w') ->
  FS.strip (rundir self) T = None ->
  FS.isdir T (w_fs w) = true -> FS.isdir T (w_fs w') = true.
Proof.
  unfold clear_rundir. intros H HT Hd.
  apply bind_Ret in H as ([] & wa & Hcd & H). apply cd_fs in Hcd.
  apply bind_Ret in H as ([] & wb & Hrm & H).
  apply rm_r_tolerant in Hrm as [_ ->].
  apply mkdir_one_inv in H as (fs' & Hmk & ->). simpl in *.
  apply isdir_lookup. apply isdir_lookup in Hd.
  destruct (mkdir_from_lookup _ _ _ _ Hmk T) as [Hl|[Hl _]]; [|done].
  by rewrite Hl, prune_lookup, HT, Hcd.
Qed.

Lemma store_output_isdir_outdir (self : Experiment) a (w5 w6 : World) :
  layout self ->
  FS.isdir (outdir_of self (month a)) (w_fs w5) = true ->
  store_output self a (outdir_of self (month a)) w5 = (Ret tt, w6) ->
  FS.isdir (outdir_of self (month a)) (w_fs w6) = true.
Proof.
  intros Hlay Hod Hst. destruct (light a) eqn:Hl.
  - destruct (store_output_light_inv self a w5 w6 Hl Hod Hst)
      as (d & fs' & _ & Hfs' & Hle & Hgt).
    assert (Hfs : fs' !! outdir_of self (month a) = Some Dir).
    { rewrite Hfs'. rewrite lookup_insert_ne by apply copy_not_outdir.
      rewrite graft_lookup_dst by apply matching_nonempty.
      by apply isdir_lookup. }
    apply isdir_lookup. destruct (Z.le_gt_cases (month a) 1) as [H1|H1].
    + by rewrite (Hle H1).
    + destruct (Hgt H1) as (_ & _ & Hq). rewrite Hq; [done| |].
      * apply not_eq_sym. by apply restart_not_outdir.
      * apply not_eq_sym. apply copy_not_outdir.
  - unfold store_output in Hst. rewrite Hl in Hst.
    apply on_fs_inv in Hst as (f & Hst & ->). simpl.
    unfold FS.cp_a_contents in Hst.
    destruct (FS.isdir (rundir self) (w_fs w5)) eqn:Hsrc; simpl in Hst;
      [|discriminate].
    rewrite Hod in Hst. injection Hst as <-.
    apply isdir_lookup. apply graft_lookup_dst_dir; [by apply isdir_lookup|].
    apply Forall_forall. intros [rel n] Hin Hrel. simpl in *. subst rel.
    apply subtree_elem in Hin. rewrite app_nil_r in Hin.
    apply isdir_lookup in Hsrc. congruence.
Qed.

(** A run that returns [True] leaves the output directory of its month. *)
Lemma run_true_outdir E a (self : Experiment) (w : World)
    (s' : Experiment * World) :
  layout self ->
  run E a (self, w) = (Ret true, s') ->
  FS.isdir (outdir_of self (month a)) (w_fs s'.2) = true.
Proof.
  intros Hlay H.
  destruct (run_true_inv _ _ _ _ _ H)
    as [w0 w1 w2 w3 w4 w5 w6 w7 w8 rfile _ _ _ _ _ Hmk Har Hst Hcl Hcd ->].
  simpl. rewrite (cd_fs _ _ _ _ Hcd).
  apply (clear_rundir_isdir _ _ _ _ Hcl);
    [by apply rundir_not_above_outdir|].
  apply (store_output_isdir_outdir self a w5 w6 Hlay); [|exact Hst].
  by apply (isdir_outdir_after_archive self Hlay _ _ _ _ Hmk Har).
Qed.

(** X12.  A month that has run to its end is not run again: [run] for the same
    month, without an overwrite policy, returns [False] and leaves the
    experiment and the world as the first run left them. *)
Theorem run_again_is_skipped E a a' (self : Experiment) (w : World)
    (s' : Experiment * World) :
  layout self ->
  run E a (self, w) = (Ret true, s') ->
  month a' = month a ->
  overwrite_data self = false -> arg_overwrite_data a' = false ->
  run E a' s' = (Ret false, s').
Proof.
  intros Hlay H Hm Ho Ha.
  pose proof (run_true_outdir _ _ _ _ _ Hlay H) as Hd.
  pose proof (run_true_self _ _ _ _ _ H) as Hself.
  destruct s' as [self' w']. simpl in *. subst self'.
  unfold run, bind, gets. simpl. rewrite Hm.
  change (outdir_of (set_cur_month (month a) self) (month a))
    with (outdir_of self (month a)).
  by rewrite Hd, Ho, Ha.
Qed.

Lemma run_again_is_skipped_witness :
  let E := Fixture.env Exited in
  let self := Fixture.exp0 in
  let a := Fixture.light_args 1 in
  let r := run E a (self, Fixture.w1) in
  (layout self /\ r = (Ret true, r.2)) /\
  run E (default_args 1) r.2 = (Ret false, r.2).
Proof.
  intros E self a r.
  assert (Hlay : layout self) by (repeat split; reflexivity).
  assert (Hr : r = (Ret true, r.2)) by (apply result_eta; by_vm).
  split; [exact (conj Hlay Hr)|].
  exact (run_again_is_skipped E a (default_args 1) self Fixture.w1 r.2
           Hlay Hr eq_refl eq_refl eq_refl).
Defined.

(** ** Construction and derivation *)

Lemma heap_only_ret {A} (a : A) : heap_only (ret a).
Proof. by intros w r w' [= _ <-]. Qed.

Lemma heap_only_raise {A} (e : exn) : heap_only (@raise World A e).
Proof. by intros w r w' [= _ <-]. Qed.

Lemma heap_only_bind {A B} (m : M World A) (k : A -> M World B) :
  heap_only m -> (forall a, heap_only (k a)) -> heap_only (bind m k).
Proof.
  intros Hm Hk w r w' H. unfold bind in H.
  destruct (m w) as [[a|e] w1] eqn:Hmw.
  - destruct (Hm _ _ _ Hmw) as (<- & <- & <-). by apply (Hk a _ _ _ H).
  - injection H as _ <-. by apply (Hm _ _ _ Hmw).
Qed.

Lemma heap_only_for_each {A} (xs : list A) (body : A -> M World unit) :
  (forall x, heap_only (body x)) -> heap_only (for_each xs body).
Proof.
  intros Hb. induction xs as [|x xs IH]; simpl.
  - apply heap_only_ret.
  - apply heap_only_bind; [apply Hb | intros _; apply IH].
Qed.

Lemma heap_only_on_heap {A} (m : M heap A) : heap_only (on_heap m).
Proof. intros w r w' H. apply on_heap_inv in H as (h & _ & ->). done. Qed.

Lemma heap_only_read (p : path) : heap_only (on_fs (FS.read p)).
Proof.
  intros w r w' H. apply on_fs_inv in H as (f & H & ->). simpl.
  unfold FS.read in H. destruct (w_fs w !! p) as [[|c]|];
    by injection H as _ <-.
Qed.

Lemma heap_only_f90nml_read (p : path) : heap_only (f90nml_read p).
Proof.
  unfold f90nml_read. apply heap_only_bind; [apply heap_only_read|].
  intros []; first [apply heap_only_on_heap | apply heap_only_raise].
Qed.

Lemma heap_only_rebuild_namelist (files : list path) :
  heap_only (rebuild_namelist files).
Proof.
  destruct files as [|f0 rest]; simpl; [apply heap_only_raise|].
  apply heap_only_bind; [apply heap_only_f90nml_read|intros nl].
  apply heap_only_bind; [|intros _; apply heap_only_ret].
  apply heap_only_for_each. intros f.
  apply heap_only_bind; [apply heap_only_f90nml_read|intros other].
  apply heap_only_on_heap.
Qed.

Lemma heap_only_read_pathnames (p : path) : heap_only (read_pathnames p).
Proof.
  unfold read_pathnames. apply heap_only_bind; [apply heap_only_read|].
  intros []; apply heap_only_ret.
Qed.

(** What the constructor returns and what it does to the file system. *)
Lemma Experiment_init_inv E (n : string) (o r : bool) (w : World)
    (e : Experiment) (w' : World) :
  Experiment_init E n o r w = (Ret e, w') ->
  (name e = n /\
   workdir e = P (GFDL_WORK E) n /\
   execdir e = P (workdir e) (if r then "exec_debug" else "exec") /\
   restartdir e = P (workdir e) "restarts" /\
   rundir e = P (workdir e) "run" /\
   datadir e = P (GFDL_DATA E) n /\
   srcdir e = GFDL_BASE E /\
   diag_table e = DiagTable.init /\
   inputfiles e = [] /\
   overwrite_data e = o) /\
  FS.isdir (workdir e) (w_fs w') = true /\
  (forall T : path, FS.isfile T (w_fs w') = FS.isfile T (w_fs w)) /\
  w_trace w' = w_trace w.
Proof.
  unfold Experiment_init. intros H.
  apply bind_Ret in H as (present & w1 & Hget & H).
  injection Hget as <- <-.
  apply bind_Ret in H as ([] & w2 & Hmk & H).
  assert (Hw2 : FS.isdir (P (GFDL_WORK E) n) (w_fs w2) = true /\
                (forall T : path, FS.isfile T (w_fs w2) = FS.isfile T (w_fs w)) /\
                w_trace w2 = w_trace w).
  { destruct (FS.isdir (P (GFDL_WORK E) n) (w_fs w)) eqn:Hd.
    - by injection Hmk as <-.
    - split; [|split].
      + apply mkdir_one_inv in Hmk as (fs' & Hmk & ->). simpl.
        apply isdir_lookup. apply (mkdir_from_target _ [] _ _ Hmk).
        unfold P. by destruct (GFDL_WORK E).
      + intros T. by apply (mkdir_isfile _ _ _ _ _ Hmk).
      + by destruct (quiet_mkdir _ _ _ _ Hmk). }
  destruct Hw2 as (Hdir & Hfiles & Htr).
  apply bind_Ret in H as (pn & w3 & Hpn & H).
  apply heap_only_read_pathnames in Hpn as (Hfs3 & _ & Htr3).
  apply bind_Ret in H as (nl & w4 & Hnl & H).
  apply heap_only_rebuild_namelist in Hnl as (Hfs4 & _ & Htr4).
  injection H as <- <-. simpl.
  split; [by destruct r|].
  rewrite Hfs4, Hfs3, Htr4, Htr3. done.
Qed.



(** X14.  [derive]: the new experiment has the name it is given and its own
    directories below [GFDL_WORK] and [GFDL_DATA]; it takes over the
    executable directory and the diagnostic table of the experiment it is
    derived from, and a namelist that is a new object and reads as that
    experiment's; it does not take over the input files and the
    [overwrite_data] flag. *)
Theorem derive_takes_over_executable_namelist_and_diag_table E
    (self : Experiment) (n : string) (w : World) (e : Experiment)
    (w' : World) :
  Heap.closed (namelist self) (w_heap w) ->
  derive E self n w = (Ret e, w') ->
  (name e = n /\ workdir e = P (GFDL_WORK E) n /\
   rundir e = P (workdir e) "run" /\ datadir e = P (GFDL_DATA E) n) /\
  (execdir e = execdir self /\ diag_table e = diag_table self /\
   Heap.view (namelist e) (w_heap w') = Heap.view (namelist self) (w_heap w) /\
   namelist e <> namelist self) /\
  (inputfiles e = [] /\ overwrite_data e = false).
Proof.
  intros Hc H.
  destruct (derive_inv _ _ _ _ _ _ Hc H)
    as (_ & Hfresh & _ & Hview & _ & Hdt & Hx).
  split; [|split].
  - unfold derive in H. apply bind_Ret in H as (e0 & w1 & Hinit & H).
    apply Experiment_init_inv in Hinit
      as ((Hn & Hw & _ & _ & Hrd & Hdd & _) & _).
    apply bind_Ret in H as (copied & w2 & _ & H).
    injection H as <- <-. simpl. done.
  - split; [done|]. split; [done|]. split; [done|].
    intros Heq. apply Hfresh. rewrite Heq.
    destruct Hc as [[gs Hgs] _]. by apply elem_of_dom_2 in Hgs.
  - unfold derive in H. apply bind_Ret in H as (e0 & w1 & Hinit & H).
    apply Experiment_init_inv in Hinit
      as ((_ & _ & _ & _ & _ & _ & _ & _ & Hin & Ho) & _).
    apply bind_Ret in H as (copied & w2 & _ & H).
    injection H as <- <-. simpl. done.
Qed.

Lemma derive_takes_over_executable_namelist_and_diag_table_witness :
  let E := Fixture.env Exited in
  let self :=
    mk_Experiment "exp" ["work"; "exp"] ["work"; "exp"; "exec"]
      ["work"; "exp"; "restarts"] ["work"; "exp"; "run"] ["data"; "exp"]
      ["base"; "src"; "extra"; "env"; "env"] ["base"] Fixture.tdir
      Fixture.diag (P Fixture.tdir "field_table") []
      [P Fixture.tdir "core.nml"; P Fixture.tdir "phys.nml"] 2%positive
      [["data"; "land.nc"]] true None in
  let r := derive E self "exp_wet" Fixture.w1 in
  let e := value_of self r.1 in
  (Heap.closed (namelist self) (w_heap Fixture.w1) /\ r = (Ret e, r.2)) /\
  (execdir e = execdir self /\ diag_table e = diag_table self /\
   Heap.view (namelist e) (w_heap r.2)
     = Heap.view (namelist self) (w_heap Fixture.w1) /\
   namelist e <> namelist self) /\
  (inputfiles self = [["data"; "land.nc"]] /\ inputfiles e = []) /\
  (overwrite_data self = true /\ overwrite_data e = false).
Proof.
  intros E self r e.
  assert (Hc : Heap.closed (namelist self) (w_heap Fixture.w1))
    by (apply closedb_closed; by_vm).
  assert (Hr : r = (Ret e, r.2)) by (apply result_eta; by_vm).
  split; [exact (conj Hc Hr)|].
  destruct (derive_takes_over_executable_namelist_and_diag_table E self
              "exp_wet" Fixture.w1 e r.2 Hc Hr) as (_ & Hsame & Hin & Ho).
  split; [exact Hsame|]. split; [exact (conj eq_refl Hin)|].
  exact (conj eq_refl Ho).
Defined.

(** ** The child processes of a run *)

Lemma launch_and_wait_outcome E (self : Experiment) (v : run_vars)
    (w : World) (r : res bool) (w' : World) :
  w_fs w !! P (rundir self) "runmonth.sh" = Some (File (Script v)) ->
  launch_and_wait E self w = (r, w') ->
  exists t, w_trace w' = w_trace w ++ Launch (Script v) :: t /\
    (t = [] \/ t = [Kill]) /\
    (r = Ret true -> t = []) /\ (r = Ret false -> t = [Kill]).
Proof.
  intros Hs. unfold launch_and_wait, try_except.
  destruct (bind (launch E self _) _ w) as [[b|e] w1] eqn:Hl.
  - intros [= <- <-]. apply bind_Ret in Hl as ([] & w2 & Hl & [= <- <-]).
    apply (launch_trace _ _ _ _ _ _ _ Hs) in Hl. exists [].
    split; [done|]. split; [by left|]. split; [done|discriminate].
  - apply bind_Raise in Hl as [Hl|(a0 & s1 & _ & [=])].
    apply (launch_trace _ _ _ _ _ _ _ Hs) in Hl.
    assert (Hkill : forall (k : M World bool) r w', quiet k ->
              (forall w r w', k w = (r, w') -> r <> Ret true) ->
              bind (emit Kill) (fun _ => k) w1 = (r, w') ->
              w_trace w' = w_trace w ++ [Launch (Script v); Kill] /\
              r <> Ret true).
    { intros k r0 w0 Hq Hne. unfold bind, emit, modify. simpl. intros Hk.
      destruct (Hq _ _ _ Hk) as [-> _]. simpl. rewrite Hl.
      split; [by rewrite <- app_assoc|]. by eapply Hne. }
    assert (Hraise : forall e0 (w2 : World) (r0 : res bool) (w3 : World),
              @raise World bool e0 w2 = (r0, w3) -> r0 <> Ret true).
    { intros e0 w2 r0 w3 [= <- _]. discriminate. }
    destruct e; simpl;
      try (intros H; exists [Kill];
           destruct (Hkill _ _ _ (quiet_raise _) (Hraise _) H) as [Ht Hr];
           split; [exact Ht|]; split; [by right|]; split; [done|done]).
    + intros [= <- <-]. exists [].
      split; [done|]. split; [by left|]. split; [done|discriminate].
    + intros H. exists [Kill].
      destruct (Hkill (bind (clear_rundir self) (fun _ => ret false)) r w')
        as [Ht Hr]; [| |exact H|].
      * apply quiet_bind; [apply quiet_clear_rundir|intros _; apply quiet_ret].
      * intros w2 r0 w3. unfold bind.
        destruct (clear_rundir self w2) as [[[]|e0] w4];
          intros [= <- _]; discriminate.
      * split; [exact Ht|]. split; [by right|]. done.
Qed.

Lemma finish_outcome E a rfile (self : Experiment) (w : World)
    (r : res bool) (s' : Experiment * World) :
  finish E a rfile (self, w) = (r, s') ->
  let d := Script (script_vars self a rfile) in
  exists t, w_trace s'.2 = w_trace w ++ t /\
    (t = [] \/ t = [Launch d] \/ t = [Launch d; Kill]) /\
    (r = Ret true -> t = [Launch d]) /\
    (r = Ret false -> t = [Launch d; Kill]).
Proof.
  unfold finish. unfold bind at 1. unfold gets at 1. simpl.
  set (vars := script_vars self a rfile).
  unfold bind at 1.
  destruct (on_world (get_template self "runmonth.sh") (self, w))
    as [[[]|e] s1] eqn:Ht.
  2:{ intros [= <- <-]. apply on_world_inv in Ht as (w1 & Ht & ->).
      apply quiet_get_template in Ht as [Ht _]. exists []. simpl.
      split; [by rewrite app_nil_r|]. split; [by left|].
      split; discriminate. }
  apply on_world_inv in Ht as (w1 & Ht & ->).
  apply quiet_get_template in Ht as [Ht _].
  unfold bind at 1.
  destruct (on_world (on_fs (FS.write _ _)) (self, w1)) as [[[]|e] s2] eqn:Hw.
  2:{ intros [= <- <-]. apply on_world_inv in Hw as (w2 & Hw & ->).
      apply quiet_on_fs in Hw as [Hw _]. exists []. simpl.
      split; [by rewrite app_nil_r, Hw|]. split; [by left|].
      split; discriminate. }
  apply on_world_inv in Hw as (w2 & Hw & ->).
  assert (Hscript : w_fs w2 !! P (rundir self) "runmonth.sh"
                    = Some (File (Script vars))).
  { apply on_fs_inv in Hw as (f' & Hw & ->). unfold FS.write in Hw.
    destruct (_ && _); [|discriminate]. injection Hw as <-. simpl.
    apply lookup_insert_eq. }
  apply quiet_on_fs in Hw as [Hw _].
  unfold bind at 1. unfold modify at 1. simpl.
  unfold bind at 1.
  destruct (on_world (launch_and_wait E self) _) as [[go_on|e] s3] eqn:Hl.
  2:{ intros [= <- <-]. apply on_world_inv in Hl as (w3 & Hl & ->).
      apply (launch_and_wait_outcome _ _ _ _ _ _ Hscript) in Hl
        as (t & Hl & Ht' & _).
      exists (Launch (Script vars) :: t). simpl.
      split; [by rewrite Hl, Hw, Ht|].
      split; [destruct Ht' as [->| ->]; auto|]. split; discriminate. }
  apply on_world_inv in Hl as (w3 & Hl & ->).
  apply (launch_and_wait_outcome _ _ _ _ _ _ Hscript) in Hl
    as (t & Hl & _ & Htrue & Hfalse).
  destruct go_on.
  - rewrite (Htrue eq_refl) in Hl.
    set (tail := bind (mkdir [outdir_of self (month a)]) (fun _ =>
                 bind (archive_restart self (month a)) (fun _ =>
                 bind (store_output self a (outdir_of self (month a))) (fun _ =>
                 bind (clear_rundir self) (fun _ => cd (rundir self)))))).
    assert (Hq : quiet tail).
    { unfold tail.
      apply quiet_bind; [apply quiet_mkdir|intros _].
      apply quiet_bind; [apply quiet_archive_restart|intros _].
      apply quiet_bind; [apply quiet_store_output|intros _].
      apply quiet_bind; [apply quiet_clear_rundir|intros _]. apply quiet_cd. }
    intros H.
    assert (Heq : exists r0 w4, tail w3 = (r0, w4) /\
                    s' = (set_cur_month (month a) self, w4) /\
                    r <> Ret false).
    { revert H. unfold tail, bind, on_world, ret. simpl.
      repeat match goal with
             | |- context [match ?m ?x with _ => _ end] =>
                 lazymatch m with
                 | mkdir _ => destruct (m x) as [[[]|?] ?]
                 | archive_restart _ _ => destruct (m x) as [[[]|?] ?]
                 | store_output _ _ _ => destruct (m x) as [[[]|?] ?]
                 | clear_rundir _ => destruct (m x) as [[[]|?] ?]
                 | cd _ => destruct (m x) as [[[]|?] ?]
                 end; simpl
             end; intros [= <- <-]; eauto. }
    destruct Heq as (r0 & w4 & Htail & -> & Hr).
    exists [Launch (Script vars)]. simpl.
    apply Hq in Htail as [-> _].
    split; [by rewrite Hl, Hw, Ht|]. split; [auto|]. split; [done|].
    intros ->. done.
  - intros [= <- <-]. rewrite (Hfalse eq_refl) in Hl.
    exists [Launch (Script vars); Kill]. simpl.
    split; [by rewrite Hl, Hw, Ht|]. split; [auto|]. split; [discriminate|done].
Qed.

(** X15.  One call of [run] launches one child at most, the script rendered for
    the month, and kills nothing but a child it has launched.  A run that
    returns [True] has launched the child and not killed it; a run that
    returns [False] has launched nothing (the month was skipped) or has
    killed the child it launched (the interrupt). *)
Theorem run_launches_one_child_at_most E a (self : Experiment) (w : World)
    (r : res bool) (s' : Experiment * World) :
  run E a (self, w) = (r, s') ->
  exists t, w_trace s'.2 = w_trace w ++ t /\
    (t = [] \/
     exists rfile, t = [Launch (Script (script_vars self a rfile))] \/
                   t = [Launch (Script (script_vars self a rfile)); Kill]) /\
    (r = Ret true ->
     exists rfile, t = [Launch (Script (script_vars self a rfile))]) /\
    (r = Ret false ->
     t = [] \/
     exists rfile, t = [Launch (Script (script_vars self a rfile)); Kill]).
Proof.
  intros Hrun.
  assert (Hbody : forall w0, entered self a w w0 ->
    exists t, w_trace s'.2 = w_trace w ++ t /\
      (t = [] \/
       exists rfile, t = [Launch (Script (script_vars self a rfile))] \/
                     t = [Launch (Script (script_vars self a rfile)); Kill]) /\
      (r = Ret true ->
       exists rfile, t = [Launch (Script (script_vars self a rfile))]) /\
      (r = Ret false ->
       t = [] \/
       exists rfile, t = [Launch (Script (script_vars self a rfile)); Kill])).
  { intros w0 Hent. rewrite (run_entered _ _ _ _ _ Hent) in Hrun.
    pose proof (entered_trace self a w w0 Hent) as Hw0.
    destruct (prepare self w0) as [[[]|e] w1] eqn:Hp.
    2:{ rewrite (run_body_unprepared _ _ _ _ _ _ Hp) in Hrun.
        injection Hrun as <- <-. apply quiet_prepare in Hp as [Hp _].
        exists []. simpl. rewrite app_nil_r, Hp, Hw0.
        split; [done|]. split; [by left|]. split; discriminate. }
    rewrite (run_body_prepared _ _ _ _ _ Hp) in Hrun.
    apply quiet_prepare in Hp as [Hp _].
    unfold bind, on_world in Hrun. simpl in Hrun.
    destruct (resolve_restart self a w1) as [[rfile|e] w1'] eqn:Hres.
    2:{ apply resolve_restart_same in Hres as ->.
        injection Hrun as <- <-. exists []. simpl.
        rewrite app_nil_r, Hp, Hw0.
        split; [done|]. split; [by left|]. split; discriminate. }
    apply resolve_restart_same in Hres as ->.
    apply finish_outcome in Hrun as (t & Ht & Hcases & Htrue & Hfalse).
    exists t. rewrite Ht, Hp, Hw0. split; [done|]. split; [|split].
    - destruct Hcases as [->|[->| ->]]; [by left| |]; right; exists rfile; auto.
    - intros Hr. exists rfile. by apply Htrue.
    - intros Hr. right. exists rfile. by apply Hfalse. }
  destruct (FS.isdir (outdir_of self (month a)) (w_fs w)) eqn:Hd.
  - destruct (overwrite_data self || arg_overwrite_data a) eqn:Hov.
    + apply (Hbody (with_fs (FS.prune (outdir_of self (month a)) (w_fs w)) w)).
      unfold entered. by rewrite Hd.
    + revert Hrun. unfold run, bind, gets. simpl. rewrite Hd, Hov.
      intros [= <- <-]. exists []. simpl. rewrite app_nil_r.
      split; [done|]. split; [by left|]. split; [discriminate|by left].
  - apply (Hbody w). unfold entered. by rewrite Hd.
Qed.

Lemma run_launches_one_child_at_most_witness :
  let E := Fixture.env (Died KeyboardInterrupt) in
  let a := Fixture.light_args 1 in
  let self := Fixture.exp0 in
  let r := run E a (self, Fixture.w1) in
  r.1 = Ret false /\
  w_trace r.2.2 = [Launch (Script (script_vars self a None)); Kill] /\
  exists t, w_trace r.2.2 = w_trace Fixture.w1 ++ t /\
    (t = [] \/
     exists rfile, t = [Launch (Script (script_vars self a rfile))] \/
                   t = [Launch (Script (script_vars self a rfile)); Kill]) /\
    (r.1 = Ret true ->
     exists rfile, t = [Launch (Script (script_vars self a rfile))]) /\
    (r.1 = Ret false ->
     t = [] \/
     exists rfile, t = [Launch (Script (script_vars self a rfile)); Kill]).
Proof.
  intros E a self r. split; [by_vm|]. split; [by_vm|].
  exact (run_launches_one_child_at_most E a self Fixture.w1 r.1 r.2
           (surjective_pairing r)).
Defined.

(** ** The names of the months *)

Lemma pretty_N_go_head (x : N) : forall s : string,
  (0 < x)%N ->
  exists c s', pretty_N_go x s = String c s' /\ c <> Ascii.ascii_of_nat 48.
Proof.
  induction (N.lt_wf_0 x) as [x _ IH]. intros s Hx.
  rewrite pretty_N_go_step by done.
  destruct (N.eq_0_gt_0_cases (x `div` 10)) as [H0|Hpos].
  - rewrite H0, pretty_N_go_0. eexists _, _. split; [reflexivity|].
    assert (x < 10)%N by (by apply N.div_small_iff in H0).
    rewrite N.mod_small by done.
    assert (x = 1 \/ x = 2 \/ x = 3 \/ x = 4 \/ x = 5 \/ x = 6
            \/ x = 7 \/ x = 8 \/ x = 9)%N as Hc by lia.
    destruct Hc as [->|[->|[->|[->|[->|[->|[->|[->| ->]]]]]]]]; discriminate.
  - apply IH; [|done]. by apply N.div_lt.
Qed.

Lemma fmt_d_head (z : Z) :
  0 < z -> exists c s', fmt_d z = String c s' /\ c <> Ascii.ascii_of_nat 48.
Proof.
  intros Hz. destruct z as [|p|p]; try lia.
  unfold fmt_d, pretty, pretty_Z, pretty, pretty_positive, pretty, pretty_N.
  destruct (decide (N.pos p = 0%N)); [done|].
  by apply pretty_N_go_head.
Qed.

Lemma zeros_then_digits (n m : nat) (x y : string) :
  (exists c s', x = String c s' /\ c <> Ascii.ascii_of_nat 48) ->
  (exists c s', y = String c s' /\ c <> Ascii.ascii_of_nat 48) ->
  zeros n +:+ x = zeros m +:+ y -> x = y.
Proof.
  intros (cx & sx & -> & Hcx) (cy & sy & -> & Hcy).
  revert m. induction n as [|n IH]; intros [|m]; simpl.
  - done.
  - intros [= -> _]. done.
  - intros [= <- _]. done.
  - intros [= H]. by apply (IH m).
Qed.

Lemma fmt_03d_inj (k j : Z) : 0 < k -> 0 < j -> fmt_03d k = fmt_03d j -> k = j.
Proof.
  intros Hk Hj. unfold fmt_03d.
  assert (Z.ltb k 0 = false) as -> by lia.
  assert (Z.ltb j 0 = false) as -> by lia.
  intros H. apply zeros_then_digits in H.
  - by apply (inj pretty) in H.
  - by apply fmt_d_head.
  - by apply fmt_d_head.
Qed.

(** X16.  Every month from 1 on has an output directory and a restart archive
    of its own: two months with the same [run<month>] directory, or with
    the same [res_<month>.cpio], are the same month. *)
Theorem months_have_their_own_output_and_restart (self : Experiment)
    (k j : Z) :
  0 < k -> 0 < j ->
  (outdir_of self k = outdir_of self j -> k = j) /\
  (get_restart_file self k = get_restart_file self j -> k = j).
Proof.
  intros Hk Hj. split.
  - unfold outdir_of. intros [_ H]%P_inj.
    apply (fmt_03d_inj k j Hk Hj).
    change (("run" +:+ fmt_03d k) = ("run" +:+ fmt_03d j)) in H.
    by injection H.
  - by apply restart_inj.
Qed.

Lemma months_have_their_own_output_and_restart_witness :
  (0 < 9 /\ 0 < 10) /\
  (outdir_of Fixture.exp0 9 = outdir_of Fixture.exp0 10 -> 9 = 10) /\
  (get_restart_file Fixture.exp0 9 = get_restart_file Fixture.exp0 10 ->
   9 = 10).
Proof.
  assert (H9 : 0 < 9) by lia. assert (H10 : 0 < 10) by lia.
  split; [exact (conj H9 H10)|].
  exact (months_have_their_own_output_and_restart Fixture.exp0 9 10 H9 H10).
Defined.

(** ** The light policy and the month before *)

Lemma outdir_not_above_other_copy (self : Experiment) (k j : Z) :
  0 < k -> 0 < j -> k <> j ->
  FS.strip (outdir_of self j)
           (P (outdir_of self k) ("res_" +:+ fmt_d k +:+ ".cpio")) = None.
Proof.
  intros Hk Hj Hne. unfold outdir_of, P. rewrite <- !app_assoc.
  rewrite strip_app_both. simpl.
  change ("" +:+ fmt_03d j) with (fmt_03d j).
  change ("" +:+ fmt_03d k) with (fmt_03d k).
  destruct (String.eqb (fmt_03d j) (fmt_03d k)) eqn:He; [|done].
  apply String.eqb_eq in He. exfalso. apply Hne.
  by apply (fmt_03d_inj k j Hk Hj).
Qed.

(** The last step of [store_output] under the light policy, for a month
    after the first: [sh.rm] of the copy of the restart of the month
    before, in that month's output directory, which must be there. *)
Lemma store_output_light_found (self : Experiment) a (w5 w6 : World) :
  layout self -> light a = true -> 1 < month a ->
  store_output self a (outdir_of self (month a)) w5 = (Ret tt, w6) ->
  FS.isfile (P (outdir_of self (month a - 1))
               ("res_" +:+ fmt_d (month a - 1) +:+ ".cpio")) (w_fs w5) = true.
Proof.
  intros Hlay Hl Hm H. unfold store_output in H. rewrite Hl in H.
  set (m := month a) in *.
  set (lost := P (outdir_of self (m - 1)) ("res_" +:+ fmt_d (m - 1) +:+ ".cpio")).
  apply bind_Ret in H as ([] & wa & Hnc & H).
  apply bind_Ret in H as ([] & wb & Hcp & H).
  assert (Z.ltb 1 m = true) as Hlt by lia. rewrite Hlt in H.
  apply bind_Ret in H as ([] & wc & Hrm1 & H).
  apply on_fs_inv in H as (f & Hrm2 & _).
  assert (Hc : FS.isfile lost (w_fs wc) = true).
  { unfold FS.rm in Hrm2. unfold FS.isfile. fold (outdir_of self (m - 1)) in Hrm2.
    fold lost in Hrm2. destruct (w_fs wc !! lost) as [[|d]|]; done. }
  assert (Hb : FS.isfile lost (w_fs wb) = true).
  { revert Hrm1 Hc. unfold try_except, on_fs. simpl.
    destruct (FS.rm _ (w_fs wb)) as [[[]|e] f2] eqn:Hrm; simpl.
    - intros [= <-]. simpl. apply rm_any in Hrm as [_ Hq].
      unfold FS.isfile. rewrite Hq; [done|].
      apply not_eq_sym. by apply restart_not_copy.
    - apply rm_any in Hrm as [_ Hq]. destruct e; try discriminate.
      destruct code as [|[]|]; try discriminate.
      intros [= <-]. simpl. unfold FS.isfile. rewrite Hq; [done|].
      apply not_eq_sym. by apply restart_not_copy. }
  assert (Ha : FS.isfile lost (w_fs wa) = true).
  { apply on_fs_inv in Hcp as (f1 & Hcp & ->).
    apply cp_inv in Hcp as (d & _ & ->). simpl in Hb.
    unfold FS.isfile in *. rewrite lookup_insert_ne in Hb; [done|].
    rewrite basename_P. destruct (FS.isdir _ _).
    - intros Heq. apply copy_inj in Heq. lia.
    - apply not_eq_sym. apply copy_not_outdir. }
  revert Hnc Ha. unfold copy_nc, modify.
  destruct (FS.isdir _ _); intros [= <-]; [|done]. simpl.
  unfold FS.isfile. rewrite graft_lookup_outside; [done|].
  apply outdir_not_above_other_copy; lia.
Qed.

(** X17.  A light run of a month after the first returns [True] only where the
    copy of the restart of the month before was in that month's output
    directory when the run began: its removal is not guarded, so after a
    month that was not run under the light policy the run raises once its
    own output is stored. *)
Theorem light_run_needs_the_copy_of_the_month_before E a
    (self : Experiment) (w : World) (s' : Experiment * World) :
  layout self -> light a = true -> 1 < month a ->
  run E a (self, w) = (Ret true, s') ->
  FS.isfile (P (outdir_of self (month a - 1))
               ("res_" +:+ fmt_d (month a - 1) +:+ ".cpio")) (w_fs w) = true.
Proof.
  intros Hlay Hl Hm H.
  destruct (run_true_inv _ _ _ _ _ H)
    as [w0 w1 w2 w3 w4 w5 w6 w7 w8 rfile Hent Hprep Hres Hscr Hla Hmk Har Hst
        _ _ _].
  pose proof (store_output_light_found _ _ _ _ Hlay Hl Hm Hst) as Hf.
  assert (Hin : files_within (region self (month a)) (w_fs w) (w_fs w5)).
  { apply (files_within_trans _ _ (w_fs w0)).
    { unfold entered in Hent. destruct (FS.isdir _ _).
      - destruct Hent as [_ ->]. simpl. intros T HT. left.
        by eapply prune_files.
      - subst w0. apply files_within_refl. }
    eapply files_within_trans; [by eapply confined_prepare|].
    eapply files_within_trans.
    { eapply (confined_write (region self (month a))); [|exact Hscr].
      apply region_rundir1. }
    eapply files_within_trans; [by eapply confined_launch_and_wait|].
    eapply files_within_trans; [by eapply confined_mkdir|].
    by eapply confined_archive_restart. }
  apply Hin in Hf as [Hf|[[rel Hf]|[Hf|[rel Hf]]]].
  - exact Hf.
  - pose proof (proj1 (strip_None_inv _ _)
                  (rundir_not_above_copy self Hlay (month a - 1))) as Hn.
    by destruct (Hn rel).
  - symmetry in Hf. by apply (restart_not_copy self Hlay) in Hf.
  - pose proof (proj1 (strip_None_inv _ _)
                  (outdir_not_above_other_copy self (month a - 1) (month a)
                     ltac:(lia) ltac:(lia) ltac:(lia))) as Hn.
    by destruct (Hn rel).
Qed.

Lemma light_run_needs_the_copy_of_the_month_before_witness :
  let E := Fixture.env Exited in
  let self := Fixture.exp0 in
  let r1 := run E (Fixture.light_args 1) (self, Fixture.w1) in
  let a := Fixture.light_args 2 in
  let r2 := run E a (self, r1.2.2) in
  (layout self /\ light a = true /\ 1 < month a /\ r2 = (Ret true, r2.2)) /\
  FS.isfile (P (outdir_of self 1) "res_1.cpio") (w_fs r1.2.2) = true.
Proof.
  intros E self r1 a r2.
  assert (Hlay : layout self) by (repeat split; reflexivity).
  assert (Hm : 1 < month a) by (simpl; lia).
  assert (Hr : r2 = (Ret true, r2.2)) by (apply result_eta; by_vm).
  split; [exact (conj Hlay (conj eq_refl (conj Hm Hr)))|].
  exact (light_run_needs_the_copy_of_the_month_before E a self r1.2.2 r2.2
           Hlay eq_refl Hm Hr).
Defined.

(** Month 1 run in full and month 2 run light: the second run stores its
    output and its restart, and then raises on the removal of the copy
    that month 1 never made. *)
Example light_after_a_full_month_raises :
  let E := Fixture.env Exited in
  let self := Fixture.exp0 in
  let full := mk_run_args 1 None false false 8 false false false None in
  let r1 := run E full (self, Fixture.w1) in
  let r2 := run E (Fixture.light_args 2) (self, r1.2.2) in
  r1.1 = Ret true /\
  r2.1 = Raise (ErrorReturnCode 1) /\
  FS.isfile (get_restart_file self 2) (w_fs r2.2.2) = true /\
  FS.isfile (P (rundir self) "input.nml") (w_fs r2.2.2) = true.
Proof. intros E self full r1 r2. repeat (split; [by_vm|]). by_vm. Qed.

(** ** A run that is interrupted *)

Lemma strip_apart (d T rel : path) :
  FS.strip d T = None -> FS.strip T d = None -> FS.strip T (d ++ rel) = None.
Proof.
  intros H1 H2. apply strip_None_inv. intros r Heq.
  apply app_eq_inv in Heq as [(k & Hk & _)|(k & Hk & _)].
  - rewrite Hk, strip_app in H2. discriminate.
  - rewrite Hk, strip_app in H1. discriminate.
Qed.

Lemma mkdir_all_lookup (ps : list path) (T : path) :
  forall (failed : bool) (fs : gmap path node) (r : res unit)
         (fs' : gmap path node),
  FS.mkdir_all ps failed fs = (r, fs') ->
  (forall p, p ∈ ps -> FS.strip T p = None) ->
  fs' !! T = fs !! T.
Proof.
  induction ps as [|p ps IH]; intros failed fs r fs' H HT; simpl in H.
  - destruct failed; by injection H as _ <-.
  - assert (Hrest : forall q, q ∈ ps -> FS.strip T q = None).
    { intros q Hq. apply HT. by right. }
    destruct (FS.mkdir_from [] p fs) as [fs1|] eqn:Hmk.
    + rewrite (IH _ _ _ _ H Hrest).
      destruct (mkdir_from_lookup _ _ _ _ Hmk T)
        as [Hl|(_ & r1 & r2 & Hp & _ & Hr1)]; [done|].
      simpl in Hr1. subst T p.
      assert (Hs : FS.strip r1 (r1 ++ r2) = None) by (apply HT; left).
      rewrite strip_app in Hs. discriminate.
    + by apply (IH _ _ _ _ H Hrest).
Qed.

Section KeepsBeside.
Variable self : Experiment.

Lemma kb_ret {A} (a : A) : keeps_beside self (ret a).
Proof. by intros w r w' [= _ <-]. Qed.

Lemma kb_raise {A} (e : exn) : keeps_beside self (@raise World A e).
Proof. by intros w r w' [= _ <-]. Qed.

Lemma kb_gets {A} (f : World -> A) : keeps_beside self (gets f).
Proof. by intros w r w' [= _ <-]. Qed.

Lemma kb_bind {A B} (m : M World A) (k : A -> M World B) :
  keeps_beside self m -> (forall a, keeps_beside self (k a)) ->
  keeps_beside self (bind m k).
Proof.
  intros Hm Hk w r w' H T HT. unfold bind in H.
  destruct (m w) as [[a|e] w1] eqn:Hmw.
  - rewrite (Hk a _ _ _ H T HT). by apply (Hm _ _ _ Hmw).
  - injection H as _ <-. by apply (Hm _ _ _ Hmw).
Qed.

Lemma kb_for_each {A} (xs : list A) (body : A -> M World unit) :
  (forall x, keeps_beside self (body x)) ->
  keeps_beside self (for_each xs body).
Proof.
  intros Hb. induction xs as [|x xs IH]; simpl.
  - apply kb_ret.
  - apply kb_bind; [apply Hb | intros _; apply IH].
Qed.

Lemma kb_try_except {A} (m : M World A) (h : exn -> option (M World A)) :
  keeps_beside self m ->
  (forall e k, h e = Some k -> keeps_beside self k) ->
  keeps_beside self (try_except m h).
Proof.
  intros Hm Hh w r w' H T HT. unfold try_except in H.
  destruct (m w) as [[a|e] w1] eqn:Hmw.
  - injection H as _ <-. by apply (Hm _ _ _ Hmw).
  - destruct (h e) as [k|] eqn:He.
    + rewrite (Hh e k He _ _ _ H T HT). by apply (Hm _ _ _ Hmw).
    + injection H as _ <-. by apply (Hm _ _ _ Hmw).
Qed.

Lemma kb_on_heap {A} (m : M heap A) : keeps_beside self (on_heap m).
Proof.
  intros w r w' H T HT. apply on_heap_inv in H as (h & _ & ->). done.
Qed.

Lemma kb_emit (e : event) : keeps_beside self (emit e).
Proof. by intros w r w' [= _ <-]. Qed.

Lemma kb_cd (p : path) : keeps_beside self (cd p).
Proof. intros w r w' H T _. by rewrite (cd_fs _ _ _ _ H). Qed.

Lemma kb_mkdir (ps : list path) :
  (forall p, p ∈ ps ->
     (exists rel, p = rundir self ++ rel) \/ p = restartdir self) ->
  keeps_beside self (mkdir ps).
Proof.
  intros Hps w r w' H T (H1 & H2 & H3).
  apply on_fs_inv in H as (f & H & ->). simpl.
  apply (mkdir_all_lookup _ _ _ _ _ _ H).
  intros p Hp. destruct (Hps p Hp) as [[rel ->]| ->]; [|done].
  by apply strip_apart.
Qed.

Lemma kb_write (rel : path) (c : data) :
  keeps_beside self (on_fs (FS.write (rundir self ++ rel) c)).
Proof.
  intros w r w' H T (H1 & _). apply on_fs_inv in H as (f & H & ->). simpl.
  unfold FS.write in H.
  destruct (FS.isdir _ _ && negb _); injection H as _ <-; [|done].
  rewrite lookup_insert_ne; [done|].
  intros <-. by rewrite strip_app in H1.
Qed.

Lemma kb_cp (src rel : path) :
  keeps_beside self (on_fs (FS.cp src (rundir self ++ rel))).
Proof.
  intros w r w' H T HT. apply on_fs_inv in H as (f & H & ->). simpl.
  unfold FS.cp in H. destruct (w_fs w !! src) as [[|c]|];
    try (by injection H as _ <-).
  assert (Hin : forall (p : path) (r0 : res unit) (f0 : gmap path node),
            FS.write p c (w_fs w) = (r0, f0) ->
            (exists rel', p = rundir self ++ rel') ->
            f0 !! T = w_fs w !! T).
  { intros p r0 f0 Hw [rel' ->].
    apply (kb_write rel' c w r0 (with_fs f0 w)); [|done].
    unfold on_fs. by rewrite Hw. }
  destruct (FS.write _ c (w_fs w)) as [[[]|e] f1] eqn:Hw;
    injection H as _ <-; apply (Hin _ _ _ Hw);
    destruct (FS.isdir (rundir self ++ rel) (w_fs w));
    try (by exists rel);
    exists (rel ++ [FS.basename src]); unfold P; by rewrite app_assoc.
Qed.

Lemma kb_rm_r_rundir : keeps_beside self (on_fs (FS.rm_r (rundir self))).
Proof.
  intros w r w' H T (H1 & _). apply on_fs_inv in H as (f & H & ->). simpl.
  unfold FS.rm_r in H. injection H as _ <-. by rewrite prune_lookup, H1.
Qed.

Lemma kb_clear_rundir : keeps_beside self (clear_rundir self).
Proof.
  unfold clear_rundir. apply kb_bind; [apply kb_cd|intros _].
  apply kb_bind.
  { apply kb_try_except; [apply kb_rm_r_rundir|].
    intros e k He. destruct e; try discriminate He.
    destruct code as [|[]|]; try discriminate He.
    injection He as <-. apply kb_ret. }
  intros _. apply kb_mkdir. intros p Hp.
  apply list_elem_of_singleton in Hp as ->. left. exists [].
  by rewrite app_nil_r.
Qed.

Lemma kb_prepare : keeps_beside self (prepare self).
Proof.
  unfold prepare. apply kb_bind.
  { apply kb_mkdir. intros p Hp.
    apply elem_of_cons in Hp as [->|Hp]; [left; by exists ["INPUT"]|].
    apply elem_of_cons in Hp as [->|Hp]; [left; by exists ["RESTART"]|].
    apply list_elem_of_singleton in Hp as ->. by right. }
  intros _. apply kb_bind.
  { unfold write_namelist. apply kb_bind; [apply kb_gets|].
    intros [|]; [apply kb_raise|].
    apply kb_bind; [apply kb_gets|intros n]. apply kb_write. }
  intros _. apply kb_bind.
  { unfold write_field_table. apply kb_cp. }
  intros _. apply kb_bind.
  { unfold write_diag_table.
    destruct (negb _); [|apply kb_raise].
    apply kb_bind.
    { unfold get_template. apply kb_bind; [apply kb_gets|].
      intros [|]; [apply kb_ret|apply kb_raise]. }
    intros _. apply kb_bind.
    { unfold calendar_enabled. apply kb_bind; [apply kb_on_heap|].
      intros g. apply kb_bind; [apply kb_gets|].
      intros [v|]; [|apply kb_raise].
      destruct (v !! "calendar") as [[| | | |]|];
        first [apply kb_ret | apply kb_raise]. }
    intros c. apply kb_write. }
  intros _. apply kb_for_each. intros filename.
  unfold P. rewrite <- app_assoc. apply kb_cp.
Qed.

Lemma kb_launch E (script : path) : keeps_beside self (launch E self script).
Proof.
  intros w r w' H T (H1 & _). unfold launch, bind, on_fs, FS.read in H.
  destruct (w_fs w !! script) as [[|c]|]; simpl in H;
    try (by injection H as _ <-).
  destruct (pr_ending _); injection H as _ <-; simpl;
    by rewrite graft_lookup_outside.
Qed.

Lemma kb_launch_and_wait E : keeps_beside self (launch_and_wait E self).
Proof.
  unfold launch_and_wait. apply kb_try_except.
  { apply kb_bind; [apply kb_launch|intros _; apply kb_ret]. }
  intros e k He. destruct e; simpl in He; try discriminate He;
    injection He as <-;
    try (apply kb_bind; [apply kb_emit|intros _; apply kb_raise]).
  apply kb_bind; [apply kb_emit|intros _].
  apply kb_bind; [apply kb_clear_rundir|intros _; apply kb_ret].
Qed.

End KeepsBeside.

Lemma finish_false_inv E a rfile (self : Experiment) (w1 : World)
    (s' : Experiment * World) :
  finish E a rfile (self, w1) = (Ret false, s') ->
  exists w2 w3,
    on_fs (FS.write (P (rundir self) "runmonth.sh")
                    (Script (script_vars self a rfile))) w1 = (Ret tt, w2) /\
    launch_and_wait E self w2 = (Ret false, w3) /\
    s' = (set_cur_month (month a) self, w3).
Proof.
  unfold finish. intros H.
  apply bind_Ret in H as (self0 & s0 & [= <- <-] & H).
  apply bind_Ret in H as ([] & s1 & Ht & H).
  apply on_world_inv in Ht as (w1' & Ht & ->).
  apply get_template_same in Ht as ->.
  apply bind_Ret in H as ([] & s2 & Hw & H).
  apply on_world_inv in Hw as (w2 & Hw & ->).
  apply bind_Ret in H as ([] & s3 & [= <-] & H).
  apply bind_Ret in H as (go_on & s4 & Hl & H). simpl in Hl.
  apply on_world_inv in Hl as (w3 & Hl & ->).
  destruct go_on.
  - exfalso. revert H. unfold bind, on_world, ret. simpl.
    repeat match goal with
           | |- context [match ?m ?x with _ => _ end] =>
               lazymatch m with
               | mkdir _ => destruct (m x) as [[[]|?] ?]
               | archive_restart _ _ => destruct (m x) as [[[]|?] ?]
               | store_output _ _ _ => destruct (m x) as [[[]|?] ?]
               | clear_rundir _ => destruct (m x) as [[[]|?] ?]
               | cd _ => destruct (m x) as [[[]|?] ?]
               end; simpl
           end; discriminate.
  - injection H as <-. by exists w2, w3.
Qed.

(** X18.  A run that returns [False]: the month was skipped and nothing has
    changed, or the user has interrupted the child; then the output
    directory of the month is not there, and the restart archive of the
    month, if there was one, is as it was, so the month can be run
    again. *)
Theorem interrupted_run_leaves_no_output E a (self : Experiment) (w : World)
    (s' : Experiment * World) :
  layout self ->
  run E a (self, w) = (Ret false, s') ->
  s' = (self, w) \/
  (FS.isdir (outdir_of self (month a)) (w_fs s'.2) = false /\
   w_fs s'.2 !! get_restart_file self (month a)
     = w_fs w !! get_restart_file self (month a)).
Proof.
  intros Hlay Hrun.
  assert (Hbody : forall w0, entered self a w w0 ->
    FS.isdir (outdir_of self (month a)) (w_fs s'.2) = false /\
    w_fs s'.2 !! get_restart_file self (month a)
      = w_fs w !! get_restart_file self (month a)).
  { intros w0 Hent. rewrite (run_entered _ _ _ _ _ Hent) in Hrun.
    apply run_body_returns in Hrun as (w1 & rfile & Hp & _ & Hfin).
    apply finish_false_inv in Hfin as (w2 & w3 & Hw & Hl & ->). simpl.
    assert (Hkeep : forall T : path, beside self T ->
              w_fs w3 !! T = w_fs w0 !! T).
    { intros T HT.
      rewrite (kb_launch_and_wait self E _ _ _ Hl T HT).
      rewrite (kb_write self ["runmonth.sh"] _ _ _ _ Hw T HT).
      by apply (kb_prepare self _ _ _ Hp). }
    pose proof Hlay as (_ & _ & _ & _ & Hdrs).
    split.
    - unfold FS.isdir. rewrite Hkeep.
      + unfold entered in Hent.
        destruct (FS.isdir (outdir_of self (month a)) (w_fs w)) eqn:Hd.
        * destruct Hent as [_ ->]. simpl.
          by rewrite prune_lookup, strip_self.
        * subst w0. exact Hd.
      + split; [by apply rundir_not_above_outdir|].
        split; [by apply outdir_not_above_rundir|].
        unfold outdir_of, P. by apply strip_longer_None.
    - rewrite Hkeep.
      + unfold entered in Hent. destruct (FS.isdir _ (w_fs w)).
        * destruct Hent as [_ ->]. simpl. rewrite prune_lookup.
          by rewrite (outdir_not_above_restart self Hlay).
        * by subst w0.
      + split; [by apply rundir_not_above_restart|].
        destruct Hlay as (Hrun' & Hrst & _).
        unfold get_restart_file. rewrite Hrun', Hrst. unfold P.
        rewrite <- !app_assoc. rewrite !strip_app_both. simpl. done. }
  destruct (FS.isdir (outdir_of self (month a)) (w_fs w)) eqn:Hd.
  - destruct (overwrite_data self || arg_overwrite_data a) eqn:Hov.
    + right.
      apply (Hbody (with_fs (FS.prune (outdir_of self (month a)) (w_fs w)) w)).
      unfold entered. by rewrite Hd.
    + left. revert Hrun. unfold run, bind, gets. simpl. rewrite Hd, Hov.
      by intros [= <-].
  - right. apply (Hbody w). unfold entered. by rewrite Hd.
Qed.

Lemma interrupted_run_leaves_no_output_witness :
  let E := Fixture.env (Died KeyboardInterrupt) in
  let a := Fixture.light_args 1 in
  let self := Fixture.exp0 in
  let r := run E a (self, Fixture.w1) in
  (layout self /\ r = (Ret false, r.2)) /\
  (r.2 = (self, Fixture.w1) \/
   (FS.isdir (outdir_of self (month a)) (w_fs r.2.2) = false /\
    w_fs r.2.2 !! get_restart_file self (month a)
      = w_fs Fixture.w1 !! get_restart_file self (month a))).
Proof.
  intros E a self r.
  assert (Hlay : layout self) by (repeat split; reflexivity).
  assert (Hr : r = (Ret false, r.2)) by (apply result_eta; by_vm).
  split; [exact (conj Hlay Hr)|].
  exact (interrupted_run_leaves_no_output E a self Fixture.w1 r.2 Hlay Hr).
Defined.
